(** * ichnaea datamap pipeline: a shallow embedding of [ichnaea/scripts/datamap.py]

    The development follows the script top-down in its own vocabulary:
    the job batch executor [watch_jobs], the shard export with file
    rotation [export_to_csv], the quadtree merge commands
    [merge_quadtrees] / [csv_to_quadtrees], the remote inventory
    [get_current_objects], the sync planner [get_sync_actions] and the
    orchestrator [generate].

    Part I holds the definitions, Part II the properties. *)

From Stdlib Require Import QArith Ascii String.
From stdpp Require Import gmap strings pretty list fin_maps sorting.

Open Scope Z_scope.
Open Scope string_scope.
Open Scope list_scope.

(* ===================================================================== *)
(** * Part I: definitions                                                 *)
(* ===================================================================== *)

(** ** Python exceptions and the state-and-exception monad *)

(** The exception classes the script meets.  [KeyboardInterrupt] and
    [SystemExit] derive from [BaseException] only; every other class
    derives from [Exception].  [JobException n] stands for whatever
    [Exception] subclass the work function of job [n] raised. *)
Inductive exn : Type :=
| KeyboardInterrupt
| SystemExit
| TypeError (msg : string)
| KeyError (key : string)
| AssertionError
| RuntimeError (msg : string)
| ValueError (msg : string)
| FileNotFoundError (path : string)
| CalledProcessError (cmd : list string)
| JobException (n : nat).

(** [isinstance(e, Exception)] *)
Definition is_Exception (e : exn) : bool :=
  match e with
  | KeyboardInterrupt | SystemExit => false
  | _ => true
  end.

Inductive res (A : Type) : Type :=
| Ret (a : A)
| Raise (e : exn).
Arguments Ret {A} a.
Arguments Raise {A} e.

(** A computation over a world [W] that returns or raises. *)
Definition M (W A : Type) : Type := W -> res A * W.

Definition ret {W A} (a : A) : M W A := fun w => (Ret a, w).
Definition raise {W A} (e : exn) : M W A := fun w => (Raise e, w).

Definition bind {W A B} (m : M W A) (k : A -> M W B) : M W B :=
  fun w =>
    match m w with
    | (Ret a, w') => k a w'
    | (Raise e, w') => (Raise e, w')
    end.

(** [try: m except <any> as e: h e] where [h] re-raises what it does not handle. *)
Definition try_except {W A} (m : M W A) (h : exn -> M W A) : M W A :=
  fun w =>
    match m w with
    | (Ret a, w') => (Ret a, w')
    | (Raise e, w') => h e w'
    end.

(** [try: m finally: f] *)
Definition try_finally {W A} (m : M W A) (f : M W unit) : M W A :=
  fun w =>
    match m w with
    | (r, w') =>
        match f w' with
        | (Ret _, w'') => (r, w'')
        | (Raise e, w'') => (Raise e, w'')
        end
    end.

Declare Scope py_scope.
Delimit Scope py_scope with py.
Notation "x <- m ;; k" := (bind m (fun x => k))
  (at level 100, m at next level, right associativity) : py_scope.
Notation "m ;;; k" := (bind m (fun _ => k))
  (at level 100, right associativity) : py_scope.
Open Scope py_scope.

(** Calling an optional callable: [None(...)] raises [TypeError]. *)
Definition call {W A} (f : option (M W A)) : M W A :=
  match f with
  | Some g => g
  | None => raise (TypeError "'NoneType' object is not callable")
  end.

Definition Qltb (a b : Q) : bool := negb (Qle_bool b a).

(** ** The job batch executor: [watch_jobs] *)

Section Executor.

Context {W R : Type}.

(** [default_timer()] reads the host clock. *)
Variable default_timer : M W Q.

(** [Timer.elapsed] of a timer entered at [start]. *)
Definition Timer_elapsed (start : Q) : M W Q :=
  now <- default_timer ;; ret (now - start)%Q.

(** [with Timer() as timer: body]: [__enter__] records [start],
    [__exit__] reads the clock once more on every way out. *)
Definition with_Timer {A} (body : Q -> M W A) : M W A :=
  start <- default_timer ;;
  try_finally (body start) (_end <- default_timer ;; ret tt).

(** A job is the computation run by [job.get()]: it blocks, then
    returns the job's value or raises what the job raised. *)
Definition job : Type := M W R.

(** The [try] statement of the loop body. *)
Definition await_job
    (on_success : option (R -> M W unit))
    (on_error : option (exn -> M W unit))
    (raven_client : option (M W unit))
    (j : job) : M W unit :=
  try_except
    (job_resp <- j ;;
     match on_success with
     | Some f => f job_resp
     | None => ret tt
     end)
    (fun e =>
       match e with
       | KeyboardInterrupt => raise e
       | _ =>
           if is_Exception e then
             (match raven_client with
              | Some captureException => captureException
              | None => ret tt
              end) ;;;
             match on_error with
             | Some f => f e
             | None => raise e
             end
           else raise e
       end).

(** The [for job in jobs] loop; [last_elapsed] and [jobs_complete] are
    the loop-carried locals. *)
Fixpoint watch_loop
    (on_success : option (R -> M W unit))
    (on_error : option (exn -> M W unit))
    (on_progress : option (nat -> Q -> M W unit))
    (raven_client : option (M W unit))
    (progress_seconds : Q)
    (start : Q) (total_jobs : nat)
    (jobs : list job) (last_elapsed : Q) (jobs_complete : nat) : M W unit :=
  match jobs with
  | [] => ret tt
  | j :: rest =>
      elapsed <- Timer_elapsed start ;;
      last_elapsed' <-
        (if Qltb (last_elapsed + progress_seconds)%Q elapsed then
           let job_percent :=
             (inject_Z (Z.of_nat jobs_complete) / inject_Z (Z.of_nat total_jobs))%Q in
           call (option_map (fun f => f jobs_complete job_percent) on_progress) ;;;
           Timer_elapsed start
         else ret last_elapsed) ;;
      await_job on_success on_error raven_client j ;;;
      watch_loop on_success on_error on_progress raven_client progress_seconds
        start total_jobs rest last_elapsed' (S jobs_complete)
  end.

Definition watch_jobs
    (jobs : list job)
    (on_success : option (R -> M W unit))
    (on_error : option (exn -> M W unit))
    (on_progress : option (nat -> Q -> M W unit))
    (raven_client : option (M W unit))
    (progress_seconds : Q) : M W unit :=
  with_Timer (fun start =>
    watch_loop on_success on_error on_progress raven_client progress_seconds
      start (length jobs) jobs 0%Q 0%nat).

End Executor.

(** The default of [progress_seconds]. *)
Definition default_progress_seconds : Q := 5.

(** ** An observable world for the executor

    The world holds the clock (the value of each successive reading of
    [default_timer]) and the log of everything the executor made
    happen: which jobs were awaited, and which callbacks ran. *)

Inductive event : Type :=
| EvGet (n : nat)
| EvSuccess (r : nat)
| EvCapture
| EvError (e : exn)
| EvProgress (done : nat) (fraction : Q).

Record world : Type := World {
  clock : nat -> Q;
  ticks : nat;
  log : list event
}.

Definition emit (ev : event) : M world unit :=
  fun w => (Ret tt, World (clock w) (ticks w) (log w ++ [ev])).

Definition read_clock : M world Q :=
  fun w => (Ret (clock w (ticks w)), World (clock w) (S (ticks w)) (log w)).

(** How the work function of a job ends. *)
Inductive outcome : Type := Succeeds | Fails | Interrupted.

(** Job number [n]: awaiting it is logged; it returns [n], or raises
    its own exception, or the wait is interrupted by Ctrl-C. *)
Definition job_of (n : nat) (o : outcome) : job (W:=world) (R:=nat) :=
  emit (EvGet n) ;;;
  match o with
  | Succeeds => ret n
  | Fails => raise (JobException n)
  | Interrupted => raise KeyboardInterrupt
  end.

(** Jobs numbered from [n] on, with the given outcomes. *)
Fixpoint jobs_from (n : nat) (os : list outcome) : list (job (W:=world) (R:=nat)) :=
  match os with
  | [] => []
  | o :: os' => job_of n o :: jobs_from (S n) os'
  end.

(** Callbacks that only record their call. *)
Definition rec_success : nat -> M world unit := fun r => emit (EvSuccess r).
Definition rec_error : exn -> M world unit := fun e => emit (EvError e).
Definition rec_progress : nat -> Q -> M world unit := fun d f => emit (EvProgress d f).
Definition rec_capture : M world unit := emit EvCapture.

Definition supplied {A} (b : bool) (f : A) : option A := if b then Some f else None.

Definition is_progress (ev : event) : bool :=
  match ev with EvProgress _ _ => true | _ => false end.



Definition is_error (ev : event) : bool :=
  match ev with EvError _ => true | _ => false end.

Definition is_capture (ev : event) : bool :=
  match ev with EvCapture => true | _ => false end.

Definition is_get_of (n : nat) (ev : event) : bool :=
  match ev with EvGet m => Nat.eqb m n | _ => false end.

Definition is_success_of (n : nat) (ev : event) : bool :=
  match ev with EvSuccess m => Nat.eqb m n | _ => false end.


Definition count (p : event -> bool) (l : list event) : nat :=
  length (List.filter p l).

(** The log with the progress reports left out. *)
Definition no_progress (l : list event) : list event :=
  List.filter (fun ev => negb (is_progress ev)) l.

Definition world0 (c : nat -> Q) : world := World c 0 [].

(** What a batch is expected to leave in the log, progress reports
    apart, and how it is expected to end: jobs are numbered from [n],
    [sc], [h] and [rv] tell whether [on_success], [on_error] and
    [raven_client] are supplied. *)
Fixpoint expected (sc h rv : bool) (n : nat) (os : list outcome) : res unit * list event :=
  match os with
  | [] => (Ret tt, [])
  | Succeeds :: os' =>
      let '(r, l) := expected sc h rv (S n) os' in
      (r, EvGet n :: (if sc then [EvSuccess n] else []) ++ l)
  | Fails :: os' =>
      let reported := EvGet n :: (if rv then [EvCapture] else []) in
      if h then
        let '(r, l) := expected sc h rv (S n) os' in
        (r, reported ++ EvError (JobException n) :: l)
      else (Raise (JobException n), reported)
  | Interrupted :: _ => (Raise KeyboardInterrupt, [EvGet n])
  end.



(** The number of jobs of a batch that fail. *)
Definition failures (os : list outcome) : nat :=
  length (List.filter (fun o => match o with Fails => true | _ => false end) os).

(** A clock that stands at [0] for its first two readings and at [6]
    seconds from then on: the first job of a batch takes six seconds. *)
Definition slow_first_job_clock (n : nat) : Q :=
  if (n <? 2)%nat then 0 else 6.


(** ** Strings, paths and Python integers *)

(** [s.endswith(suffix)] *)
Definition str_endswith (suffix s : string) : bool :=
  String.prefix (String.rev suffix) (String.rev s).

(** [s.startswith(prefix)] *)
Definition str_startswith (prefix s : string) : bool := String.prefix prefix s.

(** [s.replace(old, new)] for a non-empty [old]: every occurrence, left
    to right, without overlap.  [skip] counts the characters of a
    matched occurrence that are still to be dropped. *)
Fixpoint str_replace_go (old new : string) (skip : nat) (s : string) : string :=
  match s with
  | EmptyString => EmptyString
  | String c s' =>
      match skip with
      | S k => str_replace_go old new k s'
      | O =>
          if String.prefix old s
          then new +:+ str_replace_go old new (String.length old - 1) s'
          else String c (str_replace_go old new 0 s')
      end
  end.

Definition str_replace (old new s : string) : string := str_replace_go old new 0 s.

(** ["0" * n] *)
Fixpoint zeros (n : nat) : string :=
  match n with
  | O => EmptyString
  | S k => String "0"%char (zeros k)
  end.

(** [f"{n:04}"] for [n >= 0]: decimal, zero-padded to four digits. *)
Definition format_04 (n : Z) : string :=
  let digits := pretty n in
  zeros (4 - String.length digits) +:+ digits.

(** [s.lstrip("/")] *)
Fixpoint lstrip_slash (s : string) : string :=
  match s with
  | String "/"%char s' => lstrip_slash s'
  | _ => s
  end.

(** [s[n:]] *)
Fixpoint str_drop (n : nat) (s : string) : string :=
  match n, s with
  | O, _ => s
  | S k, String _ s' => str_drop k s'
  | S _, EmptyString => EmptyString
  end.

(** [os.path.join(a, b)] on POSIX paths. *)
Definition path_join (a b : string) : string :=
  if str_startswith "/" b then b
  else if decide (a = "") then b
  else if str_endswith "/" a then a +:+ b
  else a +:+ "/" +:+ b.

(** [x or default] for an optional integer argument: [None] and [0] are falsy. *)
Definition int_or (x : option Z) (default : Z) : Z :=
  match x with
  | Some v => if decide (v = 0) then default else v
  | None => default
  end.

(** [len(l)] *)
Definition len {A} (l : list A) : Z := Z.of_nat (length l).

(** ** Shard export with file rotation: [export_to_csv] *)

(** A row of a datamap table as the export query selects it. *)
Record row : Type := Row { grid : string; num : Z }.

(** The CSV directory: path to the lines written so far. *)
Abbreviation csvfs := (gmap string (list string)).

(** [open(path, "w")]: create or truncate. *)
Definition open_w (path : string) : M csvfs unit :=
  fun fs => (Ret tt, <[path := []]> fs).

(** [fd.writelines(lines)] on the file opened at [path]. *)
Definition writelines (path : string) (lines : list string) : M csvfs unit :=
  fun fs => (Ret tt, <[path := default [] (fs !! path) ++ lines]> fs).

(** [os.remove(path)] *)
Definition os_remove (path : string) : M csvfs unit :=
  fun fs => (Ret tt, delete path fs).

(** [os.rename(src, dst)] *)
Definition os_rename (src dst : string) : M csvfs unit :=
  fun fs =>
    match fs !! src with
    | Some content => (Ret tt, <[dst := content]> (delete src fs))
    | None => (Ret tt, fs)
    end.

(** ["sub" + orig_filename.replace(".csv", f"_{file_count:04}.csv")] *)
Definition serial_filename (orig_filename : string) (file_count : Z) : string :=
  "sub" +:+ str_replace ".csv" ("_" +:+ format_04 file_count +:+ ".csv") orig_filename.

Section ShardExport.

(** Latitude and longitude as [decode_datamap_grid] returns them. *)
Context {coord : Type}.

(** The two helpers imported from [ichnaea.models.content] and
    [geocalc]: decoding of a grid key, and the jitter that turns one
    row into its CSV lines. *)
Variable decode_datamap_grid : string -> coord * coord.
Variable random_points : coord -> coord -> Z -> list string.

(** The inner [for row in rows] loop building [lines]. *)
Definition page_lines (rows : list row) : list string :=
  flat_map
    (fun r => let '(lat, lon) := decode_datamap_grid (grid r) in
              random_points lat lon (num r))
    rows.

(** The [while True] loop.  [pages] are the successive results of
    [session.execute(...).fetchall()]: the table read in ascending
    [grid] order, [row_limit] rows at a time; when they are used up the
    query returns no rows.  The loop-carried locals are [result_rows],
    [file_count], [file_rows] and [file_path] (the file [fd] writes to). *)
Fixpoint export_loop (csv_dir orig_filename : string) (file_limit : Z)
    (pages : list (list row))
    (result_rows file_count file_rows : Z) (file_path : string)
    : M csvfs (Z * Z * Z * string) :=
  match pages with
  | [] => ret (result_rows, file_count, file_rows, file_path)
  | [] :: _ => ret (result_rows, file_count, file_rows, file_path)
  | rows :: later =>
      let lines := page_lines rows in
      writelines file_path lines ;;;
      let result_rows := result_rows + len lines in
      let file_rows := file_rows + len lines in
      if decide (result_rows >= file_limit) then
        let file_count := file_count + 1 in
        let file_rows := 0 in
        let filename := serial_filename orig_filename file_count in
        let file_path := path_join csv_dir filename in
        open_w file_path ;;;
        export_loop csv_dir orig_filename file_limit later
          result_rows file_count file_rows file_path
      else
        export_loop csv_dir orig_filename file_limit later
          result_rows file_count file_rows file_path
  end.

(** [session row_limit] is the sequence of pages the data source
    returns when it is read [row_limit] rows at a time. *)
Definition export_to_csv (session : Z -> list (list row))
    (filename csv_dir : string) (row_limit file_limit : option Z)
    : M csvfs (Z * Z) :=
  let row_limit := int_or row_limit 200000 in
  let file_limit := int_or file_limit 10000000 in
  let file_path := path_join csv_dir filename in
  open_w file_path ;;;
  let orig_filename := filename in
  let orig_file_path := file_path in
  if negb (str_endswith ".csv" filename) then raise AssertionError else
  locals <-
     export_loop csv_dir orig_filename file_limit (session row_limit)
       0 1 0 file_path ;;
  let '(result_rows, file_count, file_rows, file_path) := locals in
  file_count <-
     (if decide (file_rows = 0) then
        os_remove file_path ;;; ret (file_count - 1)
      else ret file_count) ;;
  (if decide (file_count > 1) then
     os_rename orig_file_path
       (path_join csv_dir (serial_filename orig_filename 1))
   else ret tt) ;;;
  ret (result_rows, file_count).

End ShardExport.

(** *** The export seen through line counts

    The rotation logic only looks at [len(lines)].  [export_sizes]
    replays [export_to_csv] on the number of lines of each fetched page
    and keeps, for every file, the number of lines it holds. *)

Abbreviation sizefs := (gmap string Z).

Fixpoint sizes_loop (csv_dir orig_filename : string) (file_limit : Z)
    (page_sizes : list Z)
    (result_rows file_count file_rows : Z) (file_path : string) (fs : sizefs)
    : Z * Z * Z * string * sizefs :=
  match page_sizes with
  | [] => (result_rows, file_count, file_rows, file_path, fs)
  | n :: later =>
      let fs := <[file_path := default 0 (fs !! file_path) + n]> fs in
      let result_rows := result_rows + n in
      let file_rows := file_rows + n in
      if decide (result_rows >= file_limit) then
        let file_path' := path_join csv_dir (serial_filename orig_filename (file_count + 1)) in
        sizes_loop csv_dir orig_filename file_limit later
          result_rows (file_count + 1) 0 file_path' (<[file_path' := 0]> fs)
      else
        sizes_loop csv_dir orig_filename file_limit later
          result_rows file_count file_rows file_path fs
  end.

Definition export_sizes (page_sizes : list Z) (filename csv_dir : string)
    (file_limit : Z) (fs : sizefs) : Z * Z * sizefs :=
  let file_path := path_join csv_dir filename in
  let '(result_rows, file_count, file_rows, last_path, fs) :=
    sizes_loop csv_dir filename file_limit page_sizes 0 1 0 file_path
      (<[file_path := 0]> fs) in
  let '(file_count, fs) :=
    if decide (file_rows = 0) then (file_count - 1, delete last_path fs)
    else (file_count, fs) in
  let fs :=
    if decide (file_count > 1) then
      match fs !! file_path with
      | Some n => <[path_join csv_dir (serial_filename filename 1) := n]> (delete file_path fs)
      | None => fs
      end
    else fs in
  (result_rows, file_count, fs).

(** The number of lines each file holds. *)
Definition sizes (fs : csvfs) : sizefs := len <$> fs.

(** The number of lines of each page that [export_loop] gets to see:
    the pages up to the first one without rows. *)
Fixpoint page_sizes {coord : Type}
    (decode_datamap_grid : string -> coord * coord)
    (random_points : coord -> coord -> Z -> list string)
    (pages : list (list row)) : list Z :=
  match pages with
  | [] => []
  | [] :: _ => []
  | rows :: later =>
      len (page_lines decode_datamap_grid random_points rows)
      :: page_sizes decode_datamap_grid random_points later
  end.

(** The number of lines of several pages together. *)
Definition total (page_sizes : list Z) : Z := foldr Z.add 0 page_sizes.

(** *** A table of 25,000,000 rows read 200,000 rows at a time

    Row number [i] has the eight-digit decimal of [i] as its key, so
    keys ascend with row numbers; every row is recent enough to give
    one CSV line. *)
Definition numbered_row (i : nat) : row :=
  let digits := pretty i in
  Row (zeros (8 - String.length digits) +:+ digits) 0.

Definition one_point (lat lon : Z) (num : Z) : list string := ["0.0,0.0"].

Definition grid_origin (grid : string) : Z * Z := (0, 0).

(** Page [k] of [pages] pages of [row_limit] rows each. *)
Definition numbered_page (row_limit : nat) (k : nat) : list row :=
  map numbered_row (seq (k * row_limit) row_limit).

Definition numbered_session (pages : nat) (row_limit : Z) : list (list row) :=
  map (numbered_page (Z.to_nat row_limit)) (seq 0 pages).

(** The files expected by the specification for 25,000,000 rows, and
    the files the export leaves: the first segment, then one segment
    per later page. *)
Definition segment_path (n : Z) : string :=
  path_join "/out/csv" (serial_filename "map_ne.csv" n).

Definition one_segment_per_page : sizefs :=
  list_to_map
    ((segment_path 1, 10000000)
     :: map (fun n => (segment_path (Z.of_nat n), 200000)) (seq 2 75)).

(** ** Quadtrees: [csv_to_quadtree], [merge_quadtrees], [csv_to_quadtrees] *)

(** [s.split(sep)] for a one-character separator. *)
Fixpoint str_split_go (sep : ascii) (current : string) (s : string) : list string :=
  match s with
  | EmptyString => [String.rev current]
  | String c s' =>
      if decide (c = sep) then String.rev current :: str_split_go sep EmptyString s'
      else str_split_go sep (String c current) s'
  end.

Definition str_split (sep : ascii) (s : string) : list string :=
  str_split_go sep EmptyString s.

(** What the quadtree stage asks of its surroundings: the clock, the
    folders, reading a file, [glob.glob] and [subprocess.run] with
    [check=True] (a non-zero exit raises). *)
Record oshost (W bytes : Type) : Type := OsHost {
  os_default_timer : M W Q;
  os_listdir : string -> M W (list string);
  os_isdir : string -> M W bool;
  os_mkdir : string -> M W unit;
  os_read : string -> M W bytes;
  os_glob : string -> M W (list string);
  os_run : list string -> option bytes -> M W unit
}.
Arguments os_default_timer {W bytes} _.
Arguments os_listdir {W bytes} _.
Arguments os_isdir {W bytes} _.
Arguments os_mkdir {W bytes} _.
Arguments os_read {W bytes} _.
Arguments os_glob {W bytes} _.
Arguments os_run {W bytes} _.

(** The [cmd] list that [merge_quadtrees] builds. *)
Definition merge_cmd (quadtree_files : list string) (shapes_dir : string)
    (remove_duplicates : bool) : list string :=
  let cmd := ["merge"] in
  let cmd := if remove_duplicates then cmd ++ ["-u"] else cmd in
  let cmd := cmd ++ ["-o"; shapes_dir] in
  cmd ++ quadtree_files.

(** The [intermediates] dictionary, in insertion order:
    [intermediates[shard].append(basename)] on a [defaultdict(list)]. *)
Fixpoint intermediates_append (shard basename : string)
    (intermediates : list (string * list string)) : list (string * list string) :=
  match intermediates with
  | [] => [(shard, [basename])]
  | (s, basenames) :: rest =>
      if decide (s = shard) then (s, basenames ++ [basename]) :: rest
      else (s, basenames) :: intermediates_append shard basename rest
  end.

Section Quadtrees.

Context {W bytes : Type}.
Variable host : oshost W bytes.

Definition csv_to_quadtree (name csv_dir quadtree_dir : string) : M W unit :=
  let input_path := path_join csv_dir name in
  csv <- os_read host input_path ;;
  let output_path := path_join quadtree_dir (hd EmptyString (str_split "." name)) in
  let cmd := ["encode"; "-z13"; "-o"; output_path] in
  os_run host cmd (Some csv).

Definition merge_quadtrees (quadtree_dir shapes_dir : string)
    (remove_duplicates : bool) (pattern : string) : M W unit :=
  quadtree_files <- os_glob host (path_join quadtree_dir pattern) ;;
  match quadtree_files with
  | [] => raise AssertionError
  | _ => os_run host (merge_cmd quadtree_files shapes_dir remove_duplicates) None
  end.

(** [merge_quadtrees] as [generate] calls it, with the defaults
    [remove_duplicates=True] and [pattern="map*"]. *)
Definition merge_all_quadtrees (quadtree_dir shapes_dir : string) : M W unit :=
  merge_quadtrees quadtree_dir shapes_dir true "map*".

(** The merge job that [csv_to_quadtrees] queues for a shard with
    intermediates. *)
Definition shard_merge_job (quadtree_dir shard : string) : M W unit :=
  let submap_dir := path_join quadtree_dir ("submap_" +:+ shard) in
  let map_dir := path_join quadtree_dir ("map_" +:+ shard) in
  merge_quadtrees submap_dir map_dir false "submap*".

(** The locals of the first loop of [csv_to_quadtrees]. *)
Record quad_state : Type := QuadState {
  jobs : list (M W unit);
  intermediate_count : Z;
  intermediates : list (string * list string);
  final_count : Z
}.

(** The body of [for name in os.listdir(csvdir)]. *)
Definition queue_csv (csvdir quadtree_dir : string) (st : quad_state) (name : string)
    : M W quad_state :=
  let st :=
    if str_startswith "map_" name && str_endswith ".csv" name then
      QuadState (jobs st ++ [csv_to_quadtree name csvdir quadtree_dir])
        (intermediate_count st) (intermediates st) (final_count st + 1)
    else st in
  if str_startswith "submap_" name && str_endswith ".csv" name then
    match str_split "_" name, str_split "." name with
    | [_prefix; shard; _suffix], [basename; _suffix'] =>
        let submap_dir := path_join quadtree_dir ("submap_" +:+ shard) in
        exists_ <- os_isdir host submap_dir ;;
        (if (exists_ : bool) then ret tt else os_mkdir host submap_dir) ;;;
        ret (QuadState (jobs st ++ [csv_to_quadtree name csvdir submap_dir])
               (intermediate_count st + 1)
               (intermediates_append shard basename (intermediates st))
               (final_count st))
    | _, _ => raise (ValueError "unpack")
    end
  else ret st.

Fixpoint queue_csvs (csvdir quadtree_dir : string) (names : list string)
    (st : quad_state) : M W quad_state :=
  match names with
  | [] => ret st
  | name :: rest =>
      st' <- queue_csv csvdir quadtree_dir st name ;;
      queue_csvs csvdir quadtree_dir rest st'
  end.

(** The progress callbacks only write to the debug log. *)
Definition log_progress : nat -> Q -> M W unit := fun _ _ => ret tt.

Definition csv_to_quadtrees (csvdir quadtree_dir : string) : M W (Z * Z * Z) :=
  names <- os_listdir host csvdir ;;
  st <- queue_csvs csvdir quadtree_dir names (QuadState [] 0 [] 0) ;;
  watch_jobs (os_default_timer host) (jobs st) None None (Some log_progress)
    None default_progress_seconds ;;;
  let csv_count := len (jobs st) in
  let merge_jobs := map (fun entry => shard_merge_job quadtree_dir (fst entry))
                        (intermediates st) in
  let final_count := final_count st + len merge_jobs in
  watch_jobs (os_default_timer host) merge_jobs None None (Some log_progress)
    None default_progress_seconds ;;;
  ret (csv_count, intermediate_count st, final_count).

End Quadtrees.

(** *** A file system with the codec tools

    A CSV file is the list of its lines, one point per line; a
    quadtree is kept as the list of the points it holds.  The tools
    follow their invocation contract: [encode -z13 -o out] reads a CSV
    on its standard input and writes the quadtree [out];
    [merge [-u] -o out inputs...] writes to [out] the points of all
    the inputs, and with [-u] each point once. *)
Record qworld : Type := QWorld {
  q_clock : nat -> Q;
  q_ticks : nat;
  q_csvs : gmap string (list string);
  q_trees : gmap string (list string);
  q_dirs : gset string;
  q_cmds : list (list string)
}.

Definition q_set_trees (trees : gmap string (list string)) (w : qworld) : qworld :=
  QWorld (q_clock w) (q_ticks w) (q_csvs w) trees (q_dirs w) (q_cmds w).

Definition q_log_cmd (cmd : list string) (w : qworld) : qworld :=
  QWorld (q_clock w) (q_ticks w) (q_csvs w) (q_trees w) (q_dirs w) (q_cmds w ++ [cmd]).

(** [true] when the string has no slash. *)
Fixpoint no_slash (s : string) : bool :=
  match s with
  | EmptyString => true
  | String c s' => if decide (c = "/"%char) then false else no_slash s'
  end.

(** A glob pattern whose only wildcard is a final star, which stands
    for any run of characters of one path component. *)
Fixpoint glob_match (pattern path : string) : bool :=
  match pattern, path with
  | String "*"%char EmptyString, rest => no_slash rest
  | String c pattern', String d path' =>
      if decide (c = d) then glob_match pattern' path' else false
  | EmptyString, EmptyString => true
  | _, _ => false
  end.

(** The quadtrees that a pattern matches. *)
Definition q_glob (pattern : string) (trees : gmap string (list string)) : list string :=
  List.filter (glob_match pattern) (map fst (map_to_list trees)).

(** The points of several quadtrees, one after the other. *)
Definition points_of (files : list string) (trees : gmap string (list string))
    : list string :=
  concat (map (fun f => default [] (trees !! f)) files).

Definition all_exist (files : list string) (trees : gmap string (list string)) : bool :=
  forallb (fun f => bool_decide (is_Some (trees !! f))) files.

(** Modelled from the spec: the external codec tools [encode] and
    [merge], which [subprocess.run(cmd, input=..., check=True)] starts
    and which are no part of the script.  Their contract is
    [encode -z<maxzoom> -o <out>] (CSV on standard input, one index
    artifact out) and [merge [-u] -o <out> <inputs...>] ([-u] removes
    duplicates); any other invocation, or a missing input, exits
    non-zero. *)
Definition q_run (cmd : list string) (input : option (list string)) : M qworld unit :=
  fun w =>
    let w := q_log_cmd cmd w in
    match cmd, input with
    | ["encode"; "-z13"; "-o"; out], Some csv =>
        (Ret tt, q_set_trees (<[out := csv]> (q_trees w)) w)
    | "merge" :: "-u" :: "-o" :: out :: inputs, None =>
        if all_exist inputs (q_trees w) then
          (Ret tt, q_set_trees
                     (<[out := remove_dups (points_of inputs (q_trees w))]> (q_trees w)) w)
        else (Raise (CalledProcessError cmd), w)
    | "merge" :: "-o" :: out :: inputs, None =>
        if all_exist inputs (q_trees w) then
          (Ret tt, q_set_trees (<[out := points_of inputs (q_trees w)]> (q_trees w)) w)
        else (Raise (CalledProcessError cmd), w)
    | _, _ => (Raise (CalledProcessError cmd), w)
    end.

Definition q_host : oshost qworld (list string) :=
  {| os_default_timer := fun w =>
       (Ret (q_clock w (q_ticks w)),
        QWorld (q_clock w) (S (q_ticks w)) (q_csvs w) (q_trees w) (q_dirs w) (q_cmds w));
     os_listdir := fun dir w =>
       (Ret (map (str_drop (String.length (path_join dir "")))
               (List.filter (glob_match (path_join dir "*"))
                  (map fst (map_to_list (q_csvs w))))), w);
     os_isdir := fun dir w => (Ret (bool_decide (dir ∈ q_dirs w)), w);
     os_mkdir := fun dir w =>
       (Ret tt, QWorld (q_clock w) (q_ticks w) (q_csvs w) (q_trees w)
                  ({[dir]} ∪ q_dirs w) (q_cmds w));
     os_read := fun path w =>
       match q_csvs w !! path with
       | Some csv => (Ret csv, w)
       | None => (Raise (FileNotFoundError path), w)
       end;
     os_glob := fun pattern w => (Ret (q_glob pattern (q_trees w)), w);
     os_run := q_run |}.

(** A CSV folder after an export: the north-east shard was split in
    two segments that both hold the point [p], the south-west shard is
    one file that holds [p] too. *)
Definition example_csvs : gmap string (list string) :=
  <["/out/csv/submap_ne_0001.csv" := ["p"; "q"]]>
    (<["/out/csv/submap_ne_0002.csv" := ["p"; "r"]]>
       (<["/out/csv/map_sw.csv" := ["p"; "s"]]> ∅)).

Definition example_qworld : qworld :=
  QWorld (fun _ => 0%Q) 0 example_csvs ∅ {["/out/quadtrees"]} [].

(** The quadtree folder once the three CSV files are encoded. *)
Definition example_encoded_qworld : qworld :=
  QWorld (fun _ => 0%Q) 0 example_csvs
    (<["/out/quadtrees/submap_ne/submap_ne_0001" := ["p"; "q"]]>
       (<["/out/quadtrees/submap_ne/submap_ne_0002" := ["p"; "r"]]>
          (<["/out/quadtrees/map_sw" := ["p"; "s"]]> ∅)))
    {["/out/quadtrees"; "/out/quadtrees/submap_ne"]} [].

(** The number of times a point occurs in a list of points. *)
Definition occurrences (p : string) (points : list string) : nat :=
  length (List.filter (fun q => bool_decide (q = p)) points).

(** ** The remote inventory: [get_current_objects] *)

(** [s.lstrip(c)] and [s.strip(c)] for a single character [c]. *)
Fixpoint str_lstrip (c : ascii) (s : string) : string :=
  match s with
  | String a s' => if decide (a = c) then str_lstrip c s' else s
  | EmptyString => EmptyString
  end.

Definition str_strip (c : ascii) (s : string) : string :=
  String.rev (str_lstrip c (String.rev (str_lstrip c s))).

(** The double-quote character that wraps an [ETag]. *)
Definition dquote : ascii := ascii_of_nat 34.

(** One entry of [response["Contents"]]. *)
Record metadata : Type := Metadata { Key : string; ETag : string; Size : Z }.

(** A [list_objects_v2] response.  [Contents] and
    [NextContinuationToken] are keys the service leaves out when it has
    nothing to put there. *)
Record response : Type := Response {
  Contents : option (list metadata);
  IsTruncated : bool;
  NextContinuationToken : option string
}.

(** The inventory: object name to [(size, md5)]. *)
Abbreviation inventory := (gmap string (Z * string)).

(** The [for metadata in response["Contents"]] loop. *)
Definition add_objects (bucket_prefix : string) (contents : list metadata)
    (objects : inventory) : inventory :=
  fold_left
    (fun objects metadata =>
       let key := Key metadata in
       if str_endswith ".png" key then
         let name := str_drop (String.length bucket_prefix) key in
         let md5 := str_strip dquote (ETag metadata) in
         let size := Size metadata in
         <[name := (size, md5)]> objects
       else objects)
    contents objects.

Section Inventory.

(** [s3_client().list_objects_v2(Bucket=..., Prefix=..., **next_kwargs)];
    the last argument is the [ContinuationToken], if any. *)
Variable list_objects_v2 : string -> string -> option string -> response.

(** The [while more_to_fetch] loop.  Nothing bounds the number of pages
    a service may hand out, so the loop runs on [fuel]; [None] means
    the fuel ran out before the listing ended. *)
Fixpoint get_current_objects_loop (fuel : nat) (bucket_name bucket_prefix : string)
    (objects : inventory) (next_kwargs : option string) : option (res inventory) :=
  match fuel with
  | O => None
  | S fuel' =>
      let response := list_objects_v2 bucket_name bucket_prefix next_kwargs in
      match Contents response with
      | None => Some (Raise (KeyError "Contents"))
      | Some contents =>
          let objects := add_objects bucket_prefix contents objects in
          let more_to_fetch := IsTruncated response in
          if more_to_fetch then
            match NextContinuationToken response with
            | None => Some (Raise (KeyError "NextContinuationToken"))
            | Some token =>
                get_current_objects_loop fuel' bucket_name bucket_prefix objects (Some token)
            end
          else Some (Ret objects)
      end
  end.

Definition get_current_objects (fuel : nat) (bucket_name bucket_prefix : string)
    : option (res inventory) :=
  get_current_objects_loop fuel bucket_name bucket_prefix ∅ None.

End Inventory.

(** ** The sync planner: [get_sync_actions] *)

(** The local tile directory as [os.scandir] shows it: a file has a
    name and its bytes, a folder has a name and its entries. *)
#[local] Unset Elimination Schemes.
Inductive dir_entry : Type :=
| File (name : string) (content : string)
| Dir (name : string) (entries : list dir_entry).
#[local] Set Elimination Schemes.

(** The [os.DirEntry] of a regular file: [path], and the bytes that
    [stat()] measures and [open(path, "rb").read()] returns. *)
Record png_entry : Type := DirEntry { path : string; content : string }.

(** [png.stat().st_size] *)
Definition st_size (png : png_entry) : Z := Z.of_nat (String.length (content png)).

(** What [get_png_entries] yields for one entry of [os.scandir(top)]. *)
Fixpoint scan_entry (top : string) (entry : dir_entry) : list png_entry :=
  match entry with
  | Dir name entries => flat_map (scan_entry (path_join top name)) entries
  | File name content =>
      if str_endswith ".png" name then [DirEntry (path_join top name) content] else []
  end.

(** [get_png_entries(top)] on a folder with the given entries. *)
Definition get_png_entries (top : string) (entries : list dir_entry) : list png_entry :=
  flat_map (scan_entry top) entries.

(** The [actions] dictionary. *)
Record sync_actions : Type := Actions {
  upload : list string;
  update : list string;
  delete : list string
}.

(** The locals of [get_sync_actions] inside its loop. *)
Record sync_state : Type := SyncState {
  st_upload : list string;
  st_update : list string;
  unchanged_count : Z;
  remaining_objects : gset string
}.

(** [png.path[len(tiles_dir):].lstrip("/")] *)
Definition obj_name_of (tiles_dir : string) (png : png_entry) : string :=
  lstrip_slash (str_drop (String.length tiles_dir) (path png)).

Section SyncActions.

(** [hashlib.md5(data).hexdigest()] *)
Variable md5_hexdigest : string -> string.

(** Reading a file to hash it is the one effect of the planner on its
    surroundings: the world is the list of paths opened so far. *)
Definition read_and_hash (png : png_entry) : M (list string) string :=
  fun opened => (Ret (md5_hexdigest (content png)), opened ++ [path png]).

(** The body of [for png in get_png_entries(tiles_dir)]. *)
Definition sync_step (tiles_dir : string) (objects : inventory)
    (st : sync_state) (png : png_entry) : M (list string) sync_state :=
  let obj_name := obj_name_of tiles_dir png in
  if decide (obj_name ∈ remaining_objects st) then
    let remaining := remaining_objects st ∖ {[obj_name]} in
    match objects !! obj_name with
    | None => raise (KeyError obj_name)
    | Some (obj_size, obj_md5) =>
        let local_size := st_size png in
        changed <-
          (if decide (local_size = obj_size) then
             local_md5 <- read_and_hash png ;;
             if decide (local_md5 = obj_md5) then ret false else ret true
           else ret true) ;;
        if (changed : bool) then
          ret (SyncState (st_upload st) (st_update st ++ [obj_name])
                 (unchanged_count st) remaining)
        else
          ret (SyncState (st_upload st) (st_update st)
                 (unchanged_count st + 1) remaining)
    end
  else
    ret (SyncState (st_upload st ++ [obj_name]) (st_update st)
           (unchanged_count st) (remaining_objects st)).

Fixpoint sync_loop (tiles_dir : string) (objects : inventory)
    (pngs : list png_entry) (st : sync_state) : M (list string) sync_state :=
  match pngs with
  | [] => ret st
  | png :: rest =>
      st' <- sync_step tiles_dir objects st png ;;
      sync_loop tiles_dir objects rest st'
  end.

(** [sorted(remaining_objects)] *)
Definition sorted (s : gset string) : list string :=
  merge_sort String.le (elements s).

(** [tiles] are the entries of the folder [tiles_dir]. *)
Definition get_sync_actions (tiles_dir : string) (tiles : list dir_entry)
    (objects : inventory) : M (list string) (sync_actions * Z) :=
  st <- sync_loop tiles_dir objects (get_png_entries tiles_dir tiles)
          (SyncState [] [] 0 (dom objects)) ;;
  ret (Actions (st_upload st) (st_update st) (sorted (remaining_objects st)),
       unchanged_count st).

(** [get_sync_plan]: fetch the inventory, then plan against it. *)
Definition get_sync_plan
    (list_objects_v2 : string -> string -> option string -> response)
    (fuel : nat) (bucket_name tiles_dir : string) (tiles : list dir_entry)
    (bucket_prefix : string) : option (M (list string) (sync_actions * Z)) :=
  match get_current_objects list_objects_v2 fuel bucket_name bucket_prefix with
  | None => None
  | Some (Raise e) => Some (raise e)
  | Some (Ret objects) => Some (get_sync_actions tiles_dir tiles objects)
  end.

End SyncActions.

(** *** The classification in the words of the specification

    A local file not in the inventory is an upload; one whose size
    differs from the remote size is an update; one of equal size whose
    hash differs is an update; any other is unchanged. *)
Inductive verdict : Type := Upload | Update | Unchanged.

Global Instance verdict_eq_dec : EqDecision verdict.
Proof. solve_decision. Defined.

Definition classify (md5_hexdigest : string -> string) (tiles_dir : string)
    (objects : inventory) (png : png_entry) : verdict :=
  match objects !! obj_name_of tiles_dir png with
  | None => Upload
  | Some (obj_size, obj_md5) =>
      if decide (st_size png = obj_size) then
        if decide (md5_hexdigest (content png) = obj_md5) then Unchanged else Update
      else Update
  end.

(** The object names of the entries with a given verdict, in walk order. *)
Definition names_with (v : verdict) (md5_hexdigest : string -> string)
    (tiles_dir : string) (objects : inventory) (pngs : list png_entry) : list string :=
  map (obj_name_of tiles_dir)
    (filter (fun png => classify md5_hexdigest tiles_dir objects png = v) pngs).

(** The entries whose size equals the remote size: the ones that have
    to be read and hashed. *)
Definition same_size (tiles_dir : string) (objects : inventory) (png : png_entry) : bool :=
  match objects !! obj_name_of tiles_dir png with
  | Some (obj_size, _) => bool_decide (st_size png = obj_size)
  | None => false
  end.

(** Two local files agree for the planner when they have the same path
    and size and, if that size is the remote one, the same hash. *)
Definition agree (md5 md5' : string -> string) (tiles_dir : string)
    (objects : inventory) (p1 p2 : png_entry) : Prop :=
  path p1 = path p2 /\ st_size p1 = st_size p2 /\
  (same_size tiles_dir objects p1 = true -> md5 (content p1) = md5' (content p2)).

(** Two local files differ at most in bytes that the size check makes
    irrelevant: same path, same size, and the same bytes unless the
    size differs from that of the same-named remote object. *)
Definition same_but_resized (tiles_dir : string) (objects : inventory)
    (p1 p2 : png_entry) : Prop :=
  path p1 = path p2 /\ st_size p1 = st_size p2 /\
  (content p1 = content p2 \/
   exists obj_size obj_md5,
     objects !! obj_name_of tiles_dir p1 = Some (obj_size, obj_md5) /\
     st_size p1 <> obj_size).

(** A small tile folder and an inventory to plan against, with a
    stand-in for the hash function. *)
Definition example_md5 (data : string) : string :=
  if decide (data = "AAAAAAAAAA") then "h1" else "h3".

Definition example_tiles : list dir_entry :=
  [Dir "0" [Dir "0" [File "0.png" "AAAAAAAAAA"; File "notes.txt" "q"]];
   Dir "1" [Dir "1" [File "0.png" "CCCCC"]; Dir "0" [File "0.png" "CCCCC"]]].

Definition example_inventory : inventory :=
  <["0/0/0.png" := (10, "h1")]>
    (<["1/0/1.png" := (20, "h2")]> (<["1/0/0.png" := (7, "h3")]> ∅)).

(** The inventory a fully successful sync of [example_tiles] leaves. *)
Definition example_synced_inventory : inventory :=
  <["0/0/0.png" := (10, "h1")]>
    (<["1/1/0.png" := (5, "h3")]> (<["1/0/0.png" := (5, "h3")]> ∅)).

(** [example_tiles] with other bytes, of the same length, in the file
    whose size differs from the remote one. *)
Definition example_tiles_other_bytes : list dir_entry :=
  [Dir "0" [Dir "0" [File "0.png" "AAAAAAAAAA"; File "notes.txt" "q"]];
   Dir "1" [Dir "1" [File "0.png" "CCCCC"]; Dir "0" [File "0.png" "DDDDD"]]].

(** ** The orchestrator: [generate] *)

(** A value of the run summary: a count or a duration in seconds. *)
Inductive value : Type :=
| VInt (n : Z)
| VSeconds (q : Q).

(** [v == 0] for an entry looked up in the summary. *)
Definition value_is_zero (v : option value) : bool :=
  match v with
  | Some (VInt n) => bool_decide (n = 0)
  | Some (VSeconds q) => Qeq_bool q 0
  | None => false
  end.

(** The [result] dictionary. *)
Abbreviation summary := (gmap string value).

(** What [generate] calls: the host's clock and folders, and the stages
    of the pipeline.  A pool is stood for by its number of processes. *)
Record stages (W : Type) : Type := Stages {
  st_default_timer : M W Q;
  st_round3 : Q -> Q;
  st_isdir : string -> M W bool;
  st_makedirs : string -> M W unit;
  st_mkdir : string -> M W unit;
  st_rmtree : string -> M W unit;
  st_abspath : string -> string;
  st_export_to_csvs : nat -> string -> M W (Z * Z);
  st_csv_to_quadtrees : nat -> string -> string -> M W (Z * Z * Z);
  st_merge_quadtrees : string -> string -> M W unit;
  st_render_tiles : nat -> string -> string -> Z -> M W Z;
  st_get_sync_plan : string -> string -> M W (sync_actions * Z);
  st_sync_tiles : nat -> sync_actions -> string -> string -> Z -> M W (gmap string Z);
  st_upload_status_file : string -> summary -> M W unit
}.
Arguments st_default_timer {W} _.
Arguments st_round3 {W} _.
Arguments st_isdir {W} _.
Arguments st_makedirs {W} _.
Arguments st_mkdir {W} _.
Arguments st_rmtree {W} _.
Arguments st_abspath {W} _.
Arguments st_export_to_csvs {W} _.
Arguments st_csv_to_quadtrees {W} _.
Arguments st_merge_quadtrees {W} _.
Arguments st_render_tiles {W} _.
Arguments st_get_sync_plan {W} _.
Arguments st_sync_tiles {W} _.
Arguments st_upload_status_file {W} _.

Section Generate.

Context {W : Type}.
Variable host : stages W.

(** [with Timer() as t: body], giving the body's value and
    [t.duration_s]; [__exit__] reads the clock on every way out. *)
Definition timed {A} (body : M W A) : M W (A * Q) :=
  start <- st_default_timer host ;;
  a <- try_except body (fun e => st_default_timer host ;;; raise e) ;;
  end_ <- st_default_timer host ;;
  ret (a, st_round3 host (end_ - start)%Q).

(** [if not os.path.isdir(d): make(d)] *)
Definition ensure_dir (make : string -> M W unit) (d : string) : M W unit :=
  exists_ <- st_isdir host d ;;
  if (exists_ : bool) then ret tt else make d.

(** [if os.path.isdir(d): shutil.rmtree(d)] *)
Definition clear_dir (d : string) : M W unit :=
  exists_ <- st_isdir host d ;;
  if (exists_ : bool) then st_rmtree host d else ret tt.

(** The export stage at the head of the [if create:] block, up to the
    point where [result] holds its three export entries. *)
Definition export_stage (csv_dir : string) (concurrency : nat) (result : summary)
    : M W summary :=
  ensure_dir (st_mkdir host) csv_dir ;;;
  timed_export <- timed (st_export_to_csvs host concurrency csv_dir) ;;
  let '((row_count, csv_count), export_duration_s) := timed_export in
  let result := <["export_duration_s" := VSeconds export_duration_s]> result in
  let result := <["row_count" := VInt row_count]> result in
  let result := <["csv_count" := VInt csv_count]> result in
  ret result.

(** The rest of the [if create:] block. *)
Definition build_stages (csv_dir quadtree_dir shapes_dir tiles_dir : string)
    (concurrency : nat) (max_zoom : Z) (result : summary) : M W summary :=
  clear_dir quadtree_dir ;;;
  st_mkdir host quadtree_dir ;;;
  timed_quad <- timed (st_csv_to_quadtrees host concurrency csv_dir quadtree_dir) ;;
  let '((csv_converted, intermediate, final), quadtree_duration_s) := timed_quad in
  let result := <["quadtree_duration_s" := VSeconds quadtree_duration_s]> result in
  let result := <["csv_converted_count" := VInt csv_converted]> result in
  let result := <["intermediate_quadtree_count" := VInt intermediate]> result in
  let result := <["quadtree_count" := VInt final]> result in
  clear_dir shapes_dir ;;;
  timed_merge <- timed (st_merge_quadtrees host quadtree_dir shapes_dir) ;;
  let result := <["merge_duration_s" := VSeconds (snd timed_merge)]> result in
  timed_render <- timed (st_render_tiles host concurrency shapes_dir tiles_dir max_zoom) ;;
  let '(tile_count, render_duration_s) := timed_render in
  let result := <["tile_count" := VInt tile_count]> result in
  let result := <["render_duration_s" := VSeconds render_duration_s]> result in
  ret result.

(** The [if upload:] block. *)
Definition upload_stage (bucket_name tiles_dir : string)
    (concurrency : nat) (max_zoom : Z) (result : summary) : M W summary :=
  planned <- st_get_sync_plan host bucket_name tiles_dir ;;
  let '(plan, unchanged_count) := planned in
  timed_sync <- timed (st_sync_tiles host (concurrency * 2) plan bucket_name tiles_dir max_zoom) ;;
  let '(sync_counts, sync_duration_s) := timed_sync in
  let result := <["sync_duration_s" := VSeconds sync_duration_s]> result in
  let result := <["tiles_unchanged" := VInt unchanged_count]> result in
  let result := (VInt <$> sync_counts) ∪ result in
  st_upload_status_file host bucket_name result ;;;
  ret result.

Definition generate (output_dir bucket_name : string) (create upload : bool)
    (concurrency : nat) (max_zoom : Z) : M W summary :=
  let result : summary := ∅ in
  ensure_dir (st_makedirs host) output_dir ;;;
  let csv_dir := path_join output_dir "csv" in
  let quadtree_dir := path_join output_dir "quadtrees" in
  let shapes_dir := path_join output_dir "shapes" in
  let tiles_dir := st_abspath host (path_join output_dir "tiles") in
  let upload_or_return (result : summary) : M W summary :=
    if upload then upload_stage bucket_name tiles_dir concurrency max_zoom result
    else ret result in
  if create then
    result <- export_stage csv_dir concurrency result ;;
    if value_is_zero (result !! "row_count") then
      ret result
    else
      result <- build_stages csv_dir quadtree_dir shapes_dir tiles_dir
                  concurrency max_zoom result ;;
      upload_or_return result
  else upload_or_return result.

End Generate.

(** A computation leaves a part of the world alone. *)
Definition preserves {W A V} (part : W -> V) (m : M W A) : Prop :=
  forall w, part (snd (m w)) = part w.

(** A host whose world is the remote store (a list of the requests it
    received) next to the list of the local stages that ran, in order.
    The folders exist, the clock stands still, the export returns
    [exported] and listing the remote store ends as [planned]. *)
Definition note {A} (stage : string) (a : res A) : M (list string * list string) A :=
  fun w => (a, (fst w, snd w ++ [stage])).

Definition request {A} (call : string) (a : res A) : M (list string * list string) A :=
  fun w => (a, (fst w ++ [call], snd w)).

Definition logging_host (exported : Z * Z) (planned : res (sync_actions * Z))
    : stages (list string * list string) :=
  {| st_default_timer := ret 0%Q;
     st_round3 := fun q => q;
     st_isdir := fun _ => ret true;
     st_makedirs := fun _ => note "makedirs" (Ret tt);
     st_mkdir := fun _ => note "mkdir" (Ret tt);
     st_rmtree := fun _ => note "rmtree" (Ret tt);
     st_abspath := fun p => p;
     st_export_to_csvs := fun _ _ => note "export_to_csvs" (Ret exported);
     st_csv_to_quadtrees := fun _ _ _ => note "csv_to_quadtrees" (Ret (1, 0, 1));
     st_merge_quadtrees := fun _ _ => note "merge_quadtrees" (Ret tt);
     st_render_tiles := fun _ _ _ _ => note "render_tiles" (Ret 1);
     st_get_sync_plan := fun _ _ => request "list_objects_v2" planned;
     st_sync_tiles := fun _ _ _ _ _ => request "upload_file" (Ret ∅);
     st_upload_status_file := fun _ _ => request "put_object" (Ret tt) |}.

(** A remote store whose listing has nothing under the prefix: the
    response carries no [Contents]. *)
Definition empty_listing (bucket_name bucket_prefix : string)
    (token : option string) : response :=
  Response None false None.

(** ** Further definitions for the properties of Part II *)

(** The [done_count] of each progress report in a log, in order. *)
Definition progress_counts (l : list event) : list nat :=
  flat_map (fun ev => match ev with EvProgress d _ => [d] | _ => [] end) l.

(** A progress report carries the fraction [done / total]. *)
Definition progress_fraction_ok (total : nat) (ev : event) : Prop :=
  match ev with
  | EvProgress d f => f = (inject_Z (Z.of_nat d) / inject_Z (Z.of_nat total))%Q
  | _ => True
  end.

(** A success callback that records its call and then raises. *)
Definition rec_success_then_raise (e : exn) : nat -> M world unit :=
  fun r => emit (EvSuccess r) ;;; raise e.

(** The number of pages read once the rows exported so far, the page
    included, have reached the limit. *)
Fixpoint pages_over (file_limit result_rows : Z) (page_sizes : list Z) : Z :=
  match page_sizes with
  | [] => 0
  | n :: later =>
      (if decide (result_rows + n >= file_limit) then 1 else 0)
      + pages_over file_limit (result_rows + n) later
  end.

(** The lines of the pages that [export_loop] gets to see, in order. *)
Fixpoint fetched_lines {coord : Type}
    (decode_datamap_grid : string -> coord * coord)
    (random_points : coord -> coord -> Z -> list string)
    (pages : list (list row)) : list string :=
  match pages with
  | [] => []
  | [] :: _ => []
  | rows :: later =>
      page_lines decode_datamap_grid random_points rows
      ++ fetched_lines decode_datamap_grid random_points later
  end.

(** A table of three rows read two rows at a time; the row with
    [num = n] gives [n] lines. *)
Definition small_session (row_limit : Z) : list (list row) :=
  [[Row "a" 2; Row "b" 0]; [Row "c" 1]].

Definition num_points (lat lon num : Z) : list string :=
  repeat "0.0,0.0" (Z.to_nat num).

(** A listing that ends after a chain of pages: each page but the last
    is truncated and names the token under which the next one is
    found. *)
Inductive listing_chain
    (list_objects_v2 : string -> string -> option string -> response)
    (bucket_name bucket_prefix : string)
    : option string -> list (list metadata) -> Prop :=
| chain_last token contents :
    Contents (list_objects_v2 bucket_name bucket_prefix token) = Some contents ->
    IsTruncated (list_objects_v2 bucket_name bucket_prefix token) = false ->
    listing_chain list_objects_v2 bucket_name bucket_prefix token [contents]
| chain_more token contents next later :
    Contents (list_objects_v2 bucket_name bucket_prefix token) = Some contents ->
    IsTruncated (list_objects_v2 bucket_name bucket_prefix token) = true ->
    NextContinuationToken (list_objects_v2 bucket_name bucket_prefix token) = Some next ->
    listing_chain list_objects_v2 bucket_name bucket_prefix (Some next) later ->
    listing_chain list_objects_v2 bucket_name bucket_prefix token (contents :: later).

(** The inventory of several pages, taken in order. *)
Definition add_pages (bucket_prefix : string) (pages : list (list metadata))
    (objects : inventory) : inventory :=
  fold_left (fun objects contents => add_objects bucket_prefix contents objects)
    pages objects.

(** A listing of two pages: a tile and the status file, then a tile. *)
Definition example_listing (bucket_name bucket_prefix : string)
    (token : option string) : response :=
  match token with
  | None =>
      Response
        (Some [Metadata "tiles/0/0/0.png" (String dquote ("abc" +:+ String dquote "")) 10;
               Metadata "tiles/data.json" "x" 3])
        true (Some "page2")
  | Some _ => Response (Some [Metadata "tiles/1/0/0.png" "def" 5]) false None
  end.

(** A name of one path component: not empty and without slash. *)
Definition simple_name (s : string) : bool :=
  negb (bool_decide (s = EmptyString)) && no_slash s.

(** Every file and folder of a tree has a simple name. *)
Fixpoint simple_names (entry : dir_entry) : bool :=
  match entry with
  | File name _ => simple_name name
  | Dir name entries => simple_name name && forallb simple_names entries
  end.

(** The names of the [.png] files of a tree relative to its root, the
    components joined by slashes; [rel] is the way down so far, empty
    or ending in a slash. *)
Fixpoint relative_names (rel : string) (entry : dir_entry) : list string :=
  match entry with
  | File name _ => if str_endswith ".png" name then [rel +:+ name] else []
  | Dir name entries => flat_map (relative_names (rel +:+ name +:+ "/")) entries
  end.

(** ** Carrying out the plan: [sync_tiles] *)

(** [chunked(iterable, n)] of [more_itertools]: the list cut in pieces
    of [n] items, the last piece shorter when the length is no
    multiple of [n]; nothing at all for [n = 0]. *)
Fixpoint chunked_go {A} (fuel n : nat) (l : list A) : list (list A) :=
  match fuel, l with
  | O, _ | _, [] => []
  | S fuel', _ => take n l :: chunked_go fuel' n (drop n l)
  end.

Definition chunked {A} (l : list A) (n : nat) : list (list A) :=
  match n with
  | O => []
  | _ => chunked_go (length l) n l
  end.

(** What [sync_tiles] writes to the logger. *)
Inductive sync_record : Type :=
| LogSyncError (exception : exn)
| LogSynced (count : Z) (percent : Q).

(** The world of one call of [sync_tiles]: the clock, the dictionary
    [result] that the three callbacks share ([nonlocal result]), and
    the records logged. *)
Record sync_world : Type := SyncWorld {
  sync_clock : nat -> Q;
  sync_ticks : nat;
  sync_result : gmap string Z;
  sync_log : list sync_record
}.

Definition sync_timer : M sync_world Q :=
  fun w => (Ret (sync_clock w (sync_ticks w)),
            SyncWorld (sync_clock w) (S (sync_ticks w)) (sync_result w) (sync_log w)).

Definition sync_emit (record : sync_record) : M sync_world unit :=
  fun w => (Ret tt,
            SyncWorld (sync_clock w) (sync_ticks w) (sync_result w) (sync_log w ++ [record])).

Definition set_result (result : gmap string Z) : M sync_world unit :=
  fun w => (Ret tt, SyncWorld (sync_clock w) (sync_ticks w) result (sync_log w)).

Definition get_result : M sync_world (gmap string Z) :=
  fun w => (Ret (sync_result w), w).

(** [result[key] += count] *)
Definition result_add (key : string) (count : Z) : M sync_world unit :=
  result <- get_result ;;
  match result !! key with
  | Some value => set_result (<[key := value + count]> result)
  | None => raise (KeyError key)
  end.

(** [sum(result.values())] *)
Definition sum_values (result : gmap string Z) : Z :=
  map_fold (fun _ value acc => value + acc) 0 result.

Section SyncTiles.

(** The remote store as the worker processes meet it:
    [s3_client().upload_file(Filename, Bucket, Key, ExtraArgs)] returns
    or raises, [s3_client().delete_objects(Bucket, Delete)] returns the
    list under [Errors] of its response (empty when there is none) or
    raises.  The jobs run in worker processes: they do not share the
    dictionary [result] with the callbacks. *)
Variable s3_upload_file : string -> string -> string -> res unit.
Variable s3_delete_objects : string -> list string -> res (list string).

(** [str(resp['Errors'])] *)
Variable str_errors : list string -> string.

(** What Python raises on a division by zero. *)
Variable ZeroDivisionError : exn.

Definition worker {A} (outcome : res A) : M sync_world A := fun w => (outcome, w).

Definition send_file (path bucket_name bucket_prefix tiles_dir : string)
    : M sync_world unit :=
  worker (s3_upload_file (path_join tiles_dir path) bucket_name (bucket_prefix +:+ path)).

Definition upload_file (path bucket_name bucket_prefix tiles_dir : string)
    : M sync_world (string * Z) :=
  send_file path bucket_name bucket_prefix tiles_dir ;;;
  ret ("tile_new", 1).

Definition update_file (path bucket_name bucket_prefix tiles_dir : string)
    : M sync_world (string * Z) :=
  send_file path bucket_name bucket_prefix tiles_dir ;;;
  ret ("tile_changed", 1).

Definition delete_files (paths : list string) (bucket_name bucket_prefix : string)
    : M sync_world (string * Z) :=
  let delete_request := map (fun path => bucket_prefix +:+ path) paths in
  errors <- worker (s3_delete_objects bucket_name delete_request) ;;
  match errors with
  | _ :: _ => raise (RuntimeError ("Error deleting: " +:+ str_errors errors))
  | [] => ret ("tile_deleted", len paths)
  end.

(** The three callbacks of [sync_tiles]. *)
Definition sync_on_success (job_result : string * Z) : M sync_world unit :=
  let '(tile_result, count) := job_result in
  result_add tile_result count.

Definition sync_on_error (exception : exn) : M sync_world unit :=
  sync_emit (LogSyncError exception) ;;;
  result_add "tile_failed" 1.

Definition sync_on_progress (total : Z) (jobs_complete : nat) (job_total : Q)
    : M sync_world unit :=
  result <- get_result ;;
  let count := sum_values result in
  if decide (total = 0) then raise ZeroDivisionError
  else
    let percent := (inject_Z count / inject_Z total)%Q in
    sync_emit (LogSynced count percent).

(** [pool.apply_async(f, args)] gives the job whose [get()] returns
    what the call of [f] on [args] returns, or raises what it raises.  The arguments
    [max_zoom] and [raven_client] of [sync_tiles] are not used by its
    body; [watch_jobs] is called without a [raven_client]. *)
Definition sync_tiles (plan : sync_actions)
    (bucket_name tiles_dir bucket_prefix : string) (delete_batch_size : nat)
    : M sync_world (gmap string Z) :=
  set_result {[ "tile_new" := 0; "tile_changed" := 0;
                "tile_deleted" := 0; "tile_failed" := 0 ]} ;;;
  let jobs :=
    map (fun path => upload_file path bucket_name bucket_prefix tiles_dir) (upload plan) in
  let jobs := jobs ++
    map (fun path => update_file path bucket_name bucket_prefix tiles_dir) (update plan) in
  let total := len (upload plan) + len (update plan) in
  let batches := chunked (delete plan) delete_batch_size in
  let total := foldl (fun total paths => total + len paths) total batches in
  let jobs := jobs ++
    map (fun paths => delete_files paths bucket_name bucket_prefix) batches in
  watch_jobs sync_timer jobs (Some sync_on_success) (Some sync_on_error)
    (Some (sync_on_progress total)) None default_progress_seconds ;;;
  get_result.

(** Whether the store takes the file of a path, and whether it deletes
    a batch of paths without error. *)
Definition sent (bucket_name tiles_dir bucket_prefix path : string) : bool :=
  match s3_upload_file (path_join tiles_dir path) bucket_name (bucket_prefix +:+ path) with
  | Ret _ => true
  | Raise _ => false
  end.

Definition deleted (bucket_name bucket_prefix : string) (paths : list string) : bool :=
  match s3_delete_objects bucket_name (map (fun path => bucket_prefix +:+ path) paths) with
  | Ret [] => true
  | _ => false
  end.

End SyncTiles.

(** The default of [bucket_prefix] and of [delete_batch_size]. *)
Definition default_bucket_prefix : string := "tiles/".
Definition default_delete_batch_size : nat := 100.

(** *** Bookkeeping of [sync_tiles] *)

(** The four counters of [result]. *)
Definition tallied (result : gmap string Z) (new changed deleted failed : Z) : Prop :=
  result !! "tile_new" = Some new /\
  result !! "tile_changed" = Some changed /\
  result !! "tile_deleted" = Some deleted /\
  result !! "tile_failed" = Some failed.

(** How a sync job may end: it returns one of the three counters it
    may add to, or raises an [Exception]. *)
Definition sync_outcome_ok (o : res (string * Z)) : Prop :=
  match o with
  | Ret (key, _) => key = "tile_new" \/ key = "tile_changed" \/ key = "tile_deleted"
  | Raise e => is_Exception e = true
  end.

(** What the jobs that return add to counter [key], and how many jobs raise. *)
Fixpoint gained (key : string) (os : list (res (string * Z))) : Z :=
  match os with
  | [] => 0
  | Ret (k, c) :: os' => (if decide (k = key) then c else 0) + gained key os'
  | Raise _ :: os' => gained key os'
  end.

Fixpoint raised (os : list (res (string * Z))) : Z :=
  match os with
  | [] => 0
  | Ret _ :: os' => raised os'
  | Raise _ :: os' => 1 + raised os'
  end.

(** A store that refuses the file [refused] and every deletion that
    names [stuck], and takes everything else. *)
Definition picky_upload (refused : string) (filename bucket key : string) : res unit :=
  if decide (key = refused) then Raise (JobException 0) else Ret tt.

Definition picky_delete (stuck : string) (bucket : string) (keys : list string)
    : res (list string) :=
  if decide (stuck ∈ keys) then Ret ["AccessDenied"] else Ret [].

(** A store that takes everything. *)
Definition willing_upload (filename bucket key : string) : res unit := Ret tt.
Definition willing_delete (bucket : string) (keys : list string) : res (list string) := Ret [].

Definition sync_world0 (c : nat -> Q) : sync_world := SyncWorld c 0 ∅ [].

(** A plan with two uploads, one update and five deletions. *)
Definition example_plan : sync_actions :=
  Actions ["1/0/0.png"; "1/0/1.png"] ["0/0/0.png"]
          ["2/0/0.png"; "2/0/1.png"; "2/0/2.png"; "2/0/3.png"; "2/1/0.png"].

(** How the job of one path and the job of one batch of deletions end. *)
Definition send_outcome (s3_upload_file : string -> string -> string -> res unit)
    (bucket_name tiles_dir bucket_prefix tile_result path : string)
    : res (string * Z) :=
  match s3_upload_file (path_join tiles_dir path) bucket_name (bucket_prefix +:+ path) with
  | Ret _ => Ret (tile_result, 1)
  | Raise e => Raise e
  end.

Definition delete_outcome (s3_delete_objects : string -> list string -> res (list string))
    (str_errors : list string -> string)
    (bucket_name bucket_prefix : string) (paths : list string) : res (string * Z) :=
  match s3_delete_objects bucket_name (map (fun path => bucket_prefix +:+ path) paths) with
  | Ret [] => Ret ("tile_deleted", len paths)
  | Ret (error :: errors) =>
      Raise (RuntimeError ("Error deleting: " +:+ str_errors (error :: errors)))
  | Raise e => Raise e
  end.

(** ** The command-line entry point: [main] *)

(** What [parser.parse_args] returns. *)
Record args : Type := Args {
  args_create : bool;
  args_upload : bool;
  args_concurrency : nat;
  args_verbose : bool;
  args_output : option string
}.

(** The truth value of an optional string: [None] and the empty string
    are falsy. *)
Definition truthy (s : option string) : bool :=
  match s with
  | Some (String _ _) => true
  | _ => false
  end.

(** What [main] makes happen. *)
Inductive main_event : Type :=
| MConfigureLogging (verbose : bool)
| MConfigureRaven
| MLogError (msg : string)
| MPrintHelp
| MSettings (name : string)
| MCheckBucket (bucket_name : string)
| MGenerate (output_dir : string) (bucket_name : option string)
            (create upload : bool) (concurrency : nat)
| MTempdirExit (temp_dir : string)
| MCaptureException
| MFinalLog (task complete : string) (success : bool) (duration_s : Q)
            (create upload : bool) (concurrency : nat)
            (bucket_name : option string) (result : summary).

(** The surroundings of [main]: the file system, the settings, the
    clock, and how [check_bucket] and [generate] end. *)
Record environment : Type := Environment {
  env_abspath : string -> string;
  env_isdir : string -> bool;
  env_asset_bucket : option string;
  env_check_bucket : string -> res (bool * string);
  env_temp_dir : string;
  env_generate : string -> option string -> bool -> bool -> nat -> res summary;
  env_clock : nat -> Q;
  env_round3 : Q -> Q
}.

(** The world of [main]: the number of clock readings and the events so far. *)
Abbreviation main_world := (nat * list main_event)%type.

Definition main_emit (ev : main_event) : M main_world unit :=
  fun w => (Ret tt, (fst w, snd w ++ [ev])).

Section Main.

Variable env : environment.

Definition main_timer : M main_world Q :=
  fun w => (Ret (env_clock env (fst w)), (S (fst w), snd w)).

Definition LOG_error (msg : string) : M main_world unit := main_emit (MLogError msg).

(** The call of [generate], recorded with its arguments. *)
Definition call_generate (output_dir : string) (bucket_name : option string)
    (create upload : bool) (concurrency : nat) : M main_world summary :=
  main_emit (MGenerate output_dir bucket_name create upload concurrency) ;;;
  (fun w => (env_generate env output_dir bucket_name create upload concurrency, w)).

(** [with util.selfdestruct_tempdir() as temp_dir: body] *)
Definition selfdestruct_tempdir {A} (body : string -> M main_world A) : M main_world A :=
  let temp_dir := env_temp_dir env in
  try_finally (body temp_dir) (main_emit (MTempdirExit temp_dir)).

(** The [try] statement of [main] up to its [finally] clause: the
    locals [success], [interrupted] and [result] as the clauses leave
    them, the duration of the timer, and the exception that is still
    to be raised after the [finally] clause, if any. *)
Definition attempt (output_dir : option string) (bucket_name : option string)
    (create upload : bool) (concurrency : nat)
    : M main_world (bool * bool * summary * Q * option exn) :=
  start <- main_timer ;;
  let body :=
    match output_dir with
    | Some output_dir => call_generate output_dir bucket_name create upload concurrency
    | None =>
        selfdestruct_tempdir (fun temp_dir =>
          call_generate temp_dir bucket_name create upload concurrency)
    end in
  fun w =>
    let '(outcome, w) := body w in
    let '(end_, w) :=
      match main_timer w with
      | (Ret end_, w) => (end_, w)
      | (Raise _, w) => (0%Q, w)
      end in
    let duration_s := env_round3 env (end_ - start)%Q in
    match outcome with
    | Ret result => (Ret (true, false, result, duration_s, None), w)
    | Raise KeyboardInterrupt => (Ret (false, true, ∅, duration_s, None), w)
    | Raise e =>
        if is_Exception e then
          (main_emit MCaptureException ;;;
           ret (false, false, (∅ : summary), duration_s, Some e)) w
        else (Ret (true, false, ∅, duration_s, Some e), w)
    end.

(** The [finally] clause. *)
Definition final_log_line (create upload : bool) (concurrency : nat)
    (bucket_name : option string)
    (locals : bool * bool * summary * Q * option exn) : M main_world unit :=
  let '(success, interrupted, result, duration_s, _) := locals in
  let task :=
    if create && upload then "generation and upload"
    else if create then "generation"
    else "upload" in
  let complete :=
    if (interrupted : bool) then "interrupted"
    else if (success : bool) then "complete"
    else "failed" in
  main_emit (MFinalLog task complete success duration_s create upload
               concurrency bucket_name result).

(** [main] from the parsed arguments on; [_bucket_name] is the
    override of the bucket name. *)
Definition main (a : args) (_bucket_name : option string) : M main_world Z :=
  let create := args_create a in
  let upload := args_upload a in
  let concurrency := args_concurrency a in
  let verbose := args_verbose a in
  main_emit (MConfigureLogging verbose) ;;;
  main_emit MConfigureRaven ;;;
  checked <-
    (if truthy (args_output a) then
       let output_dir := env_abspath env (default "" (args_output a)) in
       let tiles_dir := path_join output_dir "tiles" in
       if negb create && negb (env_isdir env tiles_dir) then
         LOG_error "The tiles subfolder of the --output directory should already exist when calling --upload without --create, to avoid deleting files from the S3 bucket." ;;;
         ret (1, Some output_dir)
       else ret (0, Some output_dir)
     else
       exit_early <-
         (if create && negb upload then
            LOG_error "The --output argument is required with --create but without --upload, since the temporary folder is removed at exit." ;;;
            ret 1
          else ret 0) ;;
       exit_early <-
         (if upload && negb create then
            LOG_error "The --output argument is required with --upload but without --create, to avoid deleting all tiles in the S3 bucket." ;;;
            ret 1
          else ret exit_early) ;;
       ret (exit_early, None)) ;;
  let '(exit_early, output_dir) := (checked : Z * option string) in
  if negb (bool_decide (exit_early = 0)) || negb (create || upload) then
    main_emit MPrintHelp ;;;
    ret exit_early
  else
    bucket_name <-
      (if truthy _bucket_name then ret _bucket_name
       else
         main_emit (MSettings "asset_bucket") ;;;
         let bucket_name := env_asset_bucket env in
         if truthy bucket_name then ret (str_strip "/" <$> bucket_name)
         else ret bucket_name) ;;
    let run :=
      locals <- attempt output_dir bucket_name create upload concurrency ;;
      final_log_line create upload concurrency bucket_name locals ;;;
      match locals with
      | (_, _, _, _, Some e) => raise e
      | _ => ret 0
      end in
    if upload then
      if negb (truthy bucket_name) then
        LOG_error "Unable to determine upload bucket_name." ;;;
        ret 1
      else
        main_emit (MCheckBucket (default "" bucket_name)) ;;;
        checked <- (fun w => (env_check_bucket env (default "" bucket_name), w)) ;;
        let '(works, fail_msg) := (checked : bool * string) in
        if negb works then
          LOG_error ("Bucket " +:+ default "" bucket_name
                     +:+ " can not be used for uploads: " +:+ fail_msg) ;;;
          ret 1
        else run
    else run.

End Main.

Definition is_generate (ev : main_event) : bool :=
  match ev with MGenerate _ _ _ _ _ => true | _ => false end.

Definition is_final_log (ev : main_event) : bool :=
  match ev with MFinalLog _ _ _ _ _ _ _ _ _ => true | _ => false end.

Definition is_capture_exception (ev : main_event) : bool :=
  match ev with MCaptureException => true | _ => false end.

Definition is_check_bucket (ev : main_event) : bool :=
  match ev with MCheckBucket _ => true | _ => false end.

(** The final log line says [complete], with this value of [success]. *)
Definition final_log_says (complete : string) (success : bool) (ev : main_event) : bool :=
  match ev with
  | MFinalLog _ c s _ _ _ _ _ _ =>
      bool_decide (c = complete) && bool_decide (s = success)
  | _ => false
  end.

Definition count_events (p : main_event -> bool) (l : list main_event) : nat :=
  length (List.filter p l).

Definition is_tempdir_exit (ev : main_event) : bool :=
  match ev with MTempdirExit _ => true | _ => false end.

(** An environment in which every folder exists, the bucket is usable
    and [generate] ends as [outcome]. *)
Definition example_environment (outcome : res summary) : environment :=
  {| env_abspath := fun p => p;
     env_isdir := fun _ => true;
     env_asset_bucket := Some "assets/";
     env_check_bucket := fun _ => Ret (true, "");
     env_temp_dir := "/tmp/datamap";
     env_generate := fun _ _ _ _ _ => outcome;
     env_clock := fun n => inject_Z (Z.of_nat n);
     env_round3 := fun q => q |}.

(** [datamap.py --create --upload --output /out] on four processes. *)
Definition example_args : args := Args true true 4 false (Some "/out").


(* ===================================================================== *)
(** * Part II: properties                                                 *)
(* ===================================================================== *)

(** ** The executor *)

Lemma no_progress_app l1 l2 :
  no_progress (l1 ++ l2) = no_progress l1 ++ no_progress l2.
Proof. unfold no_progress. apply List.filter_app. Qed.

Lemma count_app p l1 l2 : count p (l1 ++ l2) = (count p l1 + count p l2)%nat.
Proof. unfold count. rewrite List.filter_app. apply length_app. Qed.

(** Counting events that are not progress reports does not see the
    progress reports. *)
Lemma count_no_progress p l :
  (forall ev, p ev = true -> is_progress ev = false) ->
  count p (no_progress l) = count p l.
Proof.
  intros Hp. unfold count, no_progress.
  induction l as [|ev l IH]; [reflexivity|]. simpl.
  destruct (is_progress ev) eqn:Hev; simpl.
  - destruct (p ev) eqn:Hpev; [|exact IH].
    apply Hp in Hpev. congruence.
  - destruct (p ev); simpl; [f_equal|]; exact IH.
Qed.


Section ExecutorFacts.

Variables (sc h rv : bool) (progress_seconds : Q).

Let on_success := supplied sc rec_success.
Let on_error := supplied h rec_error.
Let on_progress := Some rec_progress.
Let raven_client := supplied rv rec_capture.

(** Awaiting one job, case by case. *)
Lemma await_job_of n o w :
  await_job on_success on_error raven_client (job_of n o) w =
  (fst (expected sc h rv n [o]),
   World (clock w) (ticks w) (log w ++ snd (expected sc h rv n [o]))).
Proof.
  subst on_success on_error raven_client.
  destruct w as [c t l].
  destruct o, sc, h, rv;
    cbv [await_job try_except bind job_of emit ret raise rec_success rec_error
         rec_capture supplied is_Exception expected fst snd clock ticks log];
    rewrite <- ?app_assoc; reflexivity.
Qed.

(** One turn of the loop in the observable world. *)
Lemma watch_loop_cons (j : job) rest start total last jc w :
  watch_loop read_clock on_success on_error on_progress raven_client
    progress_seconds start total (j :: rest) last jc w =
  let elapsed := (clock w (ticks w) - start)%Q in
  let ticked := Qltb (last + progress_seconds) elapsed in
  let w1 :=
    if ticked then
      World (clock w) (S (S (ticks w)))
        (log w ++ [EvProgress jc
                     (inject_Z (Z.of_nat jc) / inject_Z (Z.of_nat total))%Q])
    else World (clock w) (S (ticks w)) (log w) in
  let last' := if ticked then (clock w (S (ticks w)) - start)%Q else last in
  match await_job on_success on_error raven_client j w1 with
  | (Ret _, w2) =>
      watch_loop read_clock on_success on_error on_progress raven_client
        progress_seconds start total rest last' (S jc) w2
  | (Raise e, w2) => (Raise e, w2)
  end.
Proof.
  cbn [watch_loop]. subst on_progress.
  cbv [bind Timer_elapsed read_clock ret option_map call rec_progress emit
       clock ticks log].
  destruct w as [c t l]. cbn [clock ticks log].
  destruct (Qltb (last + progress_seconds) (c t - start)); reflexivity.
Qed.

(** The loop leaves in the log what [expected] says, whatever the clock
    does, and ends as [expected] says. *)
Lemma watch_loop_expected os : forall n start total last jc w,
  let '(r, w') :=
    watch_loop read_clock on_success on_error on_progress raven_client
      progress_seconds start total (jobs_from n os) last jc w in
  r = fst (expected sc h rv n os) /\
  no_progress (log w') = no_progress (log w) ++ snd (expected sc h rv n os) /\
  clock w' = clock w.
Proof.
  induction os as [|o os IH]; intros n start total last jc w.
  - cbn. rewrite app_nil_r. auto.
  - cbn [jobs_from]. rewrite watch_loop_cons. cbv zeta.
    rewrite await_job_of.
    set (ticked := Qltb _ _). set (last' := if ticked then _ else last).
    set (w1 := if ticked then _ else _).
    assert (Hw1 : no_progress (log w1) = no_progress (log w) /\ clock w1 = clock w).
    { subst w1. destruct ticked; cbn [log clock]; [|auto].
      rewrite no_progress_app. cbn. rewrite app_nil_r. auto. }
    destruct Hw1 as [Hlog Hclock].
    destruct o.
    + cbn [expected fst].
      specialize (IH (S n) start total last' (S jc)
                    (World (clock w1) (ticks w1)
                       (log w1 ++ snd (expected sc h rv n [Succeeds])))).
      destruct (watch_loop _ _ _ _ _ _ _ _ _ _ _ _) as [r w'].
      cbn [expected snd] in *.
      destruct (expected sc h rv (S n) os) as [r0 l0].
      cbn [fst snd clock log] in *. destruct IH as (-> & -> & ->).
      rewrite no_progress_app, Hlog, app_nil_r.
      repeat split; [|assumption].
      rewrite <- app_assoc. f_equal. destruct sc; reflexivity.
    + destruct h eqn:Hh.
      * cbn [expected fst].
        specialize (IH (S n) start total last' (S jc)
                      (World (clock w1) (ticks w1)
                         (log w1 ++ snd (expected sc true rv n [Fails])))).
        destruct (watch_loop _ _ _ _ _ _ _ _ _ _ _ _) as [r w'].
        cbn [expected snd] in *.
        destruct (expected sc true rv (S n) os) as [r0 l0].
        cbn [fst snd clock log] in *. destruct IH as (-> & -> & ->).
        rewrite no_progress_app, Hlog.
        repeat split; [|assumption].
        rewrite <- app_assoc. f_equal. destruct rv; reflexivity.
      * cbn [expected fst snd clock log].
        rewrite no_progress_app, Hlog.
        repeat split; [|assumption]. f_equal. destruct rv; reflexivity.
    + cbn [expected fst snd clock log].
      rewrite no_progress_app, Hlog. auto.
Qed.

(** The whole executor: the timer around the loop adds clock readings
    and nothing else. *)
Lemma watch_jobs_expected os n w :
  let '(r, w') :=
    watch_jobs read_clock (jobs_from n os) on_success on_error on_progress
      raven_client progress_seconds w in
  r = fst (expected sc h rv n os) /\
  no_progress (log w') = no_progress (log w) ++ snd (expected sc h rv n os).
Proof.
  unfold watch_jobs, with_Timer. unfold bind at 1. cbn [read_clock].
  unfold try_finally.
  pose proof (watch_loop_expected os n (clock w (ticks w))
                (length (jobs_from n os)) 0%Q 0%nat
                (World (clock w) (S (ticks w)) (log w))) as H.
  destruct (watch_loop _ _ _ _ _ _ _ _ _ _ _ _) as [r w'].
  cbn [log clock] in H. destruct H as (-> & Hlog & _).
  cbv [bind read_clock ret]. cbn [log]. auto.
Qed.

End ExecutorFacts.

Section ExecutorQuiet.

Variables (sc h rv : bool) (progress_seconds : Q).

(** Any progress callback, or none. *)
Variable on_progress : option (nat -> Q -> M world unit).

Let on_success := supplied sc rec_success.
Let on_error := supplied h rec_error.
Let raven_client := supplied rv rec_capture.



End ExecutorQuiet.






(** Without [on_progress], a turn of the loop that finds the progress
    interval exceeded raises before it awaits its job. *)
Lemma watch_loop_no_progress_callback {R} (j : job (W:=world) (R:=R)) rest
    on_success on_error raven_client progress_seconds start total last jc w :
  Qltb (last + progress_seconds) (clock w (ticks w) - start) = true ->
  watch_loop read_clock on_success on_error None raven_client
    progress_seconds start total (j :: rest) last jc w =
  (Raise (TypeError "'NoneType' object is not callable"),
   World (clock w) (S (ticks w)) (log w)).
Proof.
  intros Hq. cbn [watch_loop].
  cbv [bind Timer_elapsed read_clock ret option_map call raise].
  rewrite Hq. reflexivity.
Qed.

(** As long as the progress interval is not exceeded, a batch of
    succeeding jobs runs to completion with no callback at all. *)
Lemma watch_loop_no_callbacks_quick progress_seconds start total os :
  forall n jc w,
  Forall (fun o => o = Succeeds) os ->
  (forall t, Qltb (0 + progress_seconds) (clock w t - start) = false) ->
  watch_loop read_clock None None None None progress_seconds start total
    (jobs_from n os) 0%Q jc w =
  (Ret tt,
   World (clock w) (ticks w + length os) (log w ++ map EvGet (seq n (length os)))).
Proof.
  induction os as [|o os IH]; intros n jc w Hos Hclock.
  - cbn. rewrite Nat.add_0_r, app_nil_r. destruct w; reflexivity.
  - inversion Hos as [|? ? -> Hos']; subst.
    cbn [jobs_from watch_loop].
    cbv [bind Timer_elapsed read_clock ret]. rewrite Hclock.
    cbv [await_job try_except bind job_of emit ret clock ticks log].
    rewrite IH by (assumption || exact Hclock).
    cbn [clock ticks log length seq map].
    rewrite <- app_assoc. do 2 f_equal. lia.
Qed.

(** C5. The three callbacks default to [None], and [on_success] and
    [on_error] are indeed skipped when absent, but [on_progress] is
    called without a check.  Two jobs that both succeed, no callback
    supplied, the default interval of 5 seconds, and a first job that
    takes 6 seconds: at the second turn of the loop the progress branch
    is taken and the executor raises [TypeError]; the first job was
    awaited, the second never is. *)
Theorem watch_jobs_on_progress_none_raises :
  watch_jobs read_clock (jobs_from 1 [Succeeds; Succeeds])
    None None None None default_progress_seconds (world0 slow_first_job_clock)
  = (Raise (TypeError "'NoneType' object is not callable"),
     World slow_first_job_clock 4 [EvGet 1]).
Proof. reflexivity. Qed.

(** The part of C5 that holds: with no callback at all, a batch of
    succeeding jobs that never exceeds the progress interval is awaited
    job by job to the end, and the executor returns. *)
Lemma watch_jobs_no_callbacks_quick (c : nat -> Q) progress_seconds os :
  Forall (fun o => o = Succeeds) os ->
  (forall t, Qltb (0 + progress_seconds) (c t - c 0%nat) = false) ->
  watch_jobs read_clock (jobs_from 1 os) None None None None
    progress_seconds (world0 c)
  = (Ret tt, World c (2 + length os) (map EvGet (seq 1 (length os)))).
Proof.
  intros Hos Hc. unfold watch_jobs, with_Timer.
  unfold bind at 1. cbn [read_clock world0 clock ticks log].
  unfold try_finally.
  rewrite watch_loop_no_callbacks_quick by (assumption || exact Hc).
  cbv [bind read_clock ret clock ticks log]. cbn [app]. reflexivity.
Qed.

(** ** Interrupts *)

(** Whatever the callbacks are, an interrupt raised while a job is
    awaited leaves [await_job] at once: the world is the one the job
    left, so neither [on_error] nor the error-tracking client ran. *)
Lemma await_job_interrupt {W R} (j : job (W:=W) (R:=R))
    on_success on_error raven_client w w' :
  j w = (Raise KeyboardInterrupt, w') ->
  await_job on_success on_error raven_client j w = (Raise KeyboardInterrupt, w').
Proof.
  intros Hj. unfold await_job, try_except, bind. rewrite Hj. reflexivity.
Qed.

(** [expected] on a batch split in two. *)
Lemma expected_app sc h rv pre rest : forall n,
  expected sc h rv n (pre ++ rest) =
  match fst (expected sc h rv n pre) with
  | Ret _ =>
      (fst (expected sc h rv (n + length pre) rest),
       snd (expected sc h rv n pre) ++ snd (expected sc h rv (n + length pre) rest))
  | Raise e => expected sc h rv n pre
  end.
Proof.
  induction pre as [|o pre IH]; intros n.
  - cbn. rewrite Nat.add_0_r. destruct (expected sc h rv n rest); reflexivity.
  - cbn [app length]. replace (n + S (length pre))%nat with (S n + length pre)%nat by lia.
    destruct o; cbn [expected].
    + rewrite IH. destruct (expected sc h rv (S n) pre) as [[[]|e] l]; cbn [fst snd];
        [|reflexivity].
      destruct (expected sc h rv (S n + length pre) rest) as [r' l']; cbn [fst snd].
      f_equal. cbn [app]. f_equal. rewrite <- app_assoc. reflexivity.
    + destruct h; [|reflexivity].
      rewrite IH. destruct (expected sc true rv (S n) pre) as [[[]|e] l]; cbn [fst snd];
        [|reflexivity].
      destruct (expected sc true rv (S n + length pre) rest) as [r' l']; cbn [fst snd].
      f_equal. rewrite <- app_assoc. cbn [app]. reflexivity.
    + reflexivity.
Qed.

(** A batch with no interrupt, and with no failure unless failures are
    handled, is expected to return; what it leaves in the log is as
    many error reports and captures as there are failures, and no
    await of any job beyond its own. *)
Lemma expected_uninterrupted sc h rv pre : forall n,
  (Interrupted ∉ pre) -> (h = true \/ Fails ∉ pre) ->
  fst (expected sc h rv n pre) = Ret tt /\
  count is_error (snd (expected sc h rv n pre)) = failures pre /\
  count is_capture (snd (expected sc h rv n pre)) = (if rv then failures pre else 0%nat) /\
  (EvError KeyboardInterrupt ∉ snd (expected sc h rv n pre)) /\
  (forall k, (n + length pre <= k)%nat ->
     count (is_get_of k) (snd (expected sc h rv n pre)) = 0%nat).
Proof.
  induction pre as [|o pre IH]; intros n Hint Hfail.
  - cbn. repeat split; try (destruct rv; reflexivity). apply not_elem_of_nil.
  - apply not_elem_of_cons in Hint as [Ho Hint].
    assert (Hfail' : h = true \/ Fails ∉ pre).
    { destruct Hfail as [?|Hf]; [auto|]. apply not_elem_of_cons in Hf as [_ ?]. auto. }
    specialize (IH (S n) Hint Hfail'). destruct IH as (IH1 & IH2 & IH3 & IH4 & IH5).
    destruct o; [| |congruence].
    + cbn [expected]. destruct (expected sc h rv (S n) pre) as [r l].
      cbn [fst snd] in *. unfold count, failures in *.
      split; [assumption|].
      split; [destruct sc; cbn; assumption|].
      split; [destruct sc; cbn; assumption|].
      split.
      * destruct sc; cbn [app]; rewrite ?not_elem_of_cons; repeat split; congruence.
      * intros k Hk. cbn [length] in Hk.
        specialize (IH5 k ltac:(lia)).
        destruct sc; cbn [app List.filter is_get_of is_success_of];
          destruct (Nat.eqb_spec n k); try lia; assumption.
    + assert (h = true) as ->.
      { destruct Hfail as [?|Hf]; [assumption|].
        exfalso. apply Hf. apply elem_of_cons. auto. }
      cbn [expected]. destruct (expected sc true rv (S n) pre) as [r l].
      cbn [fst snd] in *. unfold count, failures in *.
      split; [assumption|].
      split; [destruct rv; cbn; congruence|].
      split; [destruct rv; cbn; congruence|].
      split.
      * destruct rv; cbn [app]; rewrite ?not_elem_of_cons; repeat split; congruence.
      * intros k Hk. cbn [length] in Hk.
        specialize (IH5 k ltac:(lia)).
        destruct rv; cbn [app List.filter is_get_of is_success_of];
          destruct (Nat.eqb_spec n k); try lia; assumption.
Qed.

(** C8. Interrupt handling.  Take any batch in which the executor gets
    as far as a job whose wait is interrupted: the jobs before it are
    not interrupted, and fail only if an error handler is supplied.
    Whatever the clock does and whichever of [on_success], [on_error]
    and the error-tracking client are supplied, the executor raises
    [KeyboardInterrupt]; the interrupted job was awaited once and no
    later job is awaited; [on_error] ran once per failure of the
    earlier jobs and never on the interrupt; the error-tracking client
    was called once per such failure if supplied; and, progress reports
    apart, the await of the interrupted job is the last thing that
    happened. *)
Theorem watch_jobs_interrupt (sc h rv : bool) (c : nat -> Q)
    (progress_seconds : Q) (pre post : list outcome) :
  (Interrupted ∉ pre) ->
  (h = true \/ Fails ∉ pre) ->
  let m := S (length pre) in
  let '(r, w') :=
    watch_jobs read_clock (jobs_from 1 (pre ++ Interrupted :: post))
      (supplied sc rec_success) (supplied h rec_error) (Some rec_progress)
      (supplied rv rec_capture) progress_seconds (world0 c) in
  r = Raise KeyboardInterrupt /\
  count (is_get_of m) (log w') = 1%nat /\
  (forall k, (m < k)%nat -> count (is_get_of k) (log w') = 0%nat) /\
  count is_error (log w') = failures pre /\
  (EvError KeyboardInterrupt ∉ log w') /\
  count is_capture (log w') = (if rv then failures pre else 0%nat) /\
  exists l, no_progress (log w') = l ++ [EvGet m].
Proof.
  intros Hint Hfail m.
  pose proof (watch_jobs_expected sc h rv progress_seconds
                (pre ++ Interrupted :: post) 1 (world0 c)) as H.
  destruct (watch_jobs _ _ _ _ _ _ _ _) as [r w'].
  destruct H as [-> Hlog]. cbn [world0 log no_progress List.filter app] in Hlog.
  rewrite expected_app in Hlog |- *.
  destruct (expected_uninterrupted sc h rv pre 1 Hint Hfail)
    as (Hret & Herr & Hcap & Hki & Hget).
  rewrite Hret in *. cbn [expected fst snd] in *.
  change (1 + length pre)%nat with m in *.
  assert (Hcount : forall p, (forall ev, p ev = true -> is_progress ev = false) ->
            count p (log w') =
            (count p (snd (expected sc h rv 1 pre)) + count p [EvGet m])%nat).
  { intros p Hp. rewrite <- (count_no_progress p), Hlog, count_app by exact Hp.
    reflexivity. }
  split; [reflexivity|].
  split.
  { rewrite Hcount, (Hget m) by first [intros []; simpl; congruence | subst m; lia].
    unfold count. cbn [List.filter is_get_of]. rewrite Nat.eqb_refl. reflexivity. }
  split.
  { intros k Hk.
    rewrite Hcount, (Hget k) by first [intros []; simpl; congruence | subst m; lia].
    unfold count. cbn [List.filter is_get_of].
    destruct (Nat.eqb_spec m k); [lia|reflexivity]. }
  split.
  { rewrite Hcount, Herr by (intros []; simpl; congruence).
    unfold count. cbn. lia. }
  split.
  { intros Hin. apply Hki.
    assert (Hnp : EvError KeyboardInterrupt ∈ no_progress (log w')).
    { unfold no_progress. apply list_elem_of_In, List.filter_In.
      split; [apply list_elem_of_In; assumption|reflexivity]. }
    rewrite Hlog in Hnp. apply elem_of_app in Hnp as [?|Hn]; [assumption|].
    apply list_elem_of_singleton in Hn. discriminate. }
  split.
  { rewrite Hcount, Hcap by (intros []; simpl; congruence).
    unfold count. cbn. destruct rv; lia. }
  eexists. exact Hlog.
Qed.

(** A batch of four jobs: one succeeds, one fails and is handled, the
    wait for the third is interrupted. *)
Lemma watch_jobs_interrupt_witness :
  let '(r, w') :=
    watch_jobs read_clock
      (jobs_from 1 ([Succeeds; Fails] ++ Interrupted :: [Succeeds]))
      (supplied true rec_success) (supplied true rec_error) (Some rec_progress)
      (supplied true rec_capture) default_progress_seconds
      (world0 slow_first_job_clock) in
  r = Raise KeyboardInterrupt /\
  count (is_get_of 3) (log w') = 1%nat /\
  (forall k, (3 < k)%nat -> count (is_get_of k) (log w') = 0%nat) /\
  count is_error (log w') = 1%nat /\
  (EvError KeyboardInterrupt ∉ log w') /\
  count is_capture (log w') = 1%nat /\
  exists l, no_progress (log w') = l ++ [EvGet 3].
Proof.
  apply (watch_jobs_interrupt true true true slow_first_job_clock
           default_progress_seconds [Succeeds; Fails] [Succeeds]).
  - intros Hin. repeat (apply elem_of_cons in Hin as [Hin|Hin]; [discriminate|]).
    apply elem_of_nil in Hin. exact Hin.
  - left. reflexivity.
Defined.

(** ** The sync planner *)

Section SyncFacts.

Variable md5_hexdigest : string -> string.
Variables (tiles_dir : string) (objects : inventory).

Let name := obj_name_of tiles_dir.
Let verdict_of := classify md5_hexdigest tiles_dir objects.

(** One local file, when its name is in the remaining set exactly if
    it is in the inventory. *)
Lemma sync_step_classify st png opened :
  (name png ∈ remaining_objects st <-> name png ∈ dom objects) ->
  sync_step md5_hexdigest tiles_dir objects st png opened =
  (Ret (SyncState
          (st_upload st ++ (if decide (verdict_of png = Upload) then [name png] else []))
          (st_update st ++ (if decide (verdict_of png = Update) then [name png] else []))
          (unchanged_count st + (if decide (verdict_of png = Unchanged) then 1 else 0))
          (remaining_objects st ∖ {[name png]})),
   opened ++ (if same_size tiles_dir objects png then [path png] else [])).
Proof.
  intros Hrem. subst name verdict_of. unfold sync_step, classify, same_size.
  destruct (decide (obj_name_of tiles_dir png ∈ remaining_objects st)) as [Hin|Hnin].
  - apply Hrem, elem_of_dom in Hin as [[obj_size obj_md5] Hobj]. rewrite Hobj.
    unfold bind, read_and_hash, ret.
    destruct (decide (st_size png = obj_size)) as [Hsz|Hsz].
    + rewrite bool_decide_eq_true_2 by assumption.
      destruct (decide (md5_hexdigest (content png) = obj_md5)); cbn;
        rewrite ?app_nil_r, ?Z.add_0_r; reflexivity.
    + rewrite bool_decide_eq_false_2 by assumption. cbn.
      rewrite ?app_nil_r, ?Z.add_0_r. reflexivity.
  - assert (Hnone : objects !! obj_name_of tiles_dir png = None).
    { apply not_elem_of_dom. intros Hd. apply Hnin, Hrem, Hd. }
    rewrite Hnone. cbn. unfold ret. rewrite ?app_nil_r, ?Z.add_0_r.
    do 3 f_equal. apply set_eq. intros x. rewrite elem_of_difference, elem_of_singleton.
    split; [|tauto]. intros Hx. split; [assumption|]. intros ->. contradiction.
Qed.

(** The loop over files with pairwise distinct names. *)
Lemma sync_loop_classify pngs : forall st opened,
  NoDup (map name pngs) ->
  (forall png, png ∈ pngs ->
     name png ∈ remaining_objects st <-> name png ∈ dom objects) ->
  sync_loop md5_hexdigest tiles_dir objects pngs st opened =
  (Ret (SyncState
          (st_upload st ++ names_with Upload md5_hexdigest tiles_dir objects pngs)
          (st_update st ++ names_with Update md5_hexdigest tiles_dir objects pngs)
          (unchanged_count st
           + len (names_with Unchanged md5_hexdigest tiles_dir objects pngs))
          (remaining_objects st ∖ list_to_set (map name pngs))),
   opened ++ map path (List.filter (same_size tiles_dir objects) pngs)).
Proof.
  induction pngs as [|png pngs IH]; intros st opened Hnd Hrem.
  - cbn. unfold ret, names_with, len. cbn.
    rewrite !app_nil_r, Z.add_0_r, difference_empty_L. destruct st; reflexivity.
  - cbn [sync_loop]. unfold bind.
    rewrite sync_step_classify by (apply Hrem; left).
    cbn [map] in Hnd. apply NoDup_cons in Hnd as [Hfresh Hnd].
    rewrite IH; clear IH.
    + cbn [st_upload st_update unchanged_count remaining_objects].
      unfold names_with, len. rewrite !filter_cons. cbn [List.filter map list_to_set].
      assert (Hrest : remaining_objects st ∖ {[name png]} ∖ list_to_set (map name pngs)
                      = remaining_objects st ∖ ({[name png]} ∪ list_to_set (map name pngs))).
      { apply set_eq. intros x. rewrite !elem_of_difference, elem_of_union. tauto. }
      rewrite Hrest. clear Hrest Hrem Hfresh Hnd.
      subst verdict_of name. cbn beta.
      destruct (classify md5_hexdigest tiles_dir objects png) eqn:Hv;
        destruct (same_size tiles_dir objects png);
        repeat (case_decide; try congruence);
        cbn [map length app]; rewrite <- ?app_assoc, ?app_nil_r, ?Z.add_0_r;
        cbn [app]; f_equal; try reflexivity; do 2 f_equal; try reflexivity; lia.
    + assumption.
    + intros q Hq. cbn [remaining_objects].
      rewrite elem_of_difference, elem_of_singleton.
      assert (name q <> name png).
      { intros Heq. apply Hfresh. rewrite <- Heq.
        apply list_elem_of_In, in_map, list_elem_of_In. assumption. }
      specialize (Hrem q ltac:(right; assumption)). tauto.
Qed.

(** [sorted] lists its set, once each, in ascending order. *)
Lemma sorted_spec (s : gset string) :
  StronglySorted String.le (sorted s) /\ NoDup (sorted s) /\
  (forall k, k ∈ sorted s <-> k ∈ s).
Proof.
  unfold sorted. split; [|split].
  - apply StronglySorted_merge_sort; apply _.
  - rewrite merge_sort_Permutation. apply NoDup_elements.
  - intros k. rewrite merge_sort_Permutation. apply elem_of_elements.
Qed.

Lemma sorted_empty : sorted ∅ = [].
Proof. unfold sorted. rewrite elements_empty. reflexivity. Qed.

(** The planner on a folder whose files have pairwise distinct names. *)
Lemma get_sync_actions_classify tiles opened :
  let pngs := get_png_entries tiles_dir tiles in
  NoDup (map name pngs) ->
  get_sync_actions md5_hexdigest tiles_dir tiles objects opened =
  (Ret (Actions
          (names_with Upload md5_hexdigest tiles_dir objects pngs)
          (names_with Update md5_hexdigest tiles_dir objects pngs)
          (sorted (dom objects ∖ list_to_set (map name pngs))),
        len (names_with Unchanged md5_hexdigest tiles_dir objects pngs)),
   opened ++ map path (List.filter (same_size tiles_dir objects) pngs)).
Proof.
  intros pngs Hnd. unfold get_sync_actions, bind. fold pngs.
  rewrite sync_loop_classify by (assumption || reflexivity).
  reflexivity.
Qed.

End SyncFacts.

Lemma sync_step_agree md5 md5' tiles_dir objects st p1 p2 opened :
  agree md5 md5' tiles_dir objects p1 p2 ->
  sync_step md5 tiles_dir objects st p1 opened =
  sync_step md5' tiles_dir objects st p2 opened.
Proof.
  intros (Hpath & Hsize & Hhash). unfold sync_step, same_size, obj_name_of in *.
  rewrite <- Hpath, <- Hsize.
  destruct (decide _); [|reflexivity].
  destruct (objects !! _) as [[obj_size obj_md5]|]; [|reflexivity].
  unfold bind, read_and_hash. destruct (decide (st_size p1 = obj_size)); [|reflexivity].
  rewrite <- Hpath, <- Hhash by (apply bool_decide_eq_true_2; assumption).
  reflexivity.
Qed.

Lemma sync_loop_agree md5 md5' tiles_dir objects pngs1 pngs2 :
  Forall2 (agree md5 md5' tiles_dir objects) pngs1 pngs2 ->
  forall st opened,
  sync_loop md5 tiles_dir objects pngs1 st opened =
  sync_loop md5' tiles_dir objects pngs2 st opened.
Proof.
  induction 1 as [|p1 p2 l1 l2 Hp _ IH]; intros st opened; [reflexivity|].
  cbn [sync_loop]. unfold bind.
  rewrite (sync_step_agree md5 md5' tiles_dir objects st p1 p2 opened Hp).
  destruct (sync_step md5' tiles_dir objects st p2 opened) as [[st'|e] opened'];
    [apply IH|reflexivity].
Qed.

Lemma get_sync_actions_agree md5 md5' tiles_dir objects tiles1 tiles2 opened :
  Forall2 (agree md5 md5' tiles_dir objects)
    (get_png_entries tiles_dir tiles1) (get_png_entries tiles_dir tiles2) ->
  get_sync_actions md5 tiles_dir tiles1 objects opened =
  get_sync_actions md5' tiles_dir tiles2 objects opened.
Proof.
  intros H. unfold get_sync_actions, bind.
  rewrite (sync_loop_agree md5 md5' tiles_dir objects _ _ H). reflexivity.
Qed.

(** C2. The sync plan.  For every inventory and every local tile
    folder whose files have pairwise distinct object names (as the
    files of a folder have), the planner returns: as uploads the
    files not in the inventory, as updates the files whose size
    differs from the remote size or whose size is equal and whose hash
    differs, both in walk order; as the unchanged count the number of
    files of equal size and hash; and as deletes, in ascending order
    and once each, exactly the remote keys that no local file has.
    For the inventory A:(10,h1), B:(20,h2) and the local files A of
    size 10 and hash h1 and C of size 5, the plan is upload=[C],
    update=[], delete=[B], unchanged=1. *)
Theorem get_sync_actions_plan :
  (forall (md5_hexdigest : string -> string) (tiles_dir : string)
          (tiles : list dir_entry) (objects : inventory),
     let pngs := get_png_entries tiles_dir tiles in
     NoDup (map (obj_name_of tiles_dir) pngs) ->
     exists plan unchanged opened,
       get_sync_actions md5_hexdigest tiles_dir tiles objects []
         = (Ret (plan, unchanged), opened) /\
       upload plan = names_with Upload md5_hexdigest tiles_dir objects pngs /\
       update plan = names_with Update md5_hexdigest tiles_dir objects pngs /\
       unchanged = len (names_with Unchanged md5_hexdigest tiles_dir objects pngs) /\
       StronglySorted String.le (delete plan) /\
       NoDup (delete plan) /\
       (forall k, k ∈ delete plan <->
                  k ∈ dom objects /\ k ∉ map (obj_name_of tiles_dir) pngs)) /\
  (forall (md5_hexdigest : string -> string),
     md5_hexdigest "AAAAAAAAAA" = "h1" ->
     fst (get_sync_actions md5_hexdigest "/out/tiles"
            [File "A.png" "AAAAAAAAAA"; File "C.png" "CCCCC"]
            (<["A.png" := (10, "h1")]> (<["B.png" := (20, "h2")]> ∅)) [])
     = Ret (Actions ["C.png"] [] ["B.png"], 1)).
Proof.
  split.
  - intros md5_hexdigest tiles_dir tiles objects pngs Hnd.
    eexists _, _, _. split; [apply get_sync_actions_classify; exact Hnd|].
    cbn [upload update delete]. fold pngs.
    destruct (sorted_spec (dom objects ∖ list_to_set (map (obj_name_of tiles_dir) pngs)))
      as (Hs & Hn & Hk).
    do 3 (split; [reflexivity|]). do 2 (split; [assumption|]).
    intros k. rewrite Hk, elem_of_difference, elem_of_list_to_set. reflexivity.
  - intros md5_hexdigest Hmd5.
    rewrite (get_sync_actions_agree md5_hexdigest (fun _ => "h1") _ _ _
               [File "A.png" "AAAAAAAAAA"; File "C.png" "CCCCC"]).
    + vm_compute. reflexivity.
    + set (pngs := get_png_entries _ _). vm_compute in pngs. subst pngs.
      constructor; [|constructor; [|constructor]];
        (split; [reflexivity|split; [reflexivity|]]).
      * intros _. exact Hmd5.
      * intros H. vm_compute in H. discriminate.
Qed.

(** On [example_tiles] and [example_inventory]. *)
Lemma get_sync_actions_plan_witness :
  let pngs := get_png_entries "/out/tiles" example_tiles in
  exists plan unchanged opened,
    get_sync_actions example_md5 "/out/tiles" example_tiles example_inventory []
      = (Ret (plan, unchanged), opened) /\
    upload plan = names_with Upload example_md5 "/out/tiles" example_inventory pngs /\
    update plan = names_with Update example_md5 "/out/tiles" example_inventory pngs /\
    unchanged = len (names_with Unchanged example_md5 "/out/tiles" example_inventory pngs) /\
    StronglySorted String.le (delete plan) /\
    NoDup (delete plan) /\
    (forall k, k ∈ delete plan <->
               k ∈ dom example_inventory /\ k ∉ map (obj_name_of "/out/tiles") pngs).
Proof.
  apply (proj1 get_sync_actions_plan example_md5 "/out/tiles" example_tiles
           example_inventory).
  apply (bool_decide_unpack _). vm_compute. exact I.
Defined.

(** When every file has the same verdict, the names with that verdict
    are all the names, and no name has another verdict. *)
Lemma names_with_all md5 tiles_dir objects v0 v pngs :
  Forall (fun png => classify md5 tiles_dir objects png = v0) pngs ->
  names_with v md5 tiles_dir objects pngs =
  if decide (v = v0) then map (obj_name_of tiles_dir) pngs else [].
Proof.
  intros Hall. unfold names_with.
  induction Hall as [|png l Hpng _ IH].
  - destruct (decide (v = v0)); reflexivity.
  - rewrite filter_cons. rewrite Hpng.
    destruct (decide (v0 = v)) as [<-|Hne].
    + rewrite decide_True in IH |- * by reflexivity. cbn [map]. f_equal. exact IH.
    + rewrite decide_False in IH |- * by congruence. exact IH.
Qed.

(** C3. Idempotence of planning.  If every local file is in the
    inventory with its own size and hash, and the inventory has no key
    that no local file has (the state a fully successful sync leaves),
    then the plan has no upload, no update and no delete, and every
    local file counts as unchanged. *)
Theorem get_sync_actions_idempotent (md5_hexdigest : string -> string)
    (tiles_dir : string) (tiles : list dir_entry) (objects : inventory) :
  let pngs := get_png_entries tiles_dir tiles in
  NoDup (map (obj_name_of tiles_dir) pngs) ->
  (forall png, png ∈ pngs ->
     objects !! obj_name_of tiles_dir png
       = Some (st_size png, md5_hexdigest (content png))) ->
  (forall k, k ∈ dom objects -> k ∈ map (obj_name_of tiles_dir) pngs) ->
  fst (get_sync_actions md5_hexdigest tiles_dir tiles objects [])
    = Ret (Actions [] [] [], len pngs) /\
  Forall (fun png => classify md5_hexdigest tiles_dir objects png = Unchanged) pngs.
Proof.
  intros pngs Hnd Hsynced Hextra.
  assert (Hall : Forall (fun png => classify md5_hexdigest tiles_dir objects png
                                    = Unchanged) pngs).
  { apply Forall_forall. intros png Hin. unfold classify.
    rewrite (Hsynced png Hin). rewrite !decide_True by reflexivity. reflexivity. }
  split; [|exact Hall].
  rewrite get_sync_actions_classify by exact Hnd. cbn [fst]. fold pngs.
  rewrite !(names_with_all _ _ _ Unchanged) by exact Hall.
  rewrite !decide_False by discriminate. rewrite decide_True by reflexivity.
  assert (Hempty : dom objects ∖ list_to_set (map (obj_name_of tiles_dir) pngs)
                   = (∅ : gset string)).
  { apply set_eq. intros k. rewrite elem_of_difference, elem_of_list_to_set.
    split; [|intros H; apply elem_of_empty in H; contradiction].
    intros [Hk Hnk]. exfalso. apply Hnk, Hextra, Hk. }
  rewrite Hempty, sorted_empty. unfold len. rewrite length_map. reflexivity.
Qed.

(** On [example_tiles] and the inventory its sync leaves. *)
Lemma get_sync_actions_idempotent_witness :
  let pngs := get_png_entries "/out/tiles" example_tiles in
  fst (get_sync_actions example_md5 "/out/tiles" example_tiles
         example_synced_inventory [])
    = Ret (Actions [] [] [], len pngs) /\
  Forall (fun png => classify example_md5 "/out/tiles" example_synced_inventory png
                     = Unchanged) pngs.
Proof.
  apply (get_sync_actions_idempotent example_md5 "/out/tiles" example_tiles
           example_synced_inventory).
  - apply (bool_decide_unpack _). vm_compute. exact I.
  - apply Forall_forall. vm_compute. repeat constructor.
  - intros k Hk. apply elem_of_dom in Hk as [v Hk].
    unfold example_synced_inventory in Hk.
    repeat (apply lookup_insert_Some in Hk as [[<- _]|[_ Hk]];
            [apply (bool_decide_unpack _); vm_compute; exact I|]).
    rewrite lookup_empty in Hk. discriminate.
Defined.

(** ** The size check comes first *)

Lemma NoDup_map_inj {A B} (f : A -> B) (l : list A) x y :
  NoDup (map f l) -> x ∈ l -> y ∈ l -> f x = f y -> x = y.
Proof.
  induction l as [|a l IH]; intros Hnd Hx Hy Hf.
  - apply elem_of_nil in Hx. contradiction.
  - cbn [map] in Hnd. apply NoDup_cons in Hnd as [Hfresh Hnd].
    apply elem_of_cons in Hx as [->|Hx]; apply elem_of_cons in Hy as [->|Hy].
    + reflexivity.
    + exfalso. apply Hfresh. rewrite Hf.
      apply list_elem_of_In, in_map, list_elem_of_In. assumption.
    + exfalso. apply Hfresh. rewrite <- Hf.
      apply list_elem_of_In, in_map, list_elem_of_In. assumption.
    + apply IH; assumption.
Qed.

(** C7. Size-first short-circuit.  Take two states of the local tile
    folder that differ at most in the bytes of files whose size is
    unchanged and differs from the size of the same-named remote
    object.  The planner returns the same plan, the same unchanged
    count and the same list of files read for hashing on both.  And
    every local file whose size differs from its remote entry is
    classified as an update, is in the plan's updates, and is not among
    the files read for hashing. *)
Theorem size_first_short_circuit (md5_hexdigest : string -> string)
    (tiles_dir : string) (objects : inventory) (tiles1 tiles2 : list dir_entry) :
  let pngs1 := get_png_entries tiles_dir tiles1 in
  let pngs2 := get_png_entries tiles_dir tiles2 in
  NoDup (map (obj_name_of tiles_dir) pngs1) ->
  Forall2 (same_but_resized tiles_dir objects) pngs1 pngs2 ->
  get_sync_actions md5_hexdigest tiles_dir tiles1 objects []
    = get_sync_actions md5_hexdigest tiles_dir tiles2 objects [] /\
  (forall png obj_size obj_md5,
     png ∈ pngs1 ->
     objects !! obj_name_of tiles_dir png = Some (obj_size, obj_md5) ->
     st_size png <> obj_size ->
     classify md5_hexdigest tiles_dir objects png = Update /\
     exists plan unchanged opened,
       get_sync_actions md5_hexdigest tiles_dir tiles1 objects []
         = (Ret (plan, unchanged), opened) /\
       obj_name_of tiles_dir png ∈ update plan /\
       path png ∉ opened).
Proof.
  intros pngs1 pngs2 Hnd Hrel. split.
  - apply get_sync_actions_agree. fold pngs1 pngs2.
    eapply Forall2_impl; [exact Hrel|].
    intros p1 p2 (Hpath & Hsize & Hbytes). split; [assumption|split; [assumption|]].
    intros Hsame. destruct Hbytes as [->|(sz & h & Hobj & Hne)]; [reflexivity|].
    unfold same_size in Hsame. rewrite Hobj in Hsame.
    apply bool_decide_eq_true_1 in Hsame. contradiction.
  - intros png obj_size obj_md5 Hin Hobj Hne.
    assert (Hv : classify md5_hexdigest tiles_dir objects png = Update).
    { unfold classify. rewrite Hobj, decide_False by assumption. reflexivity. }
    split; [exact Hv|].
    eexists _, _, _. split; [apply get_sync_actions_classify; exact Hnd|].
    cbn [update]. fold pngs1. split.
    + unfold names_with. apply list_elem_of_In, in_map, list_elem_of_In.
      apply list_elem_of_filter. split; assumption.
    + cbn [app]. intros Hopened.
      apply list_elem_of_In, in_map_iff in Hopened as (q & Hpath & Hq).
      apply List.filter_In in Hq as [Hq Hsame]. apply list_elem_of_In in Hq.
      assert (Hname : obj_name_of tiles_dir q = obj_name_of tiles_dir png).
      { unfold obj_name_of. rewrite Hpath. reflexivity. }
      assert (q = png) as -> by (eapply NoDup_map_inj; eassumption).
      unfold same_size in Hsame. rewrite Hobj in Hsame.
      apply bool_decide_eq_true_1 in Hsame. contradiction.
Qed.

(** On [example_tiles] and [example_tiles_other_bytes]: the file
    [1/0/0.png] has 5 bytes, the remote object 7. *)
Lemma size_first_short_circuit_witness :
  let pngs1 := get_png_entries "/out/tiles" example_tiles in
  get_sync_actions example_md5 "/out/tiles" example_tiles example_inventory []
    = get_sync_actions example_md5 "/out/tiles" example_tiles_other_bytes
        example_inventory [] /\
  (forall png obj_size obj_md5,
     png ∈ pngs1 ->
     example_inventory !! obj_name_of "/out/tiles" png = Some (obj_size, obj_md5) ->
     st_size png <> obj_size ->
     classify example_md5 "/out/tiles" example_inventory png = Update /\
     exists plan unchanged opened,
       get_sync_actions example_md5 "/out/tiles" example_tiles example_inventory []
         = (Ret (plan, unchanged), opened) /\
       obj_name_of "/out/tiles" png ∈ update plan /\
       path png ∉ opened).
Proof.
  apply (size_first_short_circuit example_md5 "/out/tiles" example_inventory
           example_tiles example_tiles_other_bytes).
  - apply (bool_decide_unpack _). vm_compute. exact I.
  - set (l1 := get_png_entries _ example_tiles). vm_compute in l1. subst l1.
    set (l2 := get_png_entries _ example_tiles_other_bytes). vm_compute in l2. subst l2.
    constructor; [|constructor; [|constructor; [|constructor]]];
      (split; [reflexivity|split; [reflexivity|]]).
    + left. reflexivity.
    + left. reflexivity.
    + right. exists 7, "h3". split; [reflexivity|]. vm_compute. discriminate.
Defined.

(** ** The remote inventory *)

(** Any page without [Contents] makes the listing loop raise. *)
Lemma get_current_objects_loop_no_contents
    list_objects_v2 fuel bucket_name bucket_prefix objects next_kwargs :
  Contents (list_objects_v2 bucket_name bucket_prefix next_kwargs) = None ->
  get_current_objects_loop list_objects_v2 (S fuel) bucket_name bucket_prefix
    objects next_kwargs
  = Some (Raise (KeyError "Contents")).
Proof. intros H. cbn [get_current_objects_loop]. rewrite H. reflexivity. Qed.

(** An upload-only run whose planning raises: the exception leaves
    [generate] from the world in which planning raised it, so neither
    the sync nor the status upload ran. *)
Lemma generate_upload_only_plan_raises {W} (host : stages W)
    output_dir bucket_name concurrency max_zoom e w w1 w2 :
  ensure_dir host (st_makedirs host) output_dir w = (Ret tt, w1) ->
  st_get_sync_plan host bucket_name
    (st_abspath host (path_join output_dir "tiles")) w1 = (Raise e, w2) ->
  generate host output_dir bucket_name false true concurrency max_zoom w
  = (Raise e, w2).
Proof.
  intros Hdir Hplan. unfold generate, upload_stage.
  unfold bind at 1. rewrite Hdir. unfold bind at 1. rewrite Hplan. reflexivity.
Qed.

(** C9. A listing page without contents.  If the first page that the
    remote store returns for the prefix has no [Contents] entry, as for
    an empty bucket or prefix, then with any fuel the inventory fetch
    raises [KeyError] instead of returning an empty mapping; planning
    raises the same error without reading any local file; and an
    upload-only run of [generate] whose planning step raises ends with
    that error in the world in which it was raised, before any sync
    job or status upload. *)
Theorem get_current_objects_empty_listing
    (list_objects_v2 : string -> string -> option string -> response)
    (bucket_name bucket_prefix : string) (fuel : nat) :
  Contents (list_objects_v2 bucket_name bucket_prefix None) = None ->
  get_current_objects list_objects_v2 (S fuel) bucket_name bucket_prefix
    = Some (Raise (KeyError "Contents")) /\
  (forall md5_hexdigest tiles_dir tiles,
     get_sync_plan md5_hexdigest list_objects_v2 (S fuel) bucket_name tiles_dir
       tiles bucket_prefix
     = Some (raise (KeyError "Contents"))) /\
  (forall W (host : stages W) output_dir concurrency max_zoom w w1 w2,
     ensure_dir host (st_makedirs host) output_dir w = (Ret tt, w1) ->
     st_get_sync_plan host bucket_name
       (st_abspath host (path_join output_dir "tiles")) w1
       = (Raise (KeyError "Contents"), w2) ->
     generate host output_dir bucket_name false true concurrency max_zoom w
     = (Raise (KeyError "Contents"), w2)).
Proof.
  intros Hempty.
  assert (Hfetch : get_current_objects list_objects_v2 (S fuel) bucket_name bucket_prefix
                   = Some (Raise (KeyError "Contents"))).
  { apply get_current_objects_loop_no_contents. exact Hempty. }
  split; [exact Hfetch|]. split.
  - intros md5_hexdigest tiles_dir tiles. unfold get_sync_plan.
    rewrite Hfetch. reflexivity.
  - intros W host output_dir concurrency max_zoom w w1 w2.
    apply generate_upload_only_plan_raises.
Qed.

(** On [empty_listing], and on a host whose planning step raises the
    error of that listing: the one request the remote store sees is
    the listing. *)
Lemma get_current_objects_empty_listing_witness :
  get_current_objects empty_listing 1 "bucket" "tiles/"
    = Some (Raise (KeyError "Contents")) /\
  (forall md5_hexdigest tiles_dir tiles,
     get_sync_plan md5_hexdigest empty_listing 1 "bucket" tiles_dir tiles "tiles/"
     = Some (raise (KeyError "Contents"))) /\
  generate (logging_host (0, 0) (Raise (KeyError "Contents")))
    "/out" "bucket" false true 2 11 ([], [])
  = (Raise (KeyError "Contents"), (["list_objects_v2"], [])).
Proof.
  destruct (get_current_objects_empty_listing empty_listing "bucket" "tiles/" 0
              eq_refl) as (H1 & H2 & H3).
  split; [exact H1|]. split; [exact H2|].
  apply (H3 _ (logging_host (0, 0) (Raise (KeyError "Contents")))
           "/out" 2%nat 11 ([], []) ([], [])); reflexivity.
Defined.

(** ** The orchestrator *)

Section GenerateFacts.

Context {W V : Type}.
Variable host : stages W.

(** A part of the world, such as the remote store. *)
Variable part : W -> V.

Lemma preserves_ret {A} (a : A) : preserves part (ret a).
Proof. intros w. reflexivity. Qed.

Lemma preserves_raise {A} e : preserves part (raise (A:=A) e).
Proof. intros w. reflexivity. Qed.

Lemma preserves_bind {A B} (m : M W A) (k : A -> M W B) :
  preserves part m -> (forall a, preserves part (k a)) -> preserves part (bind m k).
Proof.
  intros Hm Hk w. unfold bind. specialize (Hm w).
  destruct (m w) as [[a|e] w']; cbn [snd] in *; [|exact Hm].
  rewrite (Hk a w'). exact Hm.
Qed.

Lemma preserves_try_except {A} (m : M W A) (h : exn -> M W A) :
  preserves part m -> (forall e, preserves part (h e)) ->
  preserves part (try_except m h).
Proof.
  intros Hm Hh w. unfold try_except. specialize (Hm w).
  destruct (m w) as [[a|e] w']; cbn [snd] in *; [exact Hm|].
  rewrite (Hh e w'). exact Hm.
Qed.

(** The export stage leaves alone what the clock, the folder
    operations and the export itself leave alone. *)
Lemma export_stage_preserves csv_dir concurrency result :
  preserves part (st_default_timer host) ->
  (forall d, preserves part (st_isdir host d)) ->
  (forall d, preserves part (st_mkdir host d)) ->
  preserves part (st_export_to_csvs host concurrency csv_dir) ->
  preserves part (export_stage host csv_dir concurrency result).
Proof.
  intros Htimer Hisdir Hmkdir Hexport. unfold export_stage, ensure_dir, timed.
  repeat first
    [ apply preserves_bind; [|intros]
    | apply preserves_try_except; [|intros]
    | apply preserves_ret | apply preserves_raise
    | assumption | solve [auto]
    | match goal with |- preserves _ (if ?b then _ else _) => destruct b end
    | match goal with |- preserves _ (let '(_, _) := ?x in _) => destruct x end ].
Qed.

(** What the export stage puts in the summary. *)
Lemma export_stage_result csv_dir concurrency w result w' :
  export_stage host csv_dir concurrency ∅ w = (Ret result, w') ->
  exists row_count csv_count duration,
    result = <["csv_count" := VInt csv_count]>
               (<["row_count" := VInt row_count]>
                  (<["export_duration_s" := VSeconds duration]> ∅)).
Proof.
  unfold export_stage, ensure_dir, timed, bind, try_except, ret.
  destruct (st_isdir host csv_dir w) as [[[]|] w0]; [| |discriminate].
  - destruct (st_default_timer host w0) as [[start|] w1]; [|discriminate].
    destruct (st_export_to_csvs host concurrency csv_dir w1) as [[[rows csvs]|] w2].
    + destruct (st_default_timer host w2) as [[end_|] w3]; [|discriminate].
      intros [= <- <-]. eauto.
    + unfold raise. destruct (st_default_timer host w2) as [[?|] ?]; discriminate.
  - destruct (st_mkdir host csv_dir w0) as [[[]|] w0']; [|discriminate].
    destruct (st_default_timer host w0') as [[start|] w1]; [|discriminate].
    destruct (st_export_to_csvs host concurrency csv_dir w1) as [[[rows csvs]|] w2].
    + destruct (st_default_timer host w2) as [[end_|] w3]; [|discriminate].
      intros [= <- <-]. eauto.
    + unfold raise. destruct (st_default_timer host w2) as [[?|] ?]; discriminate.
Qed.

(** C10. No rows, no further stage.  Let a create run reach the end of
    its export stage with a row count of zero.  Then [generate]
    returns there and then: its result is the summary of the export
    stage, which holds the export duration, the row count and the CSV
    count and nothing else, and the world is the one the export stage
    left, whether or not an upload was asked for and whatever the
    quadtree, merge, render, planning, sync and status-upload steps
    would do.  In particular any part of the world that the clock, the
    folder operations and the export leave alone, such as the remote
    store, is as it was before the run. *)
Theorem generate_no_rows (output_dir bucket_name : string) (upload : bool)
    (concurrency : nat) (max_zoom : Z) (w w1 w2 : W) (result : summary) :
  ensure_dir host (st_makedirs host) output_dir w = (Ret tt, w1) ->
  export_stage host (path_join output_dir "csv") concurrency ∅ w1 = (Ret result, w2) ->
  result !! "row_count" = Some (VInt 0) ->
  generate host output_dir bucket_name true upload concurrency max_zoom w
    = (Ret result, w2) /\
  dom result = ({["export_duration_s"; "row_count"; "csv_count"]} : gset string) /\
  (preserves part (st_default_timer host) ->
   (forall d, preserves part (st_isdir host d)) ->
   (forall d, preserves part (st_makedirs host d)) ->
   (forall d, preserves part (st_mkdir host d)) ->
   (forall n d, preserves part (st_export_to_csvs host n d)) ->
   part w2 = part w).
Proof.
  intros Hdir Hexport Hzero. split; [|split].
  - unfold generate. unfold bind at 1. rewrite Hdir.
    unfold bind at 1. rewrite Hexport. rewrite Hzero. reflexivity.
  - apply export_stage_result in Hexport as (rows & csvs & duration & ->).
    rewrite !dom_insert_L, dom_empty_L. set_solver.
  - intros Htimer Hisdir Hmakedirs Hmkdir Hexp.
    pose proof (export_stage_preserves (path_join output_dir "csv") concurrency ∅
                  Htimer Hisdir Hmkdir (Hexp _ _) w1) as H2.
    rewrite Hexport in H2. cbn [snd] in H2. rewrite H2.
    assert (H1 : preserves part (ensure_dir host (st_makedirs host) output_dir)).
    { unfold ensure_dir. apply preserves_bind; [apply Hisdir|].
      intros []; [apply preserves_ret|apply Hmakedirs]. }
    specialize (H1 w). rewrite Hdir in H1. exact H1.
Qed.

End GenerateFacts.

(** On the logging host with an export of no rows and an upload asked
    for: the only stage that ran is the export, and the remote store
    received no request. *)
Lemma generate_no_rows_witness :
  let result : summary :=
    <["csv_count" := VInt 0]>
      (<["row_count" := VInt 0]> (<["export_duration_s" := VSeconds 0]> ∅)) in
  generate (logging_host (0, 0) (Raise (KeyError "Contents")))
    "/out" "bucket" true true 2 11 ([], [])
    = (Ret result, ([], ["export_to_csvs"])) /\
  dom result = ({["export_duration_s"; "row_count"; "csv_count"]} : gset string) /\
  fst (([], ["export_to_csvs"]) : list string * list string) = [].
Proof.
  intros result.
  destruct (generate_no_rows (logging_host (0, 0) (Raise (KeyError "Contents")))
              fst "/out" "bucket" true 2 11 ([], []) ([], [])
              ([], ["export_to_csvs"]) result) as (H1 & H2 & H3);
    [reflexivity|reflexivity|reflexivity|].
  split; [exact H1|]. split; [exact H2|].
  apply H3; intros; intro; reflexivity.
Defined.

(** ** The shard export *)

Section ExportFacts.

Context {coord : Type}.
Variable decode_datamap_grid : string -> coord * coord.
Variable random_points : coord -> coord -> Z -> list string.

Lemma sizes_insert path lines (fs : csvfs) :
  sizes (<[path := lines]> fs) = <[path := len lines]> (sizes fs).
Proof. unfold sizes. apply fmap_insert. Qed.

Lemma sizes_lookup path (fs : csvfs) :
  default 0 (sizes fs !! path) = len (default [] (fs !! path)).
Proof. unfold sizes. rewrite lookup_fmap. destruct (fs !! path); reflexivity. Qed.

Lemma sizes_delete path (fs : csvfs) :
  sizes (base.delete path fs) = base.delete path (sizes fs).
Proof. unfold sizes. apply fmap_delete. Qed.

Lemma sizes_lookup_fmap path (fs : csvfs) : sizes fs !! path = len <$> fs !! path.
Proof. unfold sizes. apply lookup_fmap. Qed.

Lemma len_app {A} (l1 l2 : list A) : len (l1 ++ l2) = len l1 + len l2.
Proof. unfold len. rewrite length_app. lia. Qed.

(** The loop and its replay on line counts go the same way. *)
Lemma export_loop_sizes csv_dir orig_filename file_limit pages :
  forall result_rows file_count file_rows file_path fs,
  exists fs',
    export_loop decode_datamap_grid random_points csv_dir orig_filename file_limit
      pages result_rows file_count file_rows file_path fs
    = (Ret (fst (sizes_loop csv_dir orig_filename file_limit
                   (page_sizes decode_datamap_grid random_points pages)
                   result_rows file_count file_rows file_path (sizes fs))), fs') /\
    sizes fs' = snd (sizes_loop csv_dir orig_filename file_limit
                       (page_sizes decode_datamap_grid random_points pages)
                       result_rows file_count file_rows file_path (sizes fs)).
Proof.
  induction pages as [|rows later IH];
    intros result_rows file_count file_rows file_path fs.
  - exists fs. split; reflexivity.
  - destruct rows as [|r rows]; [exists fs; split; reflexivity|].
    cbn [export_loop page_sizes sizes_loop].
    set (lines := page_lines decode_datamap_grid random_points (r :: rows)).
    unfold bind at 1. unfold writelines at 1.
    rewrite sizes_lookup, <- len_app, <- sizes_insert.
    destruct (decide (result_rows + len lines >= file_limit)).
    + unfold bind at 1. unfold open_w at 1.
      pose proof (sizes_insert
                    (path_join csv_dir (serial_filename orig_filename (file_count + 1)))
                    [] (<[file_path := default [] (fs !! file_path) ++ lines]> fs))
        as Hopen.
      change (len []) with 0 in Hopen. rewrite <- Hopen. apply IH.
    + apply IH.
Qed.

(** The export and its replay on line counts return the same counts
    and leave files of the same sizes. *)
Lemma export_to_csv_sizes session filename csv_dir row_limit file_limit fs :
  str_endswith ".csv" filename = true ->
  exists fs',
    export_to_csv decode_datamap_grid random_points session filename csv_dir
      row_limit file_limit fs
    = (Ret (fst (export_sizes
                   (page_sizes decode_datamap_grid random_points
                      (session (int_or row_limit 200000)))
                   filename csv_dir (int_or file_limit 10000000) (sizes fs))), fs') /\
    sizes fs' = snd (export_sizes
                       (page_sizes decode_datamap_grid random_points
                          (session (int_or row_limit 200000)))
                       filename csv_dir (int_or file_limit 10000000) (sizes fs)).
Proof.
  intros Hcsv. unfold export_to_csv, export_sizes. rewrite Hcsv. cbn [negb].
  unfold bind at 1. unfold open_w at 1.
  destruct (export_loop_sizes csv_dir filename (int_or file_limit 10000000)
              (session (int_or row_limit 200000)) 0 1 0 (path_join csv_dir filename)
              (<[path_join csv_dir filename := []]> fs)) as (fs1 & Hrun & Hsizes).
  rewrite sizes_insert in Hrun, Hsizes. change (len []) with 0 in Hrun, Hsizes.
  unfold bind at 1. rewrite Hrun. clear Hrun.
  destruct (sizes_loop _ _ _ _ _ _ _ _ _) as [[[[rr fc] fr] fp] sfs].
  cbn [fst snd] in *. subst sfs.
  unfold bind, os_remove, os_rename, ret.
  destruct (decide (fr = 0)).
  - rewrite <- sizes_delete.
    destruct (decide (fc - 1 > 1)); [|eauto].
    rewrite sizes_lookup_fmap.
    destruct (base.delete fp fs1 !! path_join csv_dir filename) as [content|];
      cbn [fmap option_fmap option_map fst snd]; [|eauto].
    eexists. split; [reflexivity|]. rewrite sizes_insert, sizes_delete. reflexivity.
  - destruct (decide (fc > 1)); [|eauto].
    rewrite sizes_lookup_fmap.
    destruct (fs1 !! path_join csv_dir filename) as [content|];
      cbn [fmap option_fmap option_map fst snd]; [|eauto].
    eexists. split; [reflexivity|]. rewrite sizes_insert, sizes_delete. reflexivity.
Qed.

End ExportFacts.

(** *** 25,000,000 rows *)

Lemma len_page_lines_one_point rows :
  len (page_lines grid_origin one_point rows) = len rows.
Proof.
  unfold len. f_equal. unfold page_lines.
  induction rows as [|r rows IH]; [reflexivity|]. cbn. f_equal. exact IH.
Qed.

(** Every page of the numbered session has [row_limit] rows, and as
    many lines. *)
Lemma page_sizes_numbered_session pages row_limit :
  0 < row_limit ->
  page_sizes grid_origin one_point (numbered_session pages row_limit)
  = repeat row_limit pages.
Proof.
  intros Hpos. unfold numbered_session. generalize 0%nat.
  induction pages as [|pages IH]; intros k; [reflexivity|].
  cbn [seq map repeat].
  assert (Hlen : len (numbered_page (Z.to_nat row_limit) k) = row_limit).
  { unfold numbered_page, len. rewrite length_map, length_seq. lia. }
  destruct (numbered_page (Z.to_nat row_limit) k) as [|r rows] eqn:Hpage.
  - unfold len in Hlen. cbn in Hlen. lia.
  - cbn [page_sizes]. rewrite len_page_lines_one_point, Hlen, IH. reflexivity.
Qed.

(** C1. Rotation.  The export compares the file-row threshold with
    [result_rows], the rows exported so far, and not with [file_rows],
    the rows of the current segment.  On a table of 25,000,000 rows of
    one line each, read 200,000 rows at a time under the default
    threshold of 10,000,000, the first segment is closed when it holds
    10,000,000 lines, and from then on every page closes a segment:
    the export returns 76 files, the first of 10,000,000 lines and 75
    of 200,000 lines, where the threshold asks for 3. *)
Theorem export_to_csv_rotates_after_every_page :
  exists fs',
    export_to_csv grid_origin one_point (numbered_session 125)
      "map_ne.csv" "/out/csv" None None ∅
    = (Ret (25000000, 76), fs') /\
    sizes fs' = one_segment_per_page /\
    size fs' = 76%nat.
Proof.
  destruct (export_to_csv_sizes grid_origin one_point (numbered_session 125)
              "map_ne.csv" "/out/csv" None None ∅ eq_refl) as (fs' & Hrun & Hsizes).
  cbn [int_or] in Hrun, Hsizes.
  rewrite page_sizes_numbered_session in Hrun, Hsizes by lia.
  unfold sizes in Hsizes at 2. rewrite fmap_empty in Hsizes.
  unfold sizes in Hrun at 1. rewrite fmap_empty in Hrun.
  exists fs'.
  assert (Heval : export_sizes (repeat 200000 125) "map_ne.csv" "/out/csv" 10000000 ∅
                  = (25000000, 76, one_segment_per_page)).
  { vm_compute. reflexivity. }
  rewrite Heval in Hrun, Hsizes. cbn [fst snd] in Hrun, Hsizes.
  split; [exact Hrun|]. split; [exact Hsizes|].
  rewrite <- (map_size_fmap len fs'). fold (sizes fs'). rewrite Hsizes.
  vm_compute. reflexivity.
Qed.

(** *** Exactly as many rows as the threshold *)

Lemma page_sizes_nonneg {coord} (decode : string -> coord * coord) points pages :
  Forall (fun n => 0 <= n) (page_sizes decode points pages).
Proof.
  induction pages as [|rows later IH]; [constructor|].
  destruct rows; cbn [page_sizes]; constructor; [unfold len; lia|exact IH].
Qed.

(** Below the threshold the loop only adds lines to the current file. *)
Lemma sizes_loop_below csv_dir orig_filename file_limit l :
  forall result_rows file_count file_rows file_path (fs : sizefs) v,
  Forall (fun n => 0 <= n) l ->
  result_rows + total l < file_limit ->
  fs !! file_path = Some v ->
  sizes_loop csv_dir orig_filename file_limit l
    result_rows file_count file_rows file_path fs
  = (result_rows + total l, file_count, file_rows + total l, file_path,
     <[file_path := v + total l]> fs).
Proof.
  induction l as [|n l IH]; intros rr fc fr fp fs v Hpos Hlt Hfp.
  - cbn. rewrite !Z.add_0_r, insert_id by assumption. reflexivity.
  - apply Forall_cons in Hpos as [Hn Hpos]. cbn [total foldr] in *. fold (total l) in *.
    assert (Htot : 0 <= total l).
    { clear -Hpos. induction Hpos; cbn; [lia|]. fold (total l). lia. }
    cbn [sizes_loop]. rewrite Hfp. cbn [default id].
    destruct (decide (rr + n >= file_limit)) as [Hge|_]; [lia|].
    rewrite (IH _ _ _ _ _ (v + n)) by (assumption || lia || apply lookup_insert_eq).
    rewrite insert_insert_eq, <- !Z.add_assoc. reflexivity.
Qed.

Lemma sizes_loop_app csv_dir orig_filename file_limit l1 l2 :
  forall result_rows file_count file_rows file_path fs,
  sizes_loop csv_dir orig_filename file_limit (l1 ++ l2)
    result_rows file_count file_rows file_path fs
  = let '(rr, fc, fr, fp, fs') :=
      sizes_loop csv_dir orig_filename file_limit l1
        result_rows file_count file_rows file_path fs in
    sizes_loop csv_dir orig_filename file_limit l2 rr fc fr fp fs'.
Proof.
  induction l1 as [|n l1 IH]; intros rr fc fr fp fs; [reflexivity|].
  cbn [app sizes_loop]. destruct (decide _); apply IH.
Qed.

(** The part of C1 about a table that gives exactly 10,000,000 lines:
    whatever the pages are, if the last page read brings the total to
    the threshold, the export returns one file, under the original
    name, holding all the lines. *)
Lemma export_to_csv_exact_threshold {coord}
    (decode : string -> coord * coord) points session earlier last_page :
  page_sizes decode points (session 200000) = earlier ++ [last_page] ->
  0 < last_page ->
  total earlier + last_page = 10000000 ->
  exists fs',
    export_to_csv decode points session "map_ne.csv" "/out/csv" None None ∅
    = (Ret (10000000, 1), fs') /\
    sizes fs' = {["/out/csv/map_ne.csv" := 10000000]}.
Proof.
  intros Hpages Hlast Htotal.
  destruct (export_to_csv_sizes decode points session
              "map_ne.csv" "/out/csv" None None ∅ eq_refl) as (fs' & Hrun & Hsizes).
  cbn [int_or] in Hrun, Hsizes. rewrite Hpages in Hrun, Hsizes.
  pose proof (page_sizes_nonneg decode points (session 200000)) as Hpos.
  rewrite Hpages in Hpos. apply Forall_app in Hpos as [Hpos _].
  assert (Heval : export_sizes (earlier ++ [last_page]) "map_ne.csv" "/out/csv"
                    10000000 (sizes ∅)
                  = (10000000, 1, {["/out/csv/map_ne.csv" := 10000000]})).
  { unfold export_sizes, sizes. rewrite fmap_empty, sizes_loop_app.
    change (path_join "/out/csv" "map_ne.csv") with "/out/csv/map_ne.csv".
    rewrite (sizes_loop_below _ _ _ earlier _ _ _ _ _ 0)
      by (assumption || lia || apply lookup_insert_eq).
    cbn [sizes_loop]. rewrite lookup_insert_eq. cbn [default].
    rewrite decide_True by lia. rewrite decide_True by reflexivity.
    rewrite decide_False by lia. rewrite !insert_insert_eq.
    change (path_join "/out/csv" (serial_filename "map_ne.csv" (1 + 1)))
      with "/out/csv/submap_ne_0002.csv".
    rewrite delete_insert_eq, delete_insert_ne, delete_empty by discriminate.
    rewrite insert_empty. cbn [id].
    replace (0 + total earlier + last_page) with 10000000 by lia. reflexivity. }
  rewrite Heval in Hrun, Hsizes. eauto.
Qed.

(** ** Quadtree merges *)

Lemma occurrences_app p l1 l2 :
  occurrences p (l1 ++ l2) = (occurrences p l1 + occurrences p l2)%nat.
Proof. unfold occurrences. rewrite List.filter_app, length_app. reflexivity. Qed.

Lemma occurrences_not_in p l : p ∉ l -> occurrences p l = 0%nat.
Proof.
  unfold occurrences. induction l as [|q l IH]; intros Hp; [reflexivity|].
  apply not_elem_of_cons in Hp as [Hne Hp]. cbn [List.filter].
  rewrite bool_decide_eq_false_2 by congruence. apply IH, Hp.
Qed.

(** In a list without repetition, a point that occurs, occurs once. *)
Lemma occurrences_NoDup p l : NoDup l -> p ∈ l -> occurrences p l = 1%nat.
Proof.
  induction 1 as [|q l Hq Hnd IH]; intros Hp.
  - apply elem_of_nil in Hp. contradiction.
  - change (q :: l) with ([q] ++ l). rewrite occurrences_app.
    apply elem_of_cons in Hp as [->|Hp].
    + rewrite (occurrences_not_in q l Hq). unfold occurrences. cbn.
      rewrite bool_decide_eq_true_2 by reflexivity. reflexivity.
    + rewrite (IH Hp). unfold occurrences. cbn.
      rewrite bool_decide_eq_false_2; [reflexivity|]. intros ->. contradiction.
Qed.

(** Merging without duplicate removal adds up the occurrences. *)
Lemma occurrences_points_of p files trees :
  occurrences p (points_of files trees)
  = sum_list (map (fun f => occurrences p (default [] (trees !! f))) files).
Proof.
  unfold points_of. induction files as [|f files IH]; [reflexivity|].
  cbn [map concat sum_list sum_list_with]. rewrite occurrences_app, IH. reflexivity.
Qed.

Lemma elem_of_points_of p f files trees :
  f ∈ files -> p ∈ default [] (trees !! f) -> p ∈ points_of files trees.
Proof.
  intros Hf Hp. unfold points_of. apply list_elem_of_In, in_concat.
  exists (default [] (trees !! f)). split; [|apply list_elem_of_In; assumption].
  apply (in_map (fun f => default [] (trees !! f))), list_elem_of_In. exact Hf.
Qed.

(** What [glob] finds is there. *)
Lemma all_exist_q_glob pattern trees : all_exist (q_glob pattern trees) trees = true.
Proof.
  unfold all_exist, q_glob. apply forallb_forall. intros f Hf.
  apply List.filter_In in Hf as [Hf _]. apply in_map_iff in Hf as ([f' v] & <- & Hv).
  apply list_elem_of_In, elem_of_map_to_list in Hv. cbn [fst].
  apply bool_decide_eq_true_2. eauto.
Qed.

(** [merge_quadtrees] with the codec tools. *)
Lemma merge_quadtrees_on_q_host quadtree_dir shapes_dir remove_duplicates pattern w :
  let files := q_glob (path_join quadtree_dir pattern) (q_trees w) in
  files <> [] ->
  merge_quadtrees q_host quadtree_dir shapes_dir remove_duplicates pattern w
  = (Ret tt,
     QWorld (q_clock w) (q_ticks w) (q_csvs w)
       (<[shapes_dir :=
            if remove_duplicates then remove_dups (points_of files (q_trees w))
            else points_of files (q_trees w)]> (q_trees w))
       (q_dirs w)
       (q_cmds w ++ ["merge" :: (if remove_duplicates then ["-u"] else [])
                       ++ "-o" :: shapes_dir :: files])).
Proof.
  intros files Hfiles. unfold merge_quadtrees, bind. cbn [q_host os_glob os_run].
  fold files. destruct files as [|f rest] eqn:Hf; [congruence|]. rewrite <- Hf.
  pose proof (all_exist_q_glob (path_join quadtree_dir pattern) (q_trees w)) as Hall.
  fold files in Hall. rewrite Hf in Hall.
  unfold q_run, merge_cmd.
  destruct remove_duplicates; cbn [app q_log_cmd q_trees q_cmds];
    rewrite Hf; rewrite Hall; reflexivity.
Qed.

(** C6. Merge duplicate policy, with the codec tools behaving as their
    invocation contract says.  The merge job queued for a shard with
    intermediate quadtrees runs [merge -o <map dir> <intermediates>],
    without [-u]: the shard quadtree holds every point as many times
    as the intermediates hold it together, so a point that is in two
    intermediate segments is in it twice.  The merge that [generate]
    runs is [merge -u -o <shapes dir> <shard quadtrees>]: the global
    quadtree has no point twice, and every point of any shard quadtree
    is in it exactly once.  On the example folder the point [p], which
    is in both segments of one shard and in a second shard, is twice
    in that shard's quadtree and once in the global one. *)
Theorem merge_duplicate_policy :
  (forall (w : qworld) (quadtree_dir shard : string),
     let submap_dir := path_join quadtree_dir ("submap_" +:+ shard) in
     let map_dir := path_join quadtree_dir ("map_" +:+ shard) in
     let files := q_glob (path_join submap_dir "submap*") (q_trees w) in
     files <> [] ->
     exists w',
       shard_merge_job q_host quadtree_dir shard w = (Ret tt, w') /\
       q_cmds w' = q_cmds w ++ ["merge" :: "-o" :: map_dir :: files] /\
       q_trees w' !! map_dir = Some (points_of files (q_trees w)) /\
       forall p,
         occurrences p (points_of files (q_trees w))
         = sum_list (map (fun f => occurrences p (default [] (q_trees w !! f))) files)) /\
  (forall (w : qworld) (quadtree_dir shapes_dir : string),
     let files := q_glob (path_join quadtree_dir "map*") (q_trees w) in
     files <> [] ->
     exists w' merged,
       merge_all_quadtrees q_host quadtree_dir shapes_dir w = (Ret tt, w') /\
       q_cmds w' = q_cmds w ++ ["merge" :: "-u" :: "-o" :: shapes_dir :: files] /\
       q_trees w' !! shapes_dir = Some merged /\
       NoDup merged /\
       forall p f, f ∈ files -> p ∈ default [] (q_trees w !! f) ->
                   occurrences p merged = 1%nat) /\
  (let w1 := snd (csv_to_quadtrees q_host "/out/csv" "/out/quadtrees" example_qworld) in
   let w2 := snd (merge_all_quadtrees q_host "/out/quadtrees" "/out/shapes" w1) in
   occurrences "p" (default [] (q_trees w1 !! "/out/quadtrees/map_ne")) = 2%nat /\
   occurrences "p" (default [] (q_trees w2 !! "/out/shapes")) = 1%nat /\
   List.filter (fun cmd => bool_decide (hd "" cmd = "merge")) (q_cmds w2)
   = [["merge"; "-o"; "/out/quadtrees/map_ne";
       "/out/quadtrees/submap_ne/submap_ne_0001";
       "/out/quadtrees/submap_ne/submap_ne_0002"];
      ["merge"; "-u"; "-o"; "/out/shapes";
       "/out/quadtrees/map_sw"; "/out/quadtrees/map_ne"]]).
Proof.
  split; [|split].
  - intros w quadtree_dir shard submap_dir map_dir files Hfiles.
    eexists. split; [apply merge_quadtrees_on_q_host; exact Hfiles|].
    cbn [q_cmds q_trees app]. fold submap_dir map_dir files.
    split; [reflexivity|]. split; [apply lookup_insert_eq|].
    intros p. apply occurrences_points_of.
  - intros w quadtree_dir shapes_dir files Hfiles.
    eexists _, _. split; [apply merge_quadtrees_on_q_host; exact Hfiles|].
    cbn [q_cmds q_trees app]. fold files.
    split; [reflexivity|]. split; [apply lookup_insert_eq|].
    split; [apply NoDup_remove_dups|].
    intros p f Hf Hp. apply occurrences_NoDup; [apply NoDup_remove_dups|].
    apply elem_of_remove_dups. eapply elem_of_points_of; eassumption.
  - vm_compute. repeat split; reflexivity.
Qed.

(** On the example folder with its CSV files encoded. *)
Lemma merge_duplicate_policy_witness :
  let files := q_glob "/out/quadtrees/submap_ne/submap*"
                 (q_trees example_encoded_qworld) in
  exists w',
    shard_merge_job q_host "/out/quadtrees" "ne" example_encoded_qworld = (Ret tt, w') /\
    q_cmds w' = [] ++ ["merge" :: "-o" :: "/out/quadtrees/map_ne" :: files] /\
    q_trees w' !! "/out/quadtrees/map_ne"
      = Some (points_of files (q_trees example_encoded_qworld)) /\
    forall p,
      occurrences p (points_of files (q_trees example_encoded_qworld))
      = sum_list (map (fun f => occurrences p
                                  (default [] (q_trees example_encoded_qworld !! f)))
                    files).
Proof.
  apply (proj1 merge_duplicate_policy example_encoded_qworld "/out/quadtrees" "ne").
  vm_compute. discriminate.
Defined.

(** ** More on the executor *)

Lemma progress_counts_app l1 l2 :
  progress_counts (l1 ++ l2) = progress_counts l1 ++ progress_counts l2.
Proof. unfold progress_counts. apply flat_map_app. Qed.

(** What awaiting a job leaves in the log holds no progress report. *)
Lemma expected_no_progress sc h rv n o :
  progress_counts (snd (expected sc h rv n [o])) = [] /\
  forall total, Forall (progress_fraction_ok total) (snd (expected sc h rv n [o])).
Proof.
  destruct o, sc, h, rv; cbn; split; try reflexivity; intros;
    repeat constructor.
Qed.

(** The progress reports of the loop: their counts ascend strictly,
    lie between the jobs done at entry and the jobs of the batch, and
    come with the fraction [done / total]. *)
Lemma watch_loop_progress sc h rv progress_seconds os :
  forall n start total last jc w,
  let '(r, w') :=
    watch_loop read_clock (supplied sc rec_success) (supplied h rec_error)
      (Some rec_progress) (supplied rv rec_capture)
      progress_seconds start total (jobs_from n os) last jc w in
  exists ds,
    progress_counts (log w') = progress_counts (log w) ++ ds /\
    StronglySorted lt ds /\
    Forall (fun d => (jc <= d < jc + length os)%nat) ds /\
    (Forall (progress_fraction_ok total) (log w) ->
     Forall (progress_fraction_ok total) (log w')).
Proof.
  induction os as [|o os IH]; intros n start total last jc w.
  - cbn. exists []. rewrite app_nil_r. repeat split; auto; constructor.
  - cbn [jobs_from]. rewrite watch_loop_cons. cbv zeta. rewrite await_job_of.
    set (ticked := Qltb _ _). set (last' := if ticked then _ else last).
    set (w1 := if ticked then _ else _).
    destruct (expected_no_progress sc h rv n o) as [Hnone Hfrac].
    assert (Hw1 : exists d1,
               progress_counts (log w1) = progress_counts (log w) ++ d1 /\
               (d1 = [] \/ d1 = [jc]) /\
               (Forall (progress_fraction_ok total) (log w) ->
                Forall (progress_fraction_ok total) (log w1))).
    { subst w1. destruct ticked; cbn [log].
      - exists [jc]. rewrite progress_counts_app. cbn. split; [reflexivity|].
        split; [auto|]. intros H. apply Forall_app. split; [exact H|].
        repeat constructor.
      - exists []. rewrite app_nil_r. split; [reflexivity|]. split; [left; reflexivity|].
        intros H; exact H. }
    destruct Hw1 as (d1 & Hd1 & Hd1' & Hf1).
    destruct (fst (expected sc h rv n [o])) as [[]|e] eqn:Hr.
    + specialize (IH (S n) start total last' (S jc)
                    (World (clock w1) (ticks w1)
                       (log w1 ++ snd (expected sc h rv n [o])))).
      destruct (watch_loop _ _ _ _ _ _ _ _ _ _ _ _) as [r w'].
      destruct IH as (ds & Hds & Hsorted & Hrange & Hfr).
      cbn [log] in Hds, Hfr. rewrite progress_counts_app, Hnone, app_nil_r, Hd1 in Hds.
      exists (d1 ++ ds). rewrite Hds, <- app_assoc. split; [reflexivity|].
      split.
      { destruct Hd1' as [->| ->]; [exact Hsorted|].
        cbn [app]. constructor; [exact Hsorted|].
        eapply Forall_impl; [exact Hrange|]. intros d Hd. cbn beta in Hd. lia. }
      split.
      { apply Forall_app. split.
        - destruct Hd1' as [->| ->]; [constructor|].
          constructor; [cbn [length]; lia|constructor].
        - eapply Forall_impl; [exact Hrange|]. intros d Hd. cbn beta in Hd.
          cbn [length]. lia. }
      intros H. apply Hfr, Forall_app. split; [apply Hf1, H|apply Hfrac].
    + cbn [log]. exists d1. rewrite progress_counts_app, Hnone, app_nil_r.
      split; [exact Hd1|]. split.
      { destruct Hd1' as [->| ->]; repeat constructor. }
      split.
      { destruct Hd1' as [->| ->]; [constructor|].
        constructor; [cbn [length]; lia|constructor]. }
      intros H. apply Forall_app. split; [apply Hf1, H|apply Hfrac].
Qed.

Lemma length_jobs_from os : forall n, length (jobs_from n os) = length os.
Proof.
  induction os as [|o os IH]; intros n; [reflexivity|]. cbn. f_equal. apply IH.
Qed.

(** A strictly ascending list of numbers between two bounds is no
    longer than the distance of the bounds. *)
Lemma sorted_lt_length ds : forall lo hi,
  StronglySorted lt ds -> Forall (fun d => (lo <= d < hi)%nat) ds ->
  (length ds <= hi - lo)%nat.
Proof.
  induction ds as [|d ds IH]; intros lo hi Hsorted Hrange; [cbn; lia|].
  apply StronglySorted_inv in Hsorted as [Hs Hall].
  apply Forall_cons in Hrange as [Hd Hrange].
  specialize (IH (S d) hi Hs). cbn [length].
  assert (length ds <= hi - S d)%nat; [|lia].
  apply IH. apply Forall_forall. intros x Hx.
  pose proof (proj1 (Forall_forall _ _) Hall x Hx).
  pose proof (proj1 (Forall_forall _ _) Hrange x Hx) as Hx'. cbn beta in Hx'. lia.
Qed.

(** X1. Progress reports.  For every batch, every clock and every
    choice of callbacks beside [on_progress]: the [done] counts passed
    to [on_progress] ascend strictly, each is smaller than the number
    of jobs, each report carries the fraction [done / total], and so
    there are at most as many reports as jobs. *)
Theorem watch_jobs_progress_reports (sc h rv : bool) (c : nat -> Q)
    (progress_seconds : Q) (os : list outcome) :
  let '(r, w') :=
    watch_jobs read_clock (jobs_from 1 os)
      (supplied sc rec_success) (supplied h rec_error) (Some rec_progress)
      (supplied rv rec_capture) progress_seconds (world0 c) in
  StronglySorted lt (progress_counts (log w')) /\
  Forall (fun d => (d < length os)%nat) (progress_counts (log w')) /\
  Forall (progress_fraction_ok (length os)) (log w') /\
  (length (progress_counts (log w')) <= length os)%nat.
Proof.
  unfold watch_jobs, with_Timer. unfold bind at 1. cbn [read_clock world0 clock ticks log].
  unfold try_finally.
  pose proof (watch_loop_progress sc h rv progress_seconds os 1 (c 0%nat)
                (length (jobs_from 1 os)) 0%Q 0%nat (World c 1 [])) as H.
  destruct (watch_loop _ _ _ _ _ _ _ _ _ _ _ _) as [r w'].
  destruct H as (ds & Hds & Hsorted & Hrange & Hfrac).
  rewrite length_jobs_from in Hfrac.
  cbv [bind read_clock ret]. cbn [log]. cbn [log progress_counts flat_map app] in Hds.
  rewrite Hds. split; [exact Hsorted|].
  assert (Hlt : Forall (fun d => (d < length os)%nat) ds).
  { eapply Forall_impl; [exact Hrange|]. intros d Hd. cbn beta in Hd. lia. }
  split; [exact Hlt|]. split; [apply Hfrac; constructor|].
  pose proof (sorted_lt_length ds 0 (length os) Hsorted) as Hbound.
  rewrite Nat.sub_0_r in Hbound. apply Hbound.
  eapply Forall_impl; [exact Hlt|]. intros d Hd. cbn beta in Hd. lia.
Qed.

(** X2. A success callback that raises.  [on_success] runs inside the
    [try] of the loop body: when the job returns and [on_success]
    raises an exception (not an interrupt), the error-tracking client
    is called if supplied and the exception goes to [on_error] if
    supplied, as if the job itself had failed; without [on_error] it is
    re-raised. *)
Theorem await_job_on_success_raises {W R} (j : job (W:=W) (R:=R))
    (on_success : R -> M W unit) (on_error : option (exn -> M W unit))
    (raven_client : option (M W unit)) (r : R) (e : exn) (w w1 w2 : W) :
  j w = (Ret r, w1) ->
  on_success r w1 = (Raise e, w2) ->
  is_Exception e = true ->
  await_job (Some on_success) on_error raven_client j w
  = bind (match raven_client with
          | Some captureException => captureException
          | None => ret tt
          end)
         (fun _ => match on_error with
                   | Some f => f e
                   | None => raise e
                   end) w2.
Proof.
  intros Hj Hs He. unfold await_job, try_except. unfold bind at 1.
  rewrite Hj, Hs. destruct e; try discriminate; reflexivity.
Qed.

(** Job 1 succeeds, the success callback raises [RuntimeError], an
    error handler is supplied: both callbacks ran for the one job. *)
Lemma await_job_on_success_raises_witness :
  await_job (Some (rec_success_then_raise (RuntimeError "boom")))
    (Some rec_error) None (job_of 1 Succeeds) (world0 (fun _ => 0%Q))
  = (Ret tt,
     World (fun _ => 0%Q) 0
       [EvGet 1; EvSuccess 1; EvError (RuntimeError "boom")]).
Proof.
  rewrite (await_job_on_success_raises (job_of 1 Succeeds)
             (rec_success_then_raise (RuntimeError "boom")) (Some rec_error) None
             1%nat (RuntimeError "boom") (world0 (fun _ => 0%Q))
             (World (fun _ => 0%Q) 0 [EvGet 1])
             (World (fun _ => 0%Q) 0 [EvGet 1; EvSuccess 1]));
    reflexivity.
Defined.

(** ** More on the shard export *)

Lemma total_nonneg l : Forall (fun n => 0 <= n) l -> 0 <= total l.
Proof. induction 1 as [|n l Hn _ IH]; cbn; [lia|]. fold (total l). lia. Qed.

Lemma pages_over_nonneg file_limit l : forall rr, 0 <= pages_over file_limit rr l.
Proof.
  induction l as [|n l IH]; intros rr; cbn [pages_over]; [lia|].
  specialize (IH (rr + n)). destruct (decide _); lia.
Qed.

(** Once the limit is reached, every page closes a file. *)
Lemma sizes_loop_over csv_dir orig_filename file_limit l :
  forall rr fc fr fp fs,
  Forall (fun n => 0 <= n) l -> rr >= file_limit ->
  let '(rr', fc', fr', _, _) :=
    sizes_loop csv_dir orig_filename file_limit l rr fc fr fp fs in
  rr' = rr + total l /\ fc' = fc + len l /\
  pages_over file_limit rr l = len l /\
  fr' = match l with [] => fr | _ => 0 end.
Proof.
  induction l as [|n l IH]; intros rr fc fr fp fs Hpos Hover.
  - cbn. unfold len. cbn. repeat split; lia.
  - apply Forall_cons in Hpos as [Hn Hpos].
    cbn [sizes_loop pages_over total foldr]. fold (total l).
    rewrite !decide_True by lia.
    specialize (IH (rr + n) (fc + 1) 0
                  (path_join csv_dir (serial_filename orig_filename (fc + 1)))
                  (<[path_join csv_dir (serial_filename orig_filename (fc + 1)) := 0]>
                     (<[fp := default 0 (fs !! fp) + n]> fs))
                  Hpos ltac:(lia)).
    destruct (sizes_loop _ _ _ _ _ _ _ _ _) as [[[[rr' fc'] fr'] fp'] fs'].
    destruct IH as (-> & -> & -> & ->).
    unfold len. cbn [length]. repeat split; try lia.
    destruct l; reflexivity.
Qed.

(** The counters at the end of the loop. *)
Lemma sizes_loop_counters csv_dir orig_filename file_limit l :
  forall rr fc fr fp fs,
  Forall (fun n => 0 <= n) l ->
  let '(rr', fc', fr', _, _) :=
    sizes_loop csv_dir orig_filename file_limit l rr fc fr fp fs in
  rr' = rr + total l /\
  fc' = fc + pages_over file_limit rr l /\
  (pages_over file_limit rr l = 0 -> fr' = fr + total l) /\
  (pages_over file_limit rr l > 0 -> fr' = 0).
Proof.
  induction l as [|n l IH]; intros rr fc fr fp fs Hpos.
  - cbn. repeat split; lia.
  - apply Forall_cons in Hpos as [Hn Hpos].
    cbn [sizes_loop pages_over total foldr]. fold (total l).
    destruct (decide (rr + n >= file_limit)) as [Hover|Hunder].
    + pose proof (sizes_loop_over csv_dir orig_filename file_limit l (rr + n) (fc + 1) 0
                    (path_join csv_dir (serial_filename orig_filename (fc + 1)))
                    (<[path_join csv_dir (serial_filename orig_filename (fc + 1)) := 0]>
                       (<[fp := default 0 (fs !! fp) + n]> fs)) Hpos Hover) as H.
      destruct (sizes_loop _ _ _ _ _ _ _ _ _) as [[[[rr' fc'] fr'] fp'] fs'].
      destruct H as (-> & -> & -> & ->).
      unfold len. repeat split; try lia. intros _. destruct l; reflexivity.
    + specialize (IH (rr + n) fc (fr + n) fp (<[fp := default 0 (fs !! fp) + n]> fs) Hpos).
      destruct (sizes_loop _ _ _ _ _ _ _ _ _) as [[[[rr' fc'] fr'] fp'] fs'].
      destruct IH as (-> & -> & Hzero & Hposit).
      repeat split; try lia.
Qed.

(** X3. Rows and files returned by the export.  For any table, any
    page size and any limits, an export to a file name ending in
    [.csv] returns as row count the number of lines of all pages read,
    and as file count: the number of pages read from the page on that
    brought the row count to the limit, if there is one; else 1 if
    there are lines, and 0 if there are none. *)
Theorem export_to_csv_counts {coord} (decode : string -> coord * coord)
    (points : coord -> coord -> Z -> list string)
    (session : Z -> list (list row)) (filename csv_dir : string)
    (row_limit file_limit : option Z) (fs : csvfs) :
  str_endswith ".csv" filename = true ->
  let lines_per_page := page_sizes decode points (session (int_or row_limit 200000)) in
  let over := pages_over (int_or file_limit 10000000) 0 lines_per_page in
  exists fs',
    export_to_csv decode points session filename csv_dir row_limit file_limit fs
    = (Ret (total lines_per_page,
            if decide (over > 0) then over
            else if decide (total lines_per_page = 0) then 0 else 1), fs').
Proof.
  intros Hcsv lines_per_page over.
  destruct (export_to_csv_sizes decode points session filename csv_dir
              row_limit file_limit fs Hcsv) as (fs' & Hrun & _).
  exists fs'. rewrite Hrun. clear Hrun. fold lines_per_page. unfold export_sizes.
  pose proof (sizes_loop_counters csv_dir filename (int_or file_limit 10000000)
                lines_per_page 0 1 0 (path_join csv_dir filename)
                (<[path_join csv_dir filename := 0]> (sizes fs))
                (page_sizes_nonneg decode points _)) as H.
  destruct (sizes_loop _ _ _ _ _ _ _ _ _) as [[[[rr fc] fr] fp] sfs].
  destruct H as (-> & -> & Hzero & Hposit). fold over in Hzero, Hposit |- *.
  pose proof (pages_over_nonneg (int_or file_limit 10000000) lines_per_page 0) as Hnn.
  fold over in Hnn. rewrite !Z.add_0_l in *.
  destruct (decide (over > 0)) as [Hover|Hnone].
  - rewrite (Hposit Hover). rewrite decide_True by reflexivity.
    destruct (decide (1 + over - 1 > 1)); cbn [fst]; repeat f_equal; lia.
  - assert (over = 0) as Hov by lia. rewrite (Hzero Hov), Hov.
    destruct (decide (total lines_per_page = 0)) as [Ht|Ht].
    + destruct (decide (1 + 0 - 1 > 1)); [lia|]. cbn [fst]. reflexivity.
    + destruct (decide (1 + 0 > 1)); [lia|]. reflexivity.
Qed.

(** On [small_session], three lines under a limit of two: the first
    page reaches the limit, so both pages close a file. *)
Lemma export_to_csv_counts_witness :
  exists fs',
    export_to_csv grid_origin num_points small_session "map_ne.csv" "/out/csv"
      (Some 2) (Some 2) ∅
    = (Ret (3, 2), fs').
Proof.
  apply (export_to_csv_counts grid_origin num_points small_session
           "map_ne.csv" "/out/csv" (Some 2) (Some 2) ∅ eq_refl).
Defined.

(** Below the limit, the loop only appends lines to the open file. *)
Lemma export_loop_below {coord} (decode : string -> coord * coord) points
    csv_dir orig_filename file_limit pages :
  forall rr fc fr fp (fs : csvfs) written,
  rr + total (page_sizes decode points pages) < file_limit ->
  fs !! fp = Some written ->
  export_loop decode points csv_dir orig_filename file_limit pages rr fc fr fp fs
  = (Ret (rr + total (page_sizes decode points pages), fc,
          fr + total (page_sizes decode points pages), fp),
     <[fp := written ++ fetched_lines decode points pages]> fs).
Proof.
  induction pages as [|rows later IH]; intros rr fc fr fp fs written Hlt Hfp.
  - cbn. rewrite !Z.add_0_r, app_nil_r, insert_id by assumption. reflexivity.
  - destruct rows as [|r rows].
    + cbn. rewrite !Z.add_0_r, app_nil_r, insert_id by assumption. reflexivity.
    + cbn [export_loop page_sizes fetched_lines total foldr] in *.
      fold (total (page_sizes decode points later)) in *.
      set (lines := page_lines decode points (r :: rows)) in *.
      pose proof (total_nonneg _ (page_sizes_nonneg decode points later)) as Hnn.
      unfold bind at 1. unfold writelines at 1. rewrite Hfp. cbn [default].
      destruct (decide (rr + len lines >= file_limit)) as [Hge|_]; [lia|].
      rewrite (IH _ _ _ _ _ (written ++ lines)) by (lia || apply lookup_insert_eq).
      rewrite insert_insert_eq, <- !Z.add_assoc, <- app_assoc. reflexivity.
Qed.

(** X4. An export below the limit.  If the pages read hold some lines,
    fewer than the file-row limit, the export returns their number and
    one file, and leaves under the original name a file with exactly
    these lines in the order read, replacing whatever was there; no
    other file is touched. *)
Theorem export_to_csv_below_limit {coord} (decode : string -> coord * coord)
    (points : coord -> coord -> Z -> list string)
    (session : Z -> list (list row)) (filename csv_dir : string)
    (row_limit file_limit : option Z) (fs : csvfs) :
  str_endswith ".csv" filename = true ->
  let pages := session (int_or row_limit 200000) in
  0 < total (page_sizes decode points pages) < int_or file_limit 10000000 ->
  export_to_csv decode points session filename csv_dir row_limit file_limit fs
  = (Ret (total (page_sizes decode points pages), 1),
     <[path_join csv_dir filename := fetched_lines decode points pages]> fs).
Proof.
  intros Hcsv pages Htotal. unfold export_to_csv. rewrite Hcsv. cbn [negb].
  unfold bind at 1. unfold open_w at 1. unfold bind at 1. fold pages.
  rewrite (export_loop_below decode points _ _ _ pages _ _ _ _ _ [])
    by (lia || apply lookup_insert_eq).
  rewrite !Z.add_0_l, insert_insert_eq. cbn [app].
  unfold bind, ret. rewrite decide_False by lia. rewrite decide_False by lia.
  reflexivity.
Qed.

(** On [small_session] under the default limits. *)
Lemma export_to_csv_below_limit_witness :
  export_to_csv grid_origin num_points small_session "map_ne.csv" "/out/csv"
    None None ∅
  = (Ret (3, 1),
     <["/out/csv/map_ne.csv" := ["0.0,0.0"; "0.0,0.0"; "0.0,0.0"]]> ∅).
Proof.
  apply (export_to_csv_below_limit grid_origin num_points small_session
           "map_ne.csv" "/out/csv" None None ∅ eq_refl).
  vm_compute. split; reflexivity.
Defined.

(** X5. An export without lines.  If the pages read hold no line at
    all (an empty table, or rows that all give no point) and the limit
    is positive, the export returns no row and no file, and removes
    the file it had opened: nothing is left under the original name. *)
Theorem export_to_csv_no_lines {coord} (decode : string -> coord * coord)
    (points : coord -> coord -> Z -> list string)
    (session : Z -> list (list row)) (filename csv_dir : string)
    (row_limit file_limit : option Z) (fs : csvfs) :
  str_endswith ".csv" filename = true ->
  total (page_sizes decode points (session (int_or row_limit 200000))) = 0 ->
  0 < int_or file_limit 10000000 ->
  export_to_csv decode points session filename csv_dir row_limit file_limit fs
  = (Ret (0, 0), base.delete (path_join csv_dir filename) fs).
Proof.
  intros Hcsv Htotal Hlimit. unfold export_to_csv. rewrite Hcsv. cbn [negb].
  unfold bind at 1. unfold open_w at 1. unfold bind at 1.
  rewrite (export_loop_below decode points _ _ _ _ _ _ _ _ _ [])
    by (lia || apply lookup_insert_eq).
  rewrite Htotal, !Z.add_0_l, insert_insert_eq.
  unfold bind, ret, os_remove. rewrite decide_True by reflexivity.
  rewrite decide_False by lia. rewrite delete_insert_eq. reflexivity.
Qed.

(** On a table without rows, with a stale file in the folder. *)
Lemma export_to_csv_no_lines_witness :
  export_to_csv grid_origin num_points (fun _ => []) "map_ne.csv" "/out/csv"
    None None (<["/out/csv/map_ne.csv" := ["stale"]]> ∅)
  = (Ret (0, 0),
     base.delete "/out/csv/map_ne.csv" (<["/out/csv/map_ne.csv" := ["stale"]]> ∅)).
Proof.
  apply (export_to_csv_no_lines grid_origin num_points (fun _ => [])
           "map_ne.csv" "/out/csv" None None
           (<["/out/csv/map_ne.csv" := ["stale"]]> ∅) eq_refl eq_refl).
  reflexivity.
Defined.

(** ** More on the remote inventory *)

Lemma get_current_objects_loop_chain list_objects_v2 bucket_name bucket_prefix
    token pages :
  listing_chain list_objects_v2 bucket_name bucket_prefix token pages ->
  forall fuel objects, (length pages <= fuel)%nat ->
  get_current_objects_loop list_objects_v2 fuel bucket_name bucket_prefix objects token
  = Some (Ret (add_pages bucket_prefix pages objects)).
Proof.
  induction 1 as [token contents Hc Ht|token contents next later Hc Ht Hn _ IH];
    intros fuel objects Hfuel.
  - destruct fuel as [|fuel]; [cbn in Hfuel; lia|].
    cbn [get_current_objects_loop]. rewrite Hc, Ht. reflexivity.
  - destruct fuel as [|fuel]; [cbn in Hfuel; lia|].
    cbn [get_current_objects_loop]. rewrite Hc, Ht, Hn.
    apply IH. cbn [length] in Hfuel. lia.
Qed.

(** X6. Following the continuation tokens.  If the listing of the
    prefix is a chain of pages, every page but the last truncated and
    naming the token of the next, then with fuel for as many pages the
    inventory fetch returns, and its result is the inventory built
    from the pages in their order, starting from the empty one. *)
Theorem get_current_objects_pages
    (list_objects_v2 : string -> string -> option string -> response)
    (bucket_name bucket_prefix : string) (pages : list (list metadata)) (fuel : nat) :
  listing_chain list_objects_v2 bucket_name bucket_prefix None pages ->
  (length pages <= fuel)%nat ->
  get_current_objects list_objects_v2 fuel bucket_name bucket_prefix
  = Some (Ret (add_pages bucket_prefix pages ∅)).
Proof.
  intros Hchain Hfuel. unfold get_current_objects.
  apply get_current_objects_loop_chain; assumption.
Qed.

(** On [example_listing]. *)
Lemma get_current_objects_pages_witness :
  get_current_objects example_listing 2 "bucket" "tiles/"
  = Some (Ret (add_pages "tiles/"
                 [[Metadata "tiles/0/0/0.png" (String dquote ("abc" +:+ String dquote "")) 10;
                   Metadata "tiles/data.json" "x" 3];
                  [Metadata "tiles/1/0/0.png" "def" 5]] ∅)).
Proof.
  apply (get_current_objects_pages example_listing "bucket" "tiles/").
  - eapply chain_more; [reflexivity|reflexivity|reflexivity|].
    apply chain_last; reflexivity.
  - cbn. lia.
Defined.

(** Where the entries of the inventory built from a page come from:
    every entry either was there before, or comes from an object of
    the page whose key ends in [.png]. *)
Lemma add_objects_origin (bucket_prefix : string) (contents : list metadata)
    (objects : inventory) (name : string) (size : Z) (md5 : string) :
  add_objects bucket_prefix contents objects !! name = Some (size, md5) ->
  objects !! name = Some (size, md5) \/
  exists metadata,
    metadata ∈ contents /\
    str_endswith ".png" (Key metadata) = true /\
    name = str_drop (String.length bucket_prefix) (Key metadata) /\
    size = Size metadata /\
    md5 = str_strip dquote (ETag metadata).
Proof.
  unfold add_objects. revert objects.
  induction contents as [|metadata contents IH]; intros objects Hlookup.
  - left. exact Hlookup.
  - cbn [fold_left] in Hlookup. apply IH in Hlookup as [Hobj|(m & Hm & Hrest)].
    + destruct (str_endswith ".png" (Key metadata)) eqn:Hpng; [|left; exact Hobj].
      apply lookup_insert_Some in Hobj as [[<- [= <- <-]]|[_ Hobj]];
        [|left; exact Hobj].
      right. exists metadata. split; [left|]. auto.
    + right. exists m. split; [right; exact Hm|exact Hrest].
Qed.

(** A name that no [.png] object of the page has is left as it was,
    present or absent. *)
Lemma add_objects_kept (bucket_prefix : string) (contents : list metadata)
    (name : string) : forall objects : inventory,
  (forall metadata, metadata ∈ contents ->
     str_endswith ".png" (Key metadata) = true ->
     str_drop (String.length bucket_prefix) (Key metadata) <> name) ->
  add_objects bucket_prefix contents objects !! name = objects !! name.
Proof.
  unfold add_objects.
  induction contents as [|metadata contents IH]; intros objects Hother.
  - reflexivity.
  - cbn [fold_left]. rewrite IH.
    + destruct (str_endswith ".png" (Key metadata)) eqn:Hpng; [|reflexivity].
      apply lookup_insert_ne. apply Hother; [left|exact Hpng].
    + intros m Hm. apply Hother. right. exact Hm.
Qed.

(** X7. What a page does to the inventory.  Every entry of the
    inventory built from a page either was there before, or comes from
    an object of the page whose key ends in [.png]: its name is the key
    without the first characters that the prefix has, its size the
    object's size and its hash the [ETag] without its quotes.  A name
    that no [.png] object of the page has keeps its earlier entry, or
    stays absent: objects whose key does not end in [.png], such as
    the status file, change nothing.  And every [.png] object of the
    page is in the inventory under its name afterwards, with its own
    size and hash unless a later [.png] object of the page has the
    same name: the last one wins. *)
Theorem add_objects_entries (bucket_prefix : string) (contents : list metadata)
    (objects : inventory) :
  let name_of metadata := str_drop (String.length bucket_prefix) (Key metadata) in
  let is_png metadata := str_endswith ".png" (Key metadata) in
  let result := add_objects bucket_prefix contents objects in
  (forall name size md5,
     result !! name = Some (size, md5) ->
     objects !! name = Some (size, md5) \/
     exists metadata,
       metadata ∈ contents /\ is_png metadata = true /\ name = name_of metadata /\
       size = Size metadata /\ md5 = str_strip dquote (ETag metadata)) /\
  (forall name,
     (forall metadata, metadata ∈ contents -> is_png metadata = true ->
        name_of metadata <> name) ->
     result !! name = objects !! name) /\
  (forall before metadata after,
     contents = before ++ metadata :: after ->
     is_png metadata = true ->
     (forall later, later ∈ after -> is_png later = true ->
        name_of later <> name_of metadata) ->
     result !! name_of metadata
     = Some (Size metadata, str_strip dquote (ETag metadata))).
Proof.
  intros name_of is_png result. split; [|split].
  - intros name size md5. apply add_objects_origin.
  - intros name. apply add_objects_kept.
  - intros before metadata after -> Hpng Hlater.
    subst result. unfold add_objects. rewrite fold_left_app. cbn [fold_left].
    subst is_png. cbn beta in Hpng. rewrite Hpng.
    pose proof (add_objects_kept bucket_prefix after (name_of metadata)) as Hkept.
    unfold add_objects in Hkept. rewrite Hkept by exact Hlater.
    apply lookup_insert_eq.
Qed.

(** A page with a tile, the status file and a second object under the
    tile's name, added to an inventory that holds another tile: the
    second object wins, the other tile is kept, the status file is not
    in the inventory. *)
Lemma add_objects_entries_witness :
  let contents :=
    [Metadata "tiles/0/0/0.png" (String dquote ("abc" +:+ String dquote "")) 10;
     Metadata "tiles/data.json" "x" 3;
     Metadata "tiles/0/0/0.png" (String dquote ("def" +:+ String dquote "")) 12] in
  let objects : inventory := {[ "1/0/0.png" := (7, "old") ]} in
  let result := add_objects "tiles/" contents objects in
  result !! "0/0/0.png" = Some (12, "def") /\
  result !! "1/0/0.png" = Some (7, "old") /\
  result !! "data.json" = None.
Proof.
  intros contents objects result. subst result.
  destruct (add_objects_entries "tiles/" contents objects) as (_ & Hkept & Hadded).
  split; [|split].
  - apply (Hadded [Metadata "tiles/0/0/0.png" (String dquote ("abc" +:+ String dquote "")) 10;
                   Metadata "tiles/data.json" "x" 3]
             (Metadata "tiles/0/0/0.png" (String dquote ("def" +:+ String dquote "")) 12)
             []).
    + reflexivity.
    + reflexivity.
    + intros later Hlater. inversion Hlater.
  - rewrite (Hkept "1/0/0.png"); [reflexivity|].
    intros metadata Hm Hpng.
    repeat (apply elem_of_cons in Hm as [->|Hm]); try discriminate.
    inversion Hm.
  - rewrite (Hkept "data.json"); [reflexivity|].
    intros metadata Hm Hpng.
    repeat (apply elem_of_cons in Hm as [->|Hm]); try discriminate.
    inversion Hm.
Defined.

(** ** More on the sync planner *)

Lemma length_names_with v md5 tiles_dir objects pngs :
  length (names_with v md5 tiles_dir objects pngs)
  = length (filter (fun png => classify md5 tiles_dir objects png = v) pngs).
Proof. unfold names_with. apply length_map. Qed.

(** Every file has one of the three verdicts. *)
Lemma verdicts_partition md5 tiles_dir objects pngs :
  (length (names_with Upload md5 tiles_dir objects pngs)
   + length (names_with Update md5 tiles_dir objects pngs)
   + length (names_with Unchanged md5 tiles_dir objects pngs))%nat
  = length pngs.
Proof.
  rewrite !length_names_with.
  induction pngs as [|png pngs IH]; [reflexivity|].
  rewrite !filter_cons.
  destruct (classify md5 tiles_dir objects png);
    repeat (case_decide; try congruence); cbn [length]; lia.
Qed.

(** A file is an upload exactly if its name is not in the inventory. *)
Lemma classify_upload md5 tiles_dir (objects : inventory) png :
  classify md5 tiles_dir objects png = Upload <->
  obj_name_of tiles_dir png ∉ dom objects.
Proof.
  unfold classify. rewrite not_elem_of_dom.
  destruct (objects !! obj_name_of tiles_dir png) as [[sz h]|]; [|tauto].
  repeat case_decide; split; congruence.
Qed.

(** The files that are no uploads are as many as the inventory keys
    that some file has. *)
Lemma size_local_in_remote md5 tiles_dir (objects : inventory) pngs :
  NoDup (map (obj_name_of tiles_dir) pngs) ->
  size (dom objects ∩ list_to_set (map (obj_name_of tiles_dir) pngs) : gset string)
  = (length (names_with Update md5 tiles_dir objects pngs)
     + length (names_with Unchanged md5 tiles_dir objects pngs))%nat.
Proof.
  rewrite !length_names_with.
  induction pngs as [|png pngs IH]; intros Hnd.
  - cbn. rewrite intersection_empty_r_L. apply size_empty.
  - cbn [map] in Hnd. apply NoDup_cons in Hnd as [Hfresh Hnd].
    specialize (IH Hnd). cbn [map list_to_set]. rewrite !filter_cons.
    rewrite intersection_union_l_L.
    pose proof (classify_upload md5 tiles_dir objects png) as Hup.
    destruct (decide (obj_name_of tiles_dir png ∈ dom objects)) as [Hin|Hnin].
    + assert (Hone : dom objects ∩ {[obj_name_of tiles_dir png]}
                     = ({[obj_name_of tiles_dir png]} : gset string)).
      { apply set_eq. intros k. rewrite elem_of_intersection, elem_of_singleton.
        split; [tauto|intros ->; tauto]. }
      rewrite Hone, size_union, size_singleton, IH.
      * destruct (classify md5 tiles_dir objects png) eqn:Hv;
          repeat (case_decide; try congruence); cbn [length]; try lia.
        exfalso. apply (proj1 Hup); [reflexivity|exact Hin].
      * apply disjoint_singleton_l. rewrite elem_of_intersection, elem_of_list_to_set.
        tauto.
    + assert (Hnone : dom objects ∩ {[obj_name_of tiles_dir png]}
                      = (∅ : gset string)).
      { apply set_eq. intros k. rewrite elem_of_intersection, elem_of_singleton.
        split; [intros [Hk ->]; contradiction|intros Hk; apply elem_of_empty in Hk; tauto]. }
      rewrite Hnone, union_empty_l_L, IH.
      apply Hup in Hnin. rewrite Hnin.
      repeat (case_decide; try congruence); try reflexivity.
Qed.

Lemma length_sorted (s : gset string) : length (sorted s) = size s.
Proof.
  unfold sorted. rewrite (Permutation_length (merge_sort_Permutation _ _)).
  reflexivity.
Qed.

(** X8. The plan accounts for every file and every object.  For any
    inventory and any tile folder whose files have distinct names:
    uploads, updates and the unchanged count add up to the number of
    local files; deletes, updates and the unchanged count add up to
    the number of remote objects; no upload is in the inventory, every
    update is, and no update is deleted. *)
Theorem get_sync_actions_accounts (md5_hexdigest : string -> string)
    (tiles_dir : string) (tiles : list dir_entry) (objects : inventory) :
  let pngs := get_png_entries tiles_dir tiles in
  NoDup (map (obj_name_of tiles_dir) pngs) ->
  exists plan unchanged opened,
    get_sync_actions md5_hexdigest tiles_dir tiles objects []
      = (Ret (plan, unchanged), opened) /\
    len (upload plan) + len (update plan) + unchanged = len pngs /\
    len (delete plan) + len (update plan) + unchanged = Z.of_nat (size objects) /\
    (forall k, k ∈ upload plan -> k ∉ dom objects) /\
    (forall k, k ∈ update plan -> k ∈ dom objects /\ k ∉ delete plan).
Proof.
  intros pngs Hnd.
  eexists _, _, _. split; [apply get_sync_actions_classify; exact Hnd|].
  cbn [upload update delete]. fold pngs.
  pose proof (verdicts_partition md5_hexdigest tiles_dir objects pngs) as Hlocal.
  pose proof (size_local_in_remote md5_hexdigest tiles_dir objects pngs Hnd) as Hremote.
  assert (Hsplit : size (dom objects)
                   = (size (dom objects ∖ list_to_set (map (obj_name_of tiles_dir) pngs)
                            : gset string)
                      + size (dom objects ∩ list_to_set (map (obj_name_of tiles_dir) pngs)
                              : gset string))%nat).
  { rewrite <- size_union.
    2:{ intros k. rewrite elem_of_difference, elem_of_intersection. tauto. }
    f_equal. apply set_eq. intros k.
    rewrite elem_of_union, elem_of_difference, elem_of_intersection.
    destruct (decide (k ∈ (list_to_set (map (obj_name_of tiles_dir) pngs) : gset string)));
      tauto. }
  rewrite size_dom in Hsplit.
  assert (Hmember : forall v k,
            k ∈ names_with v md5_hexdigest tiles_dir objects pngs ->
            exists png, png ∈ pngs /\ k = obj_name_of tiles_dir png /\
                        classify md5_hexdigest tiles_dir objects png = v).
  { intros v k Hk. unfold names_with in Hk.
    apply list_elem_of_In, in_map_iff in Hk as (png & <- & Hpng).
    apply list_elem_of_In, list_elem_of_filter in Hpng as [Hv Hpng]. eauto. }
  split; [unfold len; lia|]. split.
  { unfold len. rewrite length_sorted. lia. }
  split.
  - intros k Hk. apply Hmember in Hk as (png & _ & -> & Hv).
    apply classify_upload in Hv. exact Hv.
  - intros k Hk. apply Hmember in Hk as (png & Hpng & -> & Hv).
    assert (Hin : obj_name_of tiles_dir png ∈ dom objects).
    { destruct (decide (obj_name_of tiles_dir png ∈ dom objects)) as [?|Hnin];
        [assumption|].
      apply (classify_upload md5_hexdigest tiles_dir objects png) in Hnin. congruence. }
    split; [exact Hin|].
    intros Hdel. apply sorted_spec in Hdel. apply elem_of_difference in Hdel as [_ Hdel].
    apply Hdel, elem_of_list_to_set.
    apply list_elem_of_In, in_map, list_elem_of_In. exact Hpng.
Qed.

(** On [example_tiles] and [example_inventory]. *)
Lemma get_sync_actions_accounts_witness :
  let pngs := get_png_entries "/out/tiles" example_tiles in
  exists plan unchanged opened,
    get_sync_actions example_md5 "/out/tiles" example_tiles example_inventory []
      = (Ret (plan, unchanged), opened) /\
    len (upload plan) + len (update plan) + unchanged = len pngs /\
    len (delete plan) + len (update plan) + unchanged
      = Z.of_nat (size example_inventory) /\
    (forall k, k ∈ upload plan -> k ∉ dom example_inventory) /\
    (forall k, k ∈ update plan -> k ∈ dom example_inventory /\ k ∉ delete plan).
Proof.
  apply (get_sync_actions_accounts example_md5 "/out/tiles" example_tiles
           example_inventory).
  apply (bool_decide_unpack _). vm_compute. exact I.
Defined.

(** ** Object names *)

Lemma str_app_assoc (a b c : string) : (a +:+ b) +:+ c = a +:+ (b +:+ c).
Proof.
  induction a as [|x a IH]; [reflexivity|].
  change (String x ((a +:+ b) +:+ c) = String x (a +:+ b +:+ c)).
  rewrite IH. reflexivity.
Qed.

Lemma str_app_nil_r (a : string) : a +:+ "" = a.
Proof.
  induction a as [|x a IH]; [reflexivity|].
  change (String x (a +:+ "") = String x a). rewrite IH. reflexivity.
Qed.

Lemma str_app_ne_r (a b : string) : b <> "" -> a +:+ b <> "".
Proof. intros Hb. destruct a as [|x a]; [exact Hb|discriminate]. Qed.

Lemma str_drop_app (a b : string) : str_drop (String.length a) (a +:+ b) = b.
Proof. induction a as [|x a IH]; [destruct b; reflexivity|]. exact IH. Qed.

Lemma rev_app_app (a b acc : string) :
  String.rev_app (a +:+ b) acc = String.rev_app b (String.rev_app a acc).
Proof.
  revert acc. induction a as [|x a IH]; intros acc; [reflexivity|]. apply IH.
Qed.

Lemma prefix_slash_other c s : c <> "/"%char -> String.prefix "/" (String c s) = false.
Proof.
  intros Hc.
  change (String.prefix "/" (String c s))
    with (if ascii_dec "/" c then String.prefix "" s else false).
  destruct (ascii_dec "/" c); [congruence|reflexivity].
Qed.

Lemma lstrip_slash_other c s : c <> "/"%char -> lstrip_slash (String c s) = String c s.
Proof.
  intros Hc. destruct c as [[] [] [] [] [] [] [] []]; try reflexivity. congruence.
Qed.

(** A name without slash does not end in one, whatever it is appended to. *)
Lemma rev_app_no_slash (d : string) : forall acc,
  d <> "" -> no_slash d = true -> String.prefix "/" (String.rev_app d acc) = false.
Proof.
  induction d as [|c d IH]; intros acc Hne Hns; [congruence|].
  cbn [no_slash] in Hns. destruct (decide (c = "/"%char)) as [|Hc]; [discriminate|].
  cbn [String.rev_app]. destruct d as [|c' d].
  - cbn [String.rev_app]. apply prefix_slash_other, Hc.
  - apply IH; [discriminate|exact Hns].
Qed.

Lemma simple_name_spec d :
  simple_name d = true ->
  d <> "" /\ no_slash d = true /\ str_startswith "/" d = false /\
  lstrip_slash d = d /\ forall x, str_endswith "/" (x +:+ d) = false.
Proof.
  unfold simple_name. intros H. apply andb_true_iff in H as [Hne Hns].
  apply negb_true_iff, bool_decide_eq_false in Hne.
  split; [exact Hne|]. split; [exact Hns|].
  destruct d as [|c d]; [congruence|].
  pose proof Hns as Hns'.
  cbn [no_slash] in Hns'. destruct (decide (c = "/"%char)) as [|Hc]; [discriminate|].
  split; [apply prefix_slash_other, Hc|].
  split; [apply lstrip_slash_other, Hc|].
  intros x. unfold str_endswith, String.rev. rewrite rev_app_app.
  apply rev_app_no_slash; [discriminate|exact Hns].
Qed.

(** What [os.path.join] puts between a folder and a simple name. *)
Definition join_separator (top : string) : string :=
  if decide (top = "") then "" else if str_endswith "/" top then "" else "/".

Lemma path_join_simple top d :
  simple_name d = true -> path_join top d = top +:+ join_separator top +:+ d.
Proof.
  intros Hd. apply simple_name_spec in Hd as (_ & _ & Hstart & _ & _).
  unfold path_join, join_separator. rewrite Hstart.
  destruct (decide (top = "")) as [->|_]; [reflexivity|].
  destruct (str_endswith "/" top); reflexivity.
Qed.

(** Below the root, folders are joined with a slash. *)
Lemma path_join_below top r d :
  simple_name r = true \/ (exists pre d', r = pre +:+ d' /\ simple_name d' = true) ->
  simple_name d = true ->
  path_join (top +:+ join_separator top +:+ r) d
  = top +:+ join_separator top +:+ (r +:+ "/" +:+ d).
Proof.
  intros Hr Hd. apply simple_name_spec in Hd as (_ & _ & Hstart & _ & _).
  unfold path_join. rewrite Hstart.
  assert (Hends : str_endswith "/" (top +:+ join_separator top +:+ r) = false).
  { destruct Hr as [Hr|(pre & d' & -> & Hd')].
    - apply simple_name_spec in Hr as (_ & _ & _ & _ & Hends).
      rewrite <- str_app_assoc. apply Hends.
    - apply simple_name_spec in Hd' as (_ & _ & _ & _ & Hends).
      rewrite <- !str_app_assoc. apply Hends. }
  assert (Hne : top +:+ join_separator top +:+ r <> "").
  { rewrite <- str_app_assoc.
    destruct Hr as [Hr|(pre & d' & -> & Hd')].
    - apply str_app_ne_r. apply simple_name_spec in Hr. tauto.
    - rewrite <- str_app_assoc. apply str_app_ne_r.
      apply simple_name_spec in Hd'. tauto. }
  rewrite decide_False by assumption. rewrite Hends.
  rewrite !str_app_assoc. reflexivity.
Qed.

(** The object name of a path below the root is the part after the
    root and the separator. *)
Lemma obj_name_of_below top rest content :
  lstrip_slash rest = rest ->
  obj_name_of top (DirEntry (top +:+ join_separator top +:+ rest) content) = rest.
Proof.
  intros Hrest. unfold obj_name_of. cbn [path]. rewrite str_drop_app.
  unfold join_separator. destruct (decide (top = "")); [exact Hrest|].
  destruct (str_endswith "/" top); [exact Hrest|]. cbn. exact Hrest.
Qed.

Lemma lstrip_slash_app d rest :
  simple_name d = true -> lstrip_slash (d +:+ rest) = d +:+ rest.
Proof.
  intros Hd. apply simple_name_spec in Hd as (Hne & Hns & _ & _ & _).
  destruct d as [|c d]; [congruence|].
  cbn [no_slash] in Hns. destruct (decide (c = "/"%char)) as [|Hc]; [discriminate|].
  apply (lstrip_slash_other c (d +:+ rest)), Hc.
Qed.

(** Induction on trees of folders. *)
Lemma dir_entry_induction (P : dir_entry -> Prop) :
  (forall name content, P (File name content)) ->
  (forall name entries, Forall P entries -> P (Dir name entries)) ->
  forall entry, P entry.
Proof.
  intros Hfile Hdir. fix IH 1. intros [name content|name entries].
  - apply Hfile.
  - apply Hdir. induction entries as [|entry entries IHentries]; constructor.
    + apply IH.
    + exact IHentries.
Qed.

Lemma map_flat_map {A B C} (f : B -> C) (g : A -> list B) (l : list A) :
  map f (flat_map g l) = flat_map (fun a => map f (g a)) l.
Proof.
  induction l as [|a l IH]; [reflexivity|]. cbn. rewrite map_app, IH. reflexivity.
Qed.

Lemma flat_map_ext_Forall {A B} (f g : A -> list B) (l : list A) :
  Forall (fun a => f a = g a) l -> flat_map f l = flat_map g l.
Proof. induction 1 as [|a l Ha _ IH]; [reflexivity|]. cbn. rewrite Ha, IH. reflexivity. Qed.

(** The walk below the root: [r] is the way down from the root to the
    folder walked, its last component a simple name. *)
Lemma scan_entry_below top entry :
  simple_names entry = true ->
  forall r,
  lstrip_slash r = r ->
  simple_name r = true \/ (exists pre d', r = pre +:+ d' /\ simple_name d' = true) ->
  (forall rest, lstrip_slash (r +:+ rest) = r +:+ rest) ->
  map (obj_name_of top) (scan_entry (top +:+ join_separator top +:+ r) entry)
  = relative_names (r +:+ "/") entry.
Proof.
  induction entry as [name content|name entries IH] using dir_entry_induction;
    intros Hwf r Hr Hlast Hstrip.
  - cbn [simple_names] in Hwf. cbn [scan_entry relative_names].
    destruct (str_endswith ".png" name); [|reflexivity].
    cbn [map]. rewrite path_join_below by assumption.
    rewrite obj_name_of_below by apply Hstrip.
    rewrite str_app_assoc. reflexivity.
  - cbn [simple_names] in Hwf. apply andb_true_iff in Hwf as [Hname Hsub].
    cbn [scan_entry relative_names]. rewrite map_flat_map.
    apply flat_map_ext_Forall.
    rewrite forallb_forall in Hsub.
    apply Forall_forall. intros entry Hentry.
    pose proof (proj1 (Forall_forall _ _) IH entry Hentry) as IHentry.
    rewrite path_join_below by assumption.
    rewrite (IHentry (Hsub entry (proj1 (list_elem_of_In _ _) Hentry))
               (r +:+ "/" +:+ name)).
    + rewrite !str_app_assoc. reflexivity.
    + apply Hstrip.
    + right. exists (r +:+ "/"), name. rewrite str_app_assoc. auto.
    + intros rest. rewrite !str_app_assoc. apply Hstrip.
Qed.

(** X9. Object names are relative paths.  For any root folder and any
    tree of files and folders with simple names (not empty, no slash),
    the object names that the planner computes for the [.png] files
    found by the walk are their paths relative to the root, components
    joined by slashes: the name under which a tile at
    [<root>/<zoom>/<x>/<y>.png] is compared with the inventory is
    [<zoom>/<x>/<y>.png], whether or not the root ends in a slash. *)
Theorem obj_names_are_relative_paths (tiles_dir : string) (tiles : list dir_entry) :
  forallb simple_names tiles = true ->
  map (obj_name_of tiles_dir) (get_png_entries tiles_dir tiles)
  = flat_map (relative_names "") tiles.
Proof.
  intros Hwf. unfold get_png_entries. rewrite map_flat_map.
  apply flat_map_ext_Forall. rewrite forallb_forall in Hwf.
  apply Forall_forall. intros entry Hentry.
  specialize (Hwf entry (proj1 (list_elem_of_In _ _) Hentry)).
  destruct entry as [name content|name entries].
  - cbn [simple_names] in Hwf. cbn [scan_entry relative_names].
    destruct (str_endswith ".png" name); [|reflexivity].
    cbn [map]. rewrite path_join_simple by assumption.
    rewrite obj_name_of_below; [reflexivity|].
    apply simple_name_spec in Hwf. tauto.
  - cbn [simple_names] in Hwf. apply andb_true_iff in Hwf as [Hname Hsub].
    cbn [scan_entry relative_names]. rewrite map_flat_map.
    apply flat_map_ext_Forall. rewrite forallb_forall in Hsub.
    apply Forall_forall. intros sub Hin.
    rewrite path_join_simple by assumption.
    apply scan_entry_below.
    + apply Hsub, list_elem_of_In, Hin.
    + apply simple_name_spec in Hname. tauto.
    + left. exact Hname.
    + intros rest. apply lstrip_slash_app. exact Hname.
Qed.

(** On [example_tiles] under a root written with a final slash. *)
Lemma obj_names_are_relative_paths_witness :
  map (obj_name_of "/out/tiles/") (get_png_entries "/out/tiles/" example_tiles)
  = ["0/0/0.png"; "1/1/0.png"; "1/0/0.png"].
Proof.
  apply (obj_names_are_relative_paths "/out/tiles/" example_tiles). reflexivity.
Defined.

(** ** Carrying out the plan *)

Lemma chunked_go_nonempty {A} (n : nat) : forall fuel (l : list A),
  (0 < n)%nat -> Forall (fun chunk => chunk <> []) (chunked_go fuel n l).
Proof.
  induction fuel as [|fuel IH]; intros l Hn; [constructor|].
  destruct l as [|x l]; [constructor|].
  cbn [chunked_go]. constructor; [|apply IH, Hn].
  destruct n; [lia|discriminate].
Qed.

Lemma chunked_nonempty {A} (l : list A) (n : nat) :
  Forall (fun chunk => chunk <> []) (chunked l n).
Proof.
  destruct n; [constructor|]. apply chunked_go_nonempty. lia.
Qed.

Lemma chunked_go_concat {A} (n : nat) : forall fuel (l : list A),
  (0 < n)%nat -> (length l <= fuel)%nat -> concat (chunked_go fuel n l) = l.
Proof.
  induction fuel as [|fuel IH]; intros l Hn Hfuel.
  - destruct l; [reflexivity|cbn in Hfuel; lia].
  - destruct l as [|x l]; [reflexivity|].
    cbn [chunked_go concat]. rewrite IH.
    + apply take_drop.
    + exact Hn.
    + rewrite length_drop. cbn [length] in *. lia.
Qed.

(** The batches of a list, one after the other, are the list. *)
Lemma chunked_concat {A} (l : list A) (n : nat) :
  (0 < n)%nat -> concat (chunked l n) = l.
Proof.
  intros Hn. destruct n; [lia|]. apply chunked_go_concat; lia.
Qed.

Lemma gained_app key os1 os2 : gained key (os1 ++ os2) = gained key os1 + gained key os2.
Proof.
  induction os1 as [|[[k c]|e] os1 IH]; cbn [gained app]; lia.
Qed.

Lemma raised_app os1 os2 : raised (os1 ++ os2) = raised os1 + raised os2.
Proof.
  induction os1 as [|[[k c]|e] os1 IH]; cbn [raised app]; lia.
Qed.

Lemma tallied_add result key new changed deleted failed value count :
  tallied result new changed deleted failed ->
  result !! key = Some value ->
  tallied (<[key := value + count]> result)
    (new + if decide (key = "tile_new") then count else 0)
    (changed + if decide (key = "tile_changed") then count else 0)
    (deleted + if decide (key = "tile_deleted") then count else 0)
    (failed + if decide (key = "tile_failed") then count else 0).
Proof.
  intros (Hn & Hc & Hd & Hf) Hkey. unfold tallied.
  repeat split.
  - destruct (decide (key = "tile_new")) as [->|Hne].
    + rewrite lookup_insert_eq. congruence.
    + rewrite lookup_insert_ne by exact Hne. rewrite Hn, Z.add_0_r. reflexivity.
  - destruct (decide (key = "tile_changed")) as [->|Hne].
    + rewrite lookup_insert_eq. congruence.
    + rewrite lookup_insert_ne by exact Hne. rewrite Hc, Z.add_0_r. reflexivity.
  - destruct (decide (key = "tile_deleted")) as [->|Hne].
    + rewrite lookup_insert_eq. congruence.
    + rewrite lookup_insert_ne by exact Hne. rewrite Hd, Z.add_0_r. reflexivity.
  - destruct (decide (key = "tile_failed")) as [->|Hne].
    + rewrite lookup_insert_eq. congruence.
    + rewrite lookup_insert_ne by exact Hne. rewrite Hf, Z.add_0_r. reflexivity.
Qed.

Section SyncTilesFacts.

Variable s3_upload_file : string -> string -> string -> res unit.
Variable s3_delete_objects : string -> list string -> res (list string).
Variable str_errors : list string -> string.
Variable ZeroDivisionError : exn.
Variable progress_seconds : Q.
Variable total : Z.
Hypothesis total_positive : total <> 0.

Let on_success := Some sync_on_success.
Let on_error := Some sync_on_error.
Let on_progress := Some (sync_on_progress ZeroDivisionError total).

(** Before a job is awaited the clock is read and progress may be
    logged; [result] stays as it is. *)
Lemma sync_loop_cons (j : job) rest start njobs last jc w :
  exists w1 last',
    sync_result w1 = sync_result w /\
    watch_loop sync_timer on_success on_error on_progress None
      progress_seconds start njobs (j :: rest) last jc w =
    match await_job on_success on_error None j w1 with
    | (Ret _, w2) =>
        watch_loop sync_timer on_success on_error on_progress None
          progress_seconds start njobs rest last' (S jc) w2
    | (Raise e, w2) => (Raise e, w2)
    end.
Proof.
  cbn [watch_loop]. subst on_progress.
  cbv [bind Timer_elapsed sync_timer ret option_map call sync_on_progress
       get_result sync_emit raise].
  destruct w as [c t r l]. cbn [sync_clock sync_ticks sync_result sync_log].
  destruct (Qltb (last + progress_seconds) (c t - start)).
  - rewrite decide_False by exact total_positive.
    eexists _, _. split; [|reflexivity]. reflexivity.
  - eexists _, _. split; [|reflexivity]. reflexivity.
Qed.

(** Awaiting one job adds to the counter the job names, or to
    [tile_failed] when the job raised. *)
Lemma sync_await (j : job) o w new changed deleted failed :
  (forall w, j w = (o, w)) ->
  sync_outcome_ok o ->
  tallied (sync_result w) new changed deleted failed ->
  exists w',
    await_job on_success on_error None j w = (Ret tt, w') /\
    tallied (sync_result w')
      (new + gained "tile_new" [o]) (changed + gained "tile_changed" [o])
      (deleted + gained "tile_deleted" [o]) (failed + raised [o]).
Proof.
  intros Hj Hok Hres. subst on_success on_error.
  destruct o as [[key count]|e].
  - assert (Hkey : exists value, sync_result w !! key = Some value).
    { destruct Hres as (Hn & Hc & Hd & Hf).
      destruct Hok as [-> | [-> | ->]]; eauto. }
    destruct Hkey as [value Hkey].
    pose proof (tallied_add _ key _ _ _ _ value count Hres Hkey) as Hadd.
    cbv [await_job try_except bind]. rewrite Hj.
    cbv [sync_on_success result_add bind get_result]. rewrite Hkey.
    cbv [set_result]. eexists. split; [reflexivity|].
    cbn [sync_result gained raised].
    destruct Hok as [-> | [-> | ->]];
      repeat (rewrite decide_True in * by reflexivity);
      repeat (rewrite decide_False in * by discriminate);
      try rewrite !Z.add_0_r in Hadd; try rewrite !Z.add_0_r;
      exact Hadd.
  - pose proof Hres as (Hn & Hc & Hd & Hf).
    pose proof (tallied_add _ "tile_failed" _ _ _ _ failed 1 Hres Hf) as Hadd.
    repeat (rewrite decide_True in Hadd by reflexivity).
    repeat (rewrite decide_False in Hadd by discriminate).
    cbn [gained raised]. rewrite !Z.add_0_r in *.
    cbv [await_job try_except bind]. rewrite Hj.
    destruct e; cbn in Hok; try discriminate;
      cbv [is_Exception ret bind sync_on_error sync_emit result_add get_result
           sync_result sync_clock sync_ticks sync_log];
      destruct w as [c t r l]; cbn [sync_result] in *; rewrite Hf;
      cbv [set_result sync_result sync_clock sync_ticks sync_log];
      (eexists; split; [reflexivity|exact Hadd]).
Qed.

(** The loop never raises and leaves the counters as the outcomes of
    the jobs say. *)
Lemma sync_loop_tallied jobs os :
  Forall2 (fun (j : job) o => forall w, j w = (o, w)) jobs os ->
  Forall sync_outcome_ok os ->
  forall start njobs last jc w new changed deleted failed,
  tallied (sync_result w) new changed deleted failed ->
  exists w',
    watch_loop sync_timer on_success on_error on_progress None
      progress_seconds start njobs jobs last jc w = (Ret tt, w') /\
    tallied (sync_result w')
      (new + gained "tile_new" os) (changed + gained "tile_changed" os)
      (deleted + gained "tile_deleted" os) (failed + raised os).
Proof.
  induction 1 as [|j o jobs os Hj _ IH]; intros Hok start njobs last jc w a b c d Hres.
  - exists w. split; [reflexivity|]. cbn [gained raised]. rewrite !Z.add_0_r. exact Hres.
  - apply Forall_cons in Hok as [Hok Hoks].
    destruct (sync_loop_cons j jobs start njobs last jc w) as (w1 & last' & Hw1 & ->).
    rewrite <- Hw1 in Hres.
    destruct (sync_await j o w1 a b c d Hj Hok Hres) as (w2 & -> & Hres2).
    destruct (IH Hoks start njobs last' (S jc) w2 _ _ _ _ Hres2) as (w3 & -> & Hres3).
    exists w3. split; [reflexivity|].
    change (o :: os) with ([o] ++ os). rewrite !gained_app, raised_app, !Z.add_assoc.
    exact Hres3.
Qed.

End SyncTilesFacts.
Lemma sync_loop_tallied_any ZeroDivisionError progress_seconds total jobs os :
  (jobs <> [] -> total <> 0) ->
  Forall2 (fun (j : job) o => forall w, j w = (o, w)) jobs os ->
  Forall sync_outcome_ok os ->
  forall start njobs last jc w new changed deleted failed,
  tallied (sync_result w) new changed deleted failed ->
  exists w',
    watch_loop sync_timer (Some sync_on_success) (Some sync_on_error)
      (Some (sync_on_progress ZeroDivisionError total)) None
      progress_seconds start njobs jobs last jc w = (Ret tt, w') /\
    tallied (sync_result w')
      (new + gained "tile_new" os) (changed + gained "tile_changed" os)
      (deleted + gained "tile_deleted" os) (failed + raised os).
Proof.
  intros Htotal Hjobs Hok start njobs last jc w a b c d Hres.
  destruct jobs as [|j jobs].
  - inversion Hjobs; subst. exists w. split; [reflexivity|].
    cbn [gained raised]. rewrite !Z.add_0_r. exact Hres.
  - apply sync_loop_tallied; try assumption. apply Htotal. discriminate.
Qed.

Lemma sync_timer_reads w :
  exists now w', sync_timer w = (Ret now, w') /\ sync_result w' = sync_result w.
Proof. eexists _, _. split; reflexivity. Qed.

(** The same for the batch as a whole, the timer around the loop included. *)
Lemma sync_watch_jobs_tallied ZeroDivisionError progress_seconds total jobs os :
  (jobs <> [] -> total <> 0) ->
  Forall2 (fun (j : job) o => forall w, j w = (o, w)) jobs os ->
  Forall sync_outcome_ok os ->
  forall w new changed deleted failed,
  tallied (sync_result w) new changed deleted failed ->
  exists w',
    watch_jobs sync_timer jobs (Some sync_on_success) (Some sync_on_error)
      (Some (sync_on_progress ZeroDivisionError total)) None progress_seconds w
    = (Ret tt, w') /\
    tallied (sync_result w')
      (new + gained "tile_new" os) (changed + gained "tile_changed" os)
      (deleted + gained "tile_deleted" os) (failed + raised os).
Proof.
  intros Htotal Hjobs Hok w a b c d Hres.
  unfold watch_jobs, with_Timer, try_finally, bind.
  destruct (sync_timer_reads w) as (start & w0 & -> & Hw0).
  rewrite <- Hw0 in Hres.
  destruct (sync_loop_tallied_any ZeroDivisionError progress_seconds total jobs os
              Htotal Hjobs Hok start (length jobs) 0%Q 0%nat w0 a b c d Hres)
    as (w1 & -> & Hres1).
  destruct (sync_timer_reads w1) as (stop & w2 & -> & Hw2).
  exists w2. split; [reflexivity|]. rewrite Hw2. exact Hres1.
Qed.

Lemma Forall2_map_same {A B C} (R : B -> C -> Prop) (f : A -> B) (g : A -> C) l :
  (forall x, R (f x) (g x)) -> Forall2 R (map f l) (map g l).
Proof. intros H. induction l; constructor; auto. Qed.

Lemma foldl_len {A} (batches : list (list A)) : forall t,
  foldl (fun total paths => total + len paths) t batches = t + len (concat batches).
Proof.
  induction batches as [|b batches IH]; intros t; cbn [foldl concat].
  - unfold len. cbn. lia.
  - rewrite IH. unfold len. rewrite length_app. lia.
Qed.

Lemma len_filter_split {A} (p : A -> bool) (l : list A) :
  len (List.filter p l) + len (List.filter (fun x => negb (p x)) l) = len l.
Proof.
  unfold len. induction l as [|x l IH]; [reflexivity|].
  cbn [List.filter]. destruct (p x); cbn [negb length]; lia.
Qed.

Section SyncTilesOutcomes.

Variable s3_upload_file : string -> string -> string -> res unit.
Variable s3_delete_objects : string -> list string -> res (list string).
Variable str_errors : list string -> string.
Variables bucket_name tiles_dir bucket_prefix : string.

Let is_sent := sent s3_upload_file bucket_name tiles_dir bucket_prefix.
Let is_deleted := deleted s3_delete_objects bucket_name bucket_prefix.
Let send_ends := send_outcome s3_upload_file bucket_name tiles_dir bucket_prefix.
Let delete_ends := delete_outcome s3_delete_objects str_errors bucket_name bucket_prefix.

Lemma upload_file_outcome path w :
  upload_file s3_upload_file path bucket_name bucket_prefix tiles_dir w
  = (send_ends "tile_new" path, w).
Proof.
  subst send_ends. cbv [upload_file send_file worker bind ret send_outcome].
  destruct (s3_upload_file _ _ _); reflexivity.
Qed.

Lemma update_file_outcome path w :
  update_file s3_upload_file path bucket_name bucket_prefix tiles_dir w
  = (send_ends "tile_changed" path, w).
Proof.
  subst send_ends. cbv [update_file send_file worker bind ret send_outcome].
  destruct (s3_upload_file _ _ _); reflexivity.
Qed.

Lemma delete_files_outcome paths w :
  delete_files s3_delete_objects str_errors paths bucket_name bucket_prefix w
  = (delete_ends paths, w).
Proof.
  subst delete_ends. cbv [delete_files worker bind ret raise delete_outcome].
  destruct (s3_delete_objects _ _) as [[|error errors]|e]; reflexivity.
Qed.

Lemma gained_send key tile_result paths :
  gained key (map (send_ends tile_result) paths)
  = if decide (tile_result = key) then len (List.filter is_sent paths) else 0.
Proof.
  subst send_ends is_sent. unfold len.
  induction paths as [|path paths IH].
  - destruct (decide _); reflexivity.
  - cbn [map gained List.filter]. unfold send_outcome at 1, sent at 1.
    destruct (s3_upload_file _ _ _); rewrite IH;
      destruct (decide (tile_result = key)); cbn [length]; lia.
Qed.

Lemma raised_send tile_result paths :
  raised (map (send_ends tile_result) paths)
  = len (List.filter (fun path => negb (is_sent path)) paths).
Proof.
  subst send_ends is_sent. unfold len.
  induction paths as [|path paths IH]; [reflexivity|].
  cbn [map raised List.filter]. unfold send_outcome at 1, sent at 1.
  destruct (s3_upload_file _ _ _); rewrite IH; cbn [negb length]; lia.
Qed.

Lemma gained_delete key batches :
  gained key (map delete_ends batches)
  = if decide ("tile_deleted" = key)
    then len (concat (List.filter is_deleted batches)) else 0.
Proof.
  subst delete_ends is_deleted. unfold len.
  induction batches as [|paths batches IH].
  - destruct (decide _); reflexivity.
  - cbn [map gained List.filter].
    unfold delete_outcome at 1, deleted at 1.
    destruct (s3_delete_objects _ _) as [[|error errors]|e]; rewrite IH;
      destruct (decide ("tile_deleted" = key)); cbn [concat];
      rewrite ?length_app; unfold len; lia.
Qed.

Lemma raised_delete batches :
  raised (map delete_ends batches)
  = len (List.filter (fun paths => negb (is_deleted paths)) batches).
Proof.
  subst delete_ends is_deleted. unfold len.
  induction batches as [|paths batches IH]; [reflexivity|].
  cbn [map raised List.filter].
  unfold delete_outcome at 1, deleted at 1.
  destruct (s3_delete_objects _ _) as [[|error errors]|e]; rewrite IH;
    cbn [negb length]; lia.
Qed.

Hypothesis upload_raises_exceptions : forall filename bucket key e,
  s3_upload_file filename bucket key = Raise e -> is_Exception e = true.
Hypothesis delete_raises_exceptions : forall bucket keys e,
  s3_delete_objects bucket keys = Raise e -> is_Exception e = true.

Lemma send_outcome_ok tile_result path :
  tile_result = "tile_new" \/ tile_result = "tile_changed" ->
  sync_outcome_ok (send_ends tile_result path).
Proof.
  intros Hkey. subst send_ends. unfold send_outcome.
  destruct (s3_upload_file _ _ _) eqn:Hs3; cbn [sync_outcome_ok].
  - tauto.
  - eapply upload_raises_exceptions, Hs3.
Qed.

Lemma delete_outcome_ok paths : sync_outcome_ok (delete_ends paths).
Proof.
  subst delete_ends. unfold delete_outcome.
  destruct (s3_delete_objects _ _) as [[|error errors]|e] eqn:Hs3; cbn [sync_outcome_ok].
  - tauto.
  - reflexivity.
  - eapply delete_raises_exceptions, Hs3.
Qed.

(** The whole of [sync_tiles]: it returns, with the counters that the
    outcomes of its jobs give. *)
Lemma sync_tiles_tallied ZeroDivisionError plan delete_batch_size w :
  let batches := chunked (delete plan) delete_batch_size in
  exists result w',
    sync_tiles s3_upload_file s3_delete_objects str_errors ZeroDivisionError
      plan bucket_name tiles_dir bucket_prefix delete_batch_size w
    = (Ret result, w') /\
    tallied result
      (len (List.filter is_sent (upload plan)))
      (len (List.filter is_sent (update plan)))
      (len (concat (List.filter is_deleted batches)))
      (len (List.filter (fun path => negb (is_sent path)) (upload plan))
       + len (List.filter (fun path => negb (is_sent path)) (update plan))
       + len (List.filter (fun paths => negb (is_deleted paths)) batches)).
Proof.
  intros batches.
  set (os := (map (send_ends "tile_new") (upload plan)
              ++ map (send_ends "tile_changed") (update plan))
             ++ map delete_ends batches).
  set (result0 := ({[ "tile_new" := 0; "tile_changed" := 0;
                      "tile_deleted" := 0; "tile_failed" := 0 ]} : gmap string Z)).
  assert (Hres0 : tallied result0 0 0 0 0).
  { subst result0. unfold tallied. repeat split; reflexivity. }
  unfold sync_tiles. fold batches. fold result0.
  set (jobs := (map _ (upload plan) ++ map _ (update plan)) ++ map _ batches).
  set (total := foldl _ _ batches).
  assert (Hjobs : Forall2 (fun (j : job) o => forall w, j w = (o, w)) jobs os).
  { subst jobs os. repeat apply Forall2_app; apply Forall2_map_same; intros x w0.
    - apply upload_file_outcome.
    - apply update_file_outcome.
    - apply delete_files_outcome. }
  assert (Hok : Forall sync_outcome_ok os).
  { subst os. rewrite !Forall_app. repeat split; apply Forall_forall; intros o Ho;
      apply list_elem_of_In, in_map_iff in Ho as (x & <- & _).
    - apply send_outcome_ok. tauto.
    - apply send_outcome_ok. tauto.
    - apply delete_outcome_ok. }
  assert (Htotal : jobs <> [] -> total <> 0).
  { intros Hne Hzero. apply Hne. subst total jobs. rewrite foldl_len in Hzero.
    pose proof (chunked_nonempty (delete plan) delete_batch_size) as Hchunks.
    fold batches in Hchunks.
    unfold len in Hzero.
    destruct (upload plan); [|cbn [length] in Hzero; lia].
    destruct (update plan); [|cbn [length] in Hzero; lia].
    destruct Hchunks as [|chunk rest Hchunk _]; [reflexivity|].
    destruct chunk; [congruence|].
    cbn [concat app length] in Hzero. lia. }
  cbv [bind set_result get_result].
  match goal with
  | |- context [watch_jobs _ jobs _ _ _ _ ?ps ?w0] =>
      destruct (sync_watch_jobs_tallied ZeroDivisionError ps total jobs os
                  Htotal Hjobs Hok w0 0 0 0 0 Hres0)
        as (w1 & -> & Hres1)
  end.
  eexists _, _. split; [reflexivity|].
  subst os. rewrite !gained_app, !raised_app in Hres1.
  rewrite !gained_send, !gained_delete, !raised_send, raised_delete in Hres1.
  repeat (rewrite decide_True in Hres1 by reflexivity).
  repeat (rewrite decide_False in Hres1 by discriminate).
  rewrite ?Z.add_0_r, ?Z.add_0_l in Hres1.
  exact Hres1.
Qed.

End SyncTilesOutcomes.

(** X10. What [sync_tiles] returns.  Whatever the clock does and
    however the store answers, as long as the store raises nothing but
    [Exception]s, [sync_tiles] returns (no failure of a job ends the
    sync, and progress is never computed with a zero total), and its
    counters are: [tile_new] and [tile_changed] the uploads and the
    updates the store took, [tile_deleted] the paths of the batches
    deleted without error, and [tile_failed] the number of jobs that
    failed: a batch of deletions that fails counts once, whatever the
    number of paths in it. *)
Theorem sync_tiles_counts
    (s3_upload_file : string -> string -> string -> res unit)
    (s3_delete_objects : string -> list string -> res (list string))
    (str_errors : list string -> string) (ZeroDivisionError : exn)
    (plan : sync_actions) (bucket_name tiles_dir bucket_prefix : string)
    (delete_batch_size : nat) (w : sync_world) :
  (forall filename bucket key e,
     s3_upload_file filename bucket key = Raise e -> is_Exception e = true) ->
  (forall bucket keys e,
     s3_delete_objects bucket keys = Raise e -> is_Exception e = true) ->
  let sent := sent s3_upload_file bucket_name tiles_dir bucket_prefix in
  let deleted := deleted s3_delete_objects bucket_name bucket_prefix in
  let batches := chunked (delete plan) delete_batch_size in
  exists result w',
    sync_tiles s3_upload_file s3_delete_objects str_errors ZeroDivisionError
      plan bucket_name tiles_dir bucket_prefix delete_batch_size w
    = (Ret result, w') /\
    result !! "tile_new" = Some (len (List.filter sent (upload plan))) /\
    result !! "tile_changed" = Some (len (List.filter sent (update plan))) /\
    result !! "tile_deleted" = Some (len (concat (List.filter deleted batches))) /\
    result !! "tile_failed" =
      Some (len (List.filter (fun path => negb (sent path)) (upload plan))
            + len (List.filter (fun path => negb (sent path)) (update plan))
            + len (List.filter (fun paths => negb (deleted paths)) batches)).
Proof.
  intros Hup Hdel sent deleted batches.
  destruct (sync_tiles_tallied s3_upload_file s3_delete_objects str_errors
              bucket_name tiles_dir bucket_prefix Hup Hdel ZeroDivisionError
              plan delete_batch_size w) as (result & w' & Hrun & Hres).
  exists result, w'. split; [exact Hrun|exact Hres].
Qed.

(** The example plan against a store that refuses one upload and one
    deletion, in batches of two: one upload, the update and three
    deletions go through, and the two lost deletions of the failed
    batch count as one failure beside the refused upload. *)
Lemma sync_tiles_counts_witness :
  exists result w',
    sync_tiles (picky_upload "tiles/1/0/1.png") (picky_delete "tiles/2/0/2.png")
      (fun _ => "") (RuntimeError "division by zero")
      example_plan "bucket" "/out/tiles" "tiles/" 2 (sync_world0 slow_first_job_clock)
    = (Ret result, w') /\
    result !! "tile_new" = Some 1 /\
    result !! "tile_changed" = Some 1 /\
    result !! "tile_deleted" = Some 3 /\
    result !! "tile_failed" = Some 2.
Proof.
  apply (sync_tiles_counts (picky_upload "tiles/1/0/1.png")
           (picky_delete "tiles/2/0/2.png") (fun _ => "")
           (RuntimeError "division by zero")
           example_plan "bucket" "/out/tiles" "tiles/" 2
           (sync_world0 slow_first_job_clock)).
  - intros filename bucket key e. unfold picky_upload.
    destruct (decide _); [intros [= <-]; reflexivity|discriminate].
  - intros bucket keys e. unfold picky_delete. destruct (decide _); discriminate.
Defined.

(** X11. A store that takes everything.  With a positive batch size
    and a store that accepts every upload and deletes every batch
    without error, the counters are the sizes of the three lists of the
    plan and no failure. *)
Theorem sync_tiles_all_done
    (s3_upload_file : string -> string -> string -> res unit)
    (s3_delete_objects : string -> list string -> res (list string))
    (str_errors : list string -> string) (ZeroDivisionError : exn)
    (plan : sync_actions) (bucket_name tiles_dir bucket_prefix : string)
    (delete_batch_size : nat) (w : sync_world) :
  (forall filename bucket key, s3_upload_file filename bucket key = Ret tt) ->
  (forall bucket keys, s3_delete_objects bucket keys = Ret []) ->
  (0 < delete_batch_size)%nat ->
  exists result w',
    sync_tiles s3_upload_file s3_delete_objects str_errors ZeroDivisionError
      plan bucket_name tiles_dir bucket_prefix delete_batch_size w
    = (Ret result, w') /\
    result !! "tile_new" = Some (len (upload plan)) /\
    result !! "tile_changed" = Some (len (update plan)) /\
    result !! "tile_deleted" = Some (len (delete plan)) /\
    result !! "tile_failed" = Some 0.
Proof.
  intros Hup Hdel Hsize.
  destruct (sync_tiles_tallied s3_upload_file s3_delete_objects str_errors
              bucket_name tiles_dir bucket_prefix
              ltac:(intros ? ? ? ?; rewrite Hup; discriminate)
              ltac:(intros ? ? ?; rewrite Hdel; discriminate)
              ZeroDivisionError plan delete_batch_size w)
    as (result & w' & Hrun & Hres).
  exists result, w'. split; [exact Hrun|].
  assert (Hsent : forall l,
    List.filter (sent s3_upload_file bucket_name tiles_dir bucket_prefix) l = l).
  { induction l as [|x l IH]; [reflexivity|]. cbn [List.filter].
    unfold sent at 1. rewrite Hup, IH. reflexivity. }
  assert (Hnot_sent : forall l,
    List.filter
      (fun path => negb (sent s3_upload_file bucket_name tiles_dir bucket_prefix path)) l
    = []).
  { induction l as [|x l IH]; [reflexivity|]. cbn [List.filter].
    unfold sent at 1. rewrite Hup. exact IH. }
  assert (Hdeleted : forall l,
    List.filter (deleted s3_delete_objects bucket_name bucket_prefix) l = l).
  { induction l as [|x l IH]; [reflexivity|]. cbn [List.filter].
    unfold deleted at 1. rewrite Hdel, IH. reflexivity. }
  assert (Hnot_deleted : forall l,
    List.filter
      (fun paths => negb (deleted s3_delete_objects bucket_name bucket_prefix paths)) l
    = []).
  { induction l as [|x l IH]; [reflexivity|]. cbn [List.filter].
    unfold deleted at 1. rewrite Hdel. exact IH. }
  rewrite !Hsent, !Hnot_sent, Hdeleted, Hnot_deleted in Hres.
  rewrite chunked_concat in Hres by exact Hsize.
  exact Hres.
Qed.

(** The example plan with the default batch size. *)
Lemma sync_tiles_all_done_witness :
  exists result w',
    sync_tiles willing_upload willing_delete (fun _ => "")
      (RuntimeError "division by zero")
      example_plan "bucket" "/out/tiles" "tiles/" 100 (sync_world0 slow_first_job_clock)
    = (Ret result, w') /\
    result !! "tile_new" = Some 2 /\
    result !! "tile_changed" = Some 1 /\
    result !! "tile_deleted" = Some 5 /\
    result !! "tile_failed" = Some 0.
Proof.
  apply (sync_tiles_all_done willing_upload willing_delete (fun _ => "")
           (RuntimeError "division by zero")
           example_plan "bucket" "/out/tiles" "tiles/" 100
           (sync_world0 slow_first_job_clock)).
  - reflexivity.
  - reflexivity.
  - lia.
Defined.

(** ** The command-line entry point *)

Ltac main_cases :=
  repeat match goal with
  | |- context [truthy ?s] => destruct (truthy s) eqn:?
  | |- context [env_isdir ?e ?d] => destruct (env_isdir e d) eqn:?
  | |- context [env_check_bucket ?e ?b] =>
      destruct (env_check_bucket e b) as [[[] ?]|?] eqn:?
  | |- context [env_generate ?e ?d ?b ?c ?u ?n] =>
      destruct (env_generate e d b c u n) as [?|[]] eqn:?
  | |- context [is_Exception ?e] => destruct (is_Exception e) eqn:?
  end.

Ltac main_run :=
  cbv [main attempt bind ret raise main_emit LOG_error call_generate
       selfdestruct_tempdir try_finally final_log_line main_timer
       args_create args_upload args_concurrency args_verbose args_output
       negb andb orb fst snd].

Ltac main_count :=
  cbv [count_events List.filter app length is_generate is_final_log
       is_check_bucket is_tempdir_exit is_capture_exception final_log_says
       args_create args_upload args_concurrency args_verbose args_output].

(** How the call of [generate] ended, when it is known beforehand. *)
Ltac main_generated Hgenerate :=
  try match goal with
  | H : env_generate _ _ _ _ _ _ = _ |- _ =>
      rewrite Hgenerate in H; first [discriminate H | injection H as ->]
  end.


(** A run with [--create --upload --output /out] against a usable bucket. *)
Lemma main_runs_generate outcome :
  count_events is_generate
    (snd (snd (main (example_environment outcome) example_args None (0%nat, []))))
  = 1%nat.
Proof. destruct outcome as [result|[]]; reflexivity. Qed.

(** X13. Ctrl-C during [generate].  When the call of [generate] is
    interrupted, [main] does not raise: it returns exit code 0, the
    final log line says [interrupted] with [success=False], and nothing
    is reported to the error tracker. *)
Theorem main_interrupted (env : environment) (a : args)
    (_bucket_name : option string) (t : nat) :
  (forall output_dir bucket_name create upload concurrency,
     env_generate env output_dir bucket_name create upload concurrency
     = Raise KeyboardInterrupt) ->
  let '(r, (_, events)) := main env a _bucket_name (t, []) in
  count_events is_generate events = 1%nat ->
  r = Ret 0 /\
  count_events (final_log_says "interrupted" false) events = 1%nat /\
  count_events is_capture_exception events = 0%nat.
Proof.
  intros Hgenerate.
  destruct a as [[] [] n v o]; main_run; main_cases; main_generated Hgenerate;
    main_count; try discriminate; intros _; repeat split.
Qed.

Lemma main_interrupted_witness :
  let run :=
    main (example_environment (Raise KeyboardInterrupt)) example_args None (0%nat, []) in
  fst run = Ret 0 /\
  count_events (final_log_says "interrupted" false) (snd (snd run)) = 1%nat /\
  count_events is_capture_exception (snd (snd run)) = 0%nat.
Proof.
  pose proof (main_interrupted (example_environment (Raise KeyboardInterrupt))
                example_args None 0 (fun _ _ _ _ _ => eq_refl)) as H.
  vm_compute in H. vm_compute. apply H. reflexivity.
Defined.

(** X14. A failure of [generate].  When the call of [generate] raises
    an [Exception], [main] reports it once to the error tracker, writes
    the final log line with [failed] and [success=False], and raises
    the same exception: no exit code is returned. *)
Theorem main_failed (env : environment) (a : args)
    (_bucket_name : option string) (t : nat) (e : exn) :
  is_Exception e = true ->
  (forall output_dir bucket_name create upload concurrency,
     env_generate env output_dir bucket_name create upload concurrency = Raise e) ->
  let '(r, (_, events)) := main env a _bucket_name (t, []) in
  count_events is_generate events = 1%nat ->
  r = Raise e /\
  count_events is_capture_exception events = 1%nat /\
  count_events (final_log_says "failed" false) events = 1%nat.
Proof.
  intros He Hgenerate.
  destruct a as [[] [] n v o]; main_run; main_cases; main_generated Hgenerate;
    try discriminate He; main_count; try discriminate; intros _; repeat split.
Qed.

Lemma main_failed_witness :
  let run :=
    main (example_environment (Raise (RuntimeError "render"))) example_args None
      (0%nat, []) in
  fst run = Raise (RuntimeError "render") /\
  count_events is_capture_exception (snd (snd run)) = 1%nat /\
  count_events (final_log_says "failed" false) (snd (snd run)) = 1%nat.
Proof.
  pose proof (main_failed (example_environment (Raise (RuntimeError "render")))
                example_args None 0 (RuntimeError "render") eq_refl
                (fun _ _ _ _ _ => eq_refl)) as H.
  vm_compute in H. vm_compute. apply H. reflexivity.
Defined.
